(** * Quantum-volume fitter and Pauli basis tables of qiskit-ignis

    A shallow embedding of
    - [qiskit/ignis/verification/quantum_volume/fitters.py] (class [QVFitter]),
    - [qiskit_ignis/tomography/basis/paulibasis.py] (the matrix tables and
      the circuit functions),
    together with the properties the specification states about them and
    further properties of the code.

    Conventions of the embedding.
    - Python [int] is [Z]; Python [float] / numpy [float64] is [R]: the
      arithmetic is the exact one, rounding and NaN are not modelled.
      [x ** 0.5] is [sqrt x] (they agree on the non-negative arguments the
      fitter produces), [math.erf] is a parameter of the development.
    - Python [str] is [string]; the dictionaries of the fitter that are only
      read by key are [gmap string _]; the probability dictionary whose key
      order is observed is an insertion-ordered association list.
    - The fitter object is a record; its methods are computations in a
      state-and-exception monad, so that what a method has already written
      when it raises is part of its result.
    - A [qiskit.Result] is a record of what the fitter uses of it: the names
      of its experiments and the accessors [get_statevector] and
      [get_counts].
    - A [QuantumCircuit] is the registers it is created on and the list of
      the instructions appended to it. *)

From Stdlib Require Import ZArith Reals Lra Lia String Ascii List DecimalString
  DecimalPos.
From stdpp Require Import base option list gmap strings.

Local Open Scope Z_scope.

(* ===================================================================== *)
(** ** Python strings: [split], [int], ['%d'] and ['{0:0Nb}'] *)
(* ===================================================================== *)

Module PyStr.

(** [s.split(sep)] for a one-character separator: never the empty list,
    adjacent separators give empty fields. *)
Fixpoint split (sep : ascii) (s : string) : list string :=
  match s with
  | EmptyString => [EmptyString]
  | String c s' =>
      if Ascii.eqb c sep then EmptyString :: split sep s'
      else match split sep s' with
           | [] => [String c EmptyString]
           | w :: ws => String c w :: ws
           end
  end.

(** ['%d' % z] *)
Definition fmt_d (z : Z) : string := NilZero.string_of_int (Z.to_int z).

(** The ASCII characters [str.isspace] accepts: tab to carriage return, the
    four separators 0x1c to 0x1f, and the space. *)
Definition is_space (c : ascii) : bool :=
  let n := nat_of_ascii c in
  (Nat.eqb n 32 || (Nat.leb 9 n && Nat.leb n 13)
   || (Nat.leb 28 n && Nat.leb n 31))%bool.

Fixpoint lstrip (s : string) : string :=
  match s with
  | String c s' => if is_space c then lstrip s' else s
  | EmptyString => EmptyString
  end.

Fixpoint rstrip (s : string) : string :=
  match s with
  | EmptyString => EmptyString
  | String c s' =>
      match rstrip s' with
      | EmptyString => if is_space c then EmptyString else String c EmptyString
      | t => String c t
      end
  end.

Definition digit_of (c : ascii) : option Z :=
  let n := nat_of_ascii c in
  if (Nat.leb 48 n && Nat.leb n 57)%bool then Some (Z.of_nat n - 48) else None.

(** Decimal digits, most significant first; [None] on a non-digit. *)
Fixpoint digits (acc : Z) (s : string) : option Z :=
  match s with
  | EmptyString => Some acc
  | String c s' =>
      match digit_of c with
      | Some d => digits (10 * acc + d) s'
      | None => None
      end
  end.

Definition unsigned (s : string) : option Z :=
  match s with
  | EmptyString => None
  | _ => digits 0 s
  end.

(** [int(s)] on an ASCII string: surrounding whitespace, an optional sign,
    then at least one decimal digit.  [None] stands for [ValueError]. *)
Definition int (s : string) : option Z :=
  match rstrip (lstrip s) with
  | String "+"%char t => unsigned t
  | String "-"%char t => Z.opp <$> unsigned t
  | t => unsigned t
  end.

Fixpoint bin_pos (p : positive) : string :=
  match p with
  | xH => "1"
  | xO q => bin_pos q +:+ "0"
  | xI q => bin_pos q +:+ "1"
  end.

Fixpoint zeros (n : nat) : string :=
  match n with
  | O => EmptyString
  | S k => String "0"%char (zeros k)
  end.

(** Left padding with ['0'] up to [width] characters. *)
Definition zfill (width : Z) (s : string) : string :=
  zeros (Z.to_nat width - String.length s) +:+ s.

(** ["{0:0<width>b}".format(b)]: binary digits, zero padded after the sign. *)
Definition format_bin (width b : Z) : string :=
  match b with
  | Z0 => zfill width "0"
  | Zpos p => zfill width (bin_pos p)
  | Zneg p => String "-"%char (zfill (width - 1) (bin_pos p))
  end.

End PyStr.

(* ===================================================================== *)
(** ** Insertion-ordered dictionaries *)
(* ===================================================================== *)

Module PyDict.
Section Dict.
Context {V : Type}.

Definition t := list (string * V).

Fixpoint getitem (k : string) (d : t) : option V :=
  match d with
  | [] => None
  | (k', v) :: d' => if String.eqb k k' then Some v else getitem k d'
  end.

(** [d[k] = v]: overwrite in place, or append a new key. *)
Fixpoint setitem (k : string) (v : V) (d : t) : t :=
  match d with
  | [] => [(k, v)]
  | (k', v') :: d' =>
      if String.eqb k k' then (k', v) :: d' else (k', v') :: setitem k v d'
  end.

Definition keys (d : t) : list string := map fst d.
Definition values (d : t) : list V := map snd d.
Definition get (k : string) (dflt : V) (d : t) : V :=
  match getitem k d with Some v => v | None => dflt end.

(** [{k: v for (k, v) in kvs}] *)
Definition comprehension (kvs : list (string * V)) : t :=
  fold_left (fun d kv => setitem (fst kv) (snd kv) d) kvs [].
End Dict.
Arguments t : clear implicits.
End PyDict.

(* ===================================================================== *)
(** ** Floats as reals *)
(* ===================================================================== *)

Local Open Scope R_scope.

(** [a > b] *)
Definition Rgtb (a b : R) : bool := if Rlt_dec b a then true else false.

(** [np.sum] of a float array and of integers; the order of the additions
    does not matter without rounding. *)
Definition Rsum (l : list R) : R := fold_right Rplus 0 l.
Definition Zsum (l : list Z) : Z := fold_right Z.add 0%Z l.

(** Complex amplitudes, as numpy's [complex128] without rounding. *)
Definition complex := (R * R)%type.
Definition conjugate (z : complex) : complex := (fst z, - snd z).
Definition multiply (a b : complex) : complex :=
  (fst a * fst b - snd a * snd b, fst a * snd b + snd a * fst b).
Definition real (z : complex) : R := fst z.

(** [numpy.median] and [numpy.mean] of a one-dimensional array: the median
    sorts and takes the middle element, or the mean of the two middle ones.
    The fitter only takes the median of the [2^depth >= 1] probabilities. *)
Module Np.

Fixpoint insert_sorted (x : R) (l : list R) : list R :=
  match l with
  | [] => [x]
  | y :: l' => if Rle_dec x y then x :: l else y :: insert_sorted x l'
  end.

Definition sort (l : list R) : list R := fold_right insert_sorted [] l.

Definition median (l : list R) : R :=
  let s := sort l in
  let n := length s in
  if Nat.even n
  then (nth (n / 2 - 1)%nat s 0 + nth (n / 2)%nat s 0) / 2
  else nth (n / 2)%nat s 0.

Definition mean (l : list R) : R := Rsum l / INR (length l).

End Np.

(* ===================================================================== *)
(** ** Duck typing of [_subset_probability] *)
(* ===================================================================== *)

(** [sum] starts from the integer [0] and adds from the left. *)
Class PyNum (V : Type) := { py_zero : V; py_add : V -> V -> V }.
#[export] Instance PyNum_Z : PyNum Z := {| py_zero := 0%Z; py_add := Z.add |}.
#[export] Instance PyNum_R : PyNum R := {| py_zero := 0; py_add := Rplus |}.

Definition py_sum {V} `{PyNum V} (l : list V) : V := fold_left py_add l py_zero.

(** [d.get(k, default)] for the two kinds of dictionary the fitter uses. *)
Class PyMapping (D V : Type) := { py_get : string -> V -> D -> V }.
#[export] Instance PyMapping_dict {V} : PyMapping (PyDict.t V) V :=
  {| py_get := PyDict.get |}.
#[export] Instance PyMapping_gmap {V} : PyMapping (gmap string V) V :=
  {| py_get := fun k dflt d => default dflt (d !! k) |}.

(* ===================================================================== *)
(** ** The collaborators: [qiskit.Result] and the counts helper *)
(* ===================================================================== *)

Record ExperimentResult := { header_name : string }.

(** A [qiskit.Result] as the fitter sees it: the experiments it lists and its
    two accessors.  [None] stands for the [QiskitError] / [KeyError] the
    accessor raises when it has no such data. *)
Record Result := {
  results : list ExperimentResult;
  get_statevector : string -> option (list complex);
  get_counts : string -> option (gmap string Z)
}.

(** Modelled from the spec: [build_counts_dict_from_list] of
    [qiskit.ignis.characterization.fitters] is not among the sources; the
    specification says the counts of one circuit instance are merged "by
    summing counts per bitstring across batches". *)
Definition build_counts_dict_from_list
    (count_list : list (gmap string Z)) : gmap string Z :=
  fold_left (union_with (fun a b => Some (a + b)%Z)) count_list ∅.

(* ===================================================================== *)
(** ** The fitter object and its monad *)
(* ===================================================================== *)

Record QVFitter := mkQVFitter {
  _qubit_lists : list (list Z);
  _depths : list Z;
  _ntrials : Z;
  _result_list : list Result;
  _heavy_output_counts : gmap string Z;
  _circ_shots : gmap string Z;
  _heavy_output_prob_ideal : gmap string R;
  _ydata : list (list R);
  _heavy_outputs : gmap string (list string)
}.

Definition set_ntrials (n : Z) (s : QVFitter) : QVFitter :=
  mkQVFitter (_qubit_lists s) (_depths s) n (_result_list s)
    (_heavy_output_counts s) (_circ_shots s) (_heavy_output_prob_ideal s)
    (_ydata s) (_heavy_outputs s).
Definition set_result_list (l : list Result) (s : QVFitter) : QVFitter :=
  mkQVFitter (_qubit_lists s) (_depths s) (_ntrials s) l
    (_heavy_output_counts s) (_circ_shots s) (_heavy_output_prob_ideal s)
    (_ydata s) (_heavy_outputs s).
Definition set_heavy_output_counts (m : gmap string Z) (s : QVFitter) : QVFitter :=
  mkQVFitter (_qubit_lists s) (_depths s) (_ntrials s) (_result_list s)
    m (_circ_shots s) (_heavy_output_prob_ideal s)
    (_ydata s) (_heavy_outputs s).
Definition set_circ_shots (m : gmap string Z) (s : QVFitter) : QVFitter :=
  mkQVFitter (_qubit_lists s) (_depths s) (_ntrials s) (_result_list s)
    (_heavy_output_counts s) m (_heavy_output_prob_ideal s)
    (_ydata s) (_heavy_outputs s).
Definition set_heavy_output_prob_ideal (m : gmap string R) (s : QVFitter) : QVFitter :=
  mkQVFitter (_qubit_lists s) (_depths s) (_ntrials s) (_result_list s)
    (_heavy_output_counts s) (_circ_shots s) m
    (_ydata s) (_heavy_outputs s).
Definition set_ydata (y : list (list R)) (s : QVFitter) : QVFitter :=
  mkQVFitter (_qubit_lists s) (_depths s) (_ntrials s) (_result_list s)
    (_heavy_output_counts s) (_circ_shots s) (_heavy_output_prob_ideal s)
    y (_heavy_outputs s).
Definition set_heavy_outputs (m : gmap string (list string)) (s : QVFitter) : QVFitter :=
  mkQVFitter (_qubit_lists s) (_depths s) (_ntrials s) (_result_list s)
    (_heavy_output_counts s) (_circ_shots s) (_heavy_output_prob_ideal s)
    (_ydata s) m.

Inductive exn :=
| QiskitError (msg : string)
| KeyError (key : string)
| ValueError
| IndexError
| TypeError.

Inductive outcome (A : Type) :=
| Ok (a : A)
| Raise (e : exn).
Arguments Ok {A} a.
Arguments Raise {A} e.

(** A method of the fitter: it returns or raises, and leaves a fitter. *)
Definition M (A : Type) : Type := QVFitter -> QVFitter * outcome A.

Definition ret {A} (a : A) : M A := fun s => (s, Ok a).
Definition raise {A} (e : exn) : M A := fun s => (s, Raise e).
Definition bind {A B} (m : M A) (k : A -> M B) : M B :=
  fun s => match m s with
           | (s', Ok a) => k a s'
           | (s', Raise e) => (s', Raise e)
           end.
Definition gets {A} (f : QVFitter -> A) : M A := fun s => (s, Ok (f s)).
Definition modify (f : QVFitter -> QVFitter) : M unit := fun s => (f s, Ok tt).

Declare Scope py_scope.
Delimit Scope py_scope with py.
Notation "x <- m ;; k" := (bind m (fun x => k))
  (at level 100, m at next level, right associativity) : py_scope.
Notation "m ;; k" := (bind m (fun _ => k))
  (at level 100, right associativity) : py_scope.
Local Open Scope py_scope.

(** A value that exists, or the exception its absence raises. *)
Definition orelse {A} (o : option A) (e : exn) : M A :=
  match o with Some a => ret a | None => raise e end.

(** [for x in l: body(x)] *)
Fixpoint for_ {A} (l : list A) (body : A -> M unit) : M unit :=
  match l with
  | [] => ret tt
  | x :: l' => body x ;; for_ l' body
  end.

(** A [for] loop that also updates local variables [v]. *)
Fixpoint for_with {A L} (l : list A) (v : L) (body : A -> L -> M L) : M L :=
  match l with
  | [] => ret v
  | x :: l' => v' <- body x v ;; for_with l' v' body
  end.

(** [range(n)] and [enumerate(l)] *)
Definition range (n : Z) : list Z := seqZ 0 n.
Definition enumerate {A} (l : list A) : list (nat * A) := imap pair l.

(** The argument of [add_statevectors] and [add_data]: [None], one result,
    or a list of results. *)
Inductive ResultArg :=
| ArgNone
| ArgOne (r : Result)
| ArgList (l : list Result).

Definition as_list (a : ResultArg) : list Result :=
  match a with
  | ArgNone => []
  | ArgOne r => [r]
  | ArgList l => l
  end.

(* ===================================================================== *)
(** ** [QVFitter]: the helper methods *)
(* ===================================================================== *)

(** [filter(lambda x: f(x), l)] where [f] may raise ([None]). *)
Fixpoint filter_opt {A} (f : A -> option bool) (l : list A) : option (list A) :=
  match l with
  | [] => Some []
  | x :: l' =>
      match f x with
      | None => None
      | Some b =>
          match filter_opt f l' with
          | None => None
          | Some r => Some (if b then x :: r else r)
          end
      end
  end.

(** [_heavy_strings]; [None] is the [KeyError] of [ideal_distribution[x]],
    which cannot occur as [x] ranges over the keys of [ideal_distribution]. *)
Definition _heavy_strings (ideal_distribution : PyDict.t R) (ideal_median : R)
    : option (list string) :=
  filter_opt
    (fun x => (fun p => Rgtb p ideal_median) <$> PyDict.getitem x ideal_distribution)
    (PyDict.keys ideal_distribution).

Definition _median_probabilities (distributions : list (PyDict.t R)) : list R :=
  map (fun dist => Np.median (PyDict.values dist)) distributions.

Definition _subset_probability {D V} `{PyNum V} `{PyMapping D V}
    (strings : list string) (distribution : D) : V :=
  py_sum (map (fun value => py_get value py_zero distribution) strings).

(** ['qv_depth_%d_trial_%d' % (depth, trialidx)] *)
Definition circ_name (depth trialidx : Z) : string :=
  "qv_depth_" +:+ PyStr.fmt_d depth +:+ "_trial_" +:+ PyStr.fmt_d trialidx.

(* ===================================================================== *)
(** ** [QVFitter.add_statevectors] *)
(* ===================================================================== *)

Definition already_added (circname : string) : exn :=
  QiskitError ("Already added the ideal result for circuit " +:+ circname).

(** The [QiskitError] of [Result.get_statevector], its message abridged. *)
Definition no_statevector (circname : string) : exn :=
  QiskitError ("No statevector for experiment " +:+ circname).

(** [{format_spec.format(b): float(np.real(pvector[b])) for b in range(2**depth)}];
    a negative [depth] makes [2**depth] a float, which [range] rejects. *)
Definition pmap_of (depth : Z) (pvector : list complex) : M (PyDict.t R) :=
  if (depth <? 0)%Z then raise TypeError
  else
    kvs <- orelse
             (mapM (fun b => (fun z => (PyStr.format_bin depth b, real z))
                               <$> pvector !! Z.to_nat b)
                   (range (2 ^ depth)))
             IndexError ;;
    ret (PyDict.comprehension kvs).

Definition add_statevectors_circ (result : Result) (qvcirc : ExperimentResult)
    : M unit :=
  let circname := header_name qvcirc in
  field <- orelse (PyStr.split "_" circname !! 2%nat) IndexError ;;
  depth <- orelse (PyStr.int field) ValueError ;;
  heavy <- gets _heavy_outputs ;;
  if decide (is_Some (heavy !! circname)) then raise (already_added circname)
  else
    qstate <- orelse (get_statevector result circname) (no_statevector circname) ;;
    let pvector := zip_with multiply qstate (map conjugate qstate) in
    pmap <- pmap_of depth pvector ;;
    let median_prob := _median_probabilities [pmap] in
    median0 <- orelse (median_prob !! 0%nat) IndexError ;;
    strings <- orelse (_heavy_strings pmap median0) (KeyError circname) ;;
    modify (fun s => set_heavy_outputs (<[header_name qvcirc := strings]> (_heavy_outputs s)) s) ;;
    heavy' <- gets _heavy_outputs ;;
    stored <- orelse (heavy' !! circname) (KeyError circname) ;;
    modify (fun s => set_heavy_output_prob_ideal
                       (<[circname := _subset_probability stored pmap]>
                          (_heavy_output_prob_ideal s)) s).

Definition add_statevectors (new_statevector_result : ResultArg) : M unit :=
  match new_statevector_result with
  | ArgNone => ret tt
  | _ =>
      for_ (as_list new_statevector_result) (fun result =>
        for_ (results result) (fun qvcirc =>
          add_statevectors_circ result qvcirc))
  end.

(* ===================================================================== *)
(** ** [QVFitter.calc_data] *)
(* ===================================================================== *)

(** The [try: count_list.append(result.get_counts(circ_name)) except: pass]
    loop over all stored results. *)
Definition count_list_of (result_list : list Result) (circ_name : string)
    : list (gmap string Z) :=
  fold_left (fun count_list result =>
               match get_counts result circ_name with
               | Some c => count_list ++ [c]
               | None => count_list
               end) result_list [].

(** [sum(d.values())] *)
Definition sum_values (d : gmap string Z) : Z :=
  py_sum (map snd (map_to_list d)).

Definition calc_data_circ (depth trialidx : Z)
    (circ_counts : gmap string (gmap string Z)) : M (gmap string (gmap string Z)) :=
  let circ_name := circ_name depth trialidx in
  result_list <- gets _result_list ;;
  let count_list := count_list_of result_list circ_name in
  let circ_counts := <[circ_name := build_counts_dict_from_list count_list]> circ_counts in
  counts <- orelse (circ_counts !! circ_name) (KeyError circ_name) ;;
  modify (fun s => set_circ_shots (<[circ_name := sum_values counts]> (_circ_shots s)) s) ;;
  heavy <- gets _heavy_outputs ;;
  strings <- orelse (heavy !! circ_name) (KeyError circ_name) ;;
  counts' <- orelse (circ_counts !! circ_name) (KeyError circ_name) ;;
  modify (fun s => set_heavy_output_counts
                     (<[circ_name := _subset_probability strings counts']>
                        (_heavy_output_counts s)) s) ;;
  ret circ_counts.

Definition calc_data : M unit :=
  ntrials <- gets _ntrials ;;
  for_with (range ntrials) (∅ : gmap string (gmap string Z))
    (fun trialidx circ_counts =>
       depths <- gets _depths ;;
       for_with (enumerate depths) circ_counts
         (fun '(_, depth) circ_counts => calc_data_circ depth trialidx circ_counts)) ;;
  ret tt.

(* ===================================================================== *)
(** ** [QVFitter.calc_statistics] *)
(* ===================================================================== *)

(** [np.zeros(n)]: a negative dimension is a [ValueError]. *)
Definition np_zeros (n : Z) : M (list R) :=
  if (n <? 0)%Z then raise ValueError else ret (replicate (Z.to_nat n) 0).

(** [self._ydata[r][c]] and [self._ydata[r][c] = v] *)
Definition ydata_get (r c : nat) : M R :=
  y <- gets _ydata ;;
  row <- orelse (y !! r) IndexError ;;
  orelse (row !! c) IndexError.

Definition ydata_set (r c : nat) (v : R) : M unit :=
  y <- gets _ydata ;;
  row <- orelse (y !! r) IndexError ;;
  if decide (c < length row)%nat
  then modify (set_ydata (<[r := <[c := v]> row]> y))
  else raise IndexError.

(** [a[i] = v] on a numpy vector, for the indices [i >= 0] that [range]
    produces. *)
Definition array_set (a : list R) (i : Z) (v : R) : M (list R) :=
  if decide (0 <= i < Z.of_nat (length a))%Z
  then ret (<[Z.to_nat i := v]> a)
  else raise IndexError.

Definition calc_statistics_trial (depth trialidx : Z)
    (loc : list R * Z * list R) : M (list R * Z * list R) :=
  let '(exp_vals, exp_shots, ideal_vals) := loc in
  let cname := circ_name depth trialidx in
  hoc <- gets _heavy_output_counts ;;
  c <- orelse (hoc !! cname) (KeyError cname) ;;
  exp_vals <- array_set exp_vals trialidx (IZR c) ;;
  shots <- gets _circ_shots ;;
  n <- orelse (shots !! cname) (KeyError cname) ;;
  let exp_shots := (exp_shots + n)%Z in
  ideal <- gets _heavy_output_prob_ideal ;;
  p <- orelse (ideal !! cname) (KeyError cname) ;;
  ideal_vals <- array_set ideal_vals trialidx p ;;
  ret (exp_vals, exp_shots, ideal_vals).

Definition calc_statistics_depth (depthidx : nat) (depth : Z)
    (arrays : list R * list R) : M (list R * list R) :=
  let '(exp_vals, ideal_vals) := arrays in
  ntrials <- gets _ntrials ;;
  loc <- for_with (range ntrials) (exp_vals, 0%Z, ideal_vals)
           (fun trialidx loc => calc_statistics_trial depth trialidx loc) ;;
  let '(exp_vals, exp_shots, ideal_vals) := loc in
  ydata_set 0 depthidx (Rsum exp_vals / IZR exp_shots) ;;
  y0 <- ydata_get 0 depthidx ;;
  y0' <- ydata_get 0 depthidx ;;
  ntrials <- gets _ntrials ;;
  ydata_set 1 depthidx (sqrt (y0 * (1 - y0') / IZR ntrials)) ;;
  ydata_set 2 depthidx (Np.mean ideal_vals) ;;
  y2 <- ydata_get 2 depthidx ;;
  y2' <- ydata_get 2 depthidx ;;
  ntrials <- gets _ntrials ;;
  ydata_set 3 depthidx (sqrt (y2 * (1 - y2') / IZR ntrials)) ;;
  ret (exp_vals, ideal_vals).

Definition calc_statistics : M unit :=
  depths <- gets _depths ;;
  modify (set_ydata (replicate 4 (replicate (length depths) 0))) ;;
  ntrials <- gets _ntrials ;;
  exp_vals <- np_zeros ntrials ;;
  ntrials <- gets _ntrials ;;
  ideal_vals <- np_zeros ntrials ;;
  depths <- gets _depths ;;
  for_with (enumerate depths) (exp_vals, ideal_vals)
    (fun '(depthidx, depth) arrays => calc_statistics_depth depthidx depth arrays) ;;
  ret tt.

(* ===================================================================== *)
(** ** [QVFitter.add_data] *)
(* ===================================================================== *)

Definition ideal_must_be_loaded : exn :=
  QiskitError "Ideal distribution must be loaded first".

Definition add_data_circ (qvcirc : ExperimentResult) : M unit :=
  field <- orelse (last (PyStr.split "_" (header_name qvcirc))) IndexError ;;
  ntrials_circ <- orelse (PyStr.int field) ValueError ;;
  ntrials <- gets _ntrials ;;
  (if (ntrials_circ + 1 >? ntrials)%Z
   then modify (set_ntrials (ntrials_circ + 1))
   else ret tt) ;;
  ideal <- gets _heavy_output_prob_ideal ;;
  if decide (is_Some (ideal !! header_name qvcirc)) then ret tt
  else raise ideal_must_be_loaded.

Definition add_data (new_backend_result : ResultArg) (rerun_fit : bool) : M unit :=
  match new_backend_result with
  | ArgNone => ret tt
  | _ =>
      for_ (as_list new_backend_result) (fun result =>
        modify (fun s => set_result_list (_result_list s ++ [result]) s) ;;
        for_ (results result) add_data_circ) ;;
      if rerun_fit then calc_data ;; calc_statistics else ret tt
  end.

(** [QVFitter(backend_result, statevector_result, qubit_lists)] *)
Definition QVFitter_init (backend_result statevector_result : ResultArg)
    (qubit_lists : list (list Z)) : QVFitter * outcome unit :=
  (add_statevectors statevector_result ;; add_data backend_result true)
    (mkQVFitter qubit_lists (map (fun l => Z.of_nat (length l)) qubit_lists)
       0%Z [] ∅ ∅ ∅ [] ∅).

(* ===================================================================== *)
(** ** [QVFitter.qv_success] and [QVFitter.quantum_volume] *)
(* ===================================================================== *)

(** [l[-1] = f(l[-1])] *)
Fixpoint update_last {A} (f : A -> A) (l : list A) : list A :=
  match l with
  | [] => []
  | [x] => [f x]
  | x :: l' => x :: update_last f l'
  end.

Section Success.
(** [math.erf] *)
Variable erf : R -> R.

Definition qv_success_depth (depth_ind : nat) (success_list : list (bool * R))
    : M (list (bool * R)) :=
  let success_list := success_list ++ [(false, 0)] in
  hmean <- ydata_get 0 depth_ind ;;
  if Rgtb hmean (2 / 3) then
    sigma <- ydata_get 1 depth_ind ;;
    let cfd := 0.5 * (1 + erf ((hmean - 2 / 3) / (1e-10 + sigma) / sqrt 2)) in
    let success_list := update_last (fun e => (fst e, cfd)) success_list in
    if Rgtb cfd 0.975
    then ret (update_last (fun e => (true, snd e)) success_list)
    else ret success_list
  else ret success_list.

Definition qv_success : M (list (bool * R)) :=
  depths <- gets _depths ;;
  for_with (enumerate depths) []
    (fun '(depth_ind, _) success_list => qv_success_depth depth_ind success_list).
End Success.


(* ===================================================================== *)
(** ** The Pauli lookup tables of [paulibasis.py] *)
(* ===================================================================== *)

Definition matrix := list (list complex).

(** A Python value that may be passed as a measurement outcome. *)
Inductive pyval :=
| PyInt (z : Z)
| PyString (s : string).

Definition pyval_eqb (a b : pyval) : bool :=
  match a, b with
  | PyInt x, PyInt y => (x =? y)%Z
  | PyString x, PyString y => String.eqb x y
  | _, _ => false
  end.

(** [x in l] *)
Definition py_in (x : pyval) (l : list pyval) : bool := existsb (pyval_eqb x) l.

(** [None] is Python's [None], returned when no branch is taken. *)
Definition pauli_preparation_matrix (label : string) : option matrix :=
  if String.eqb label "Xp" then Some [[(0.5, 0); (0.5, 0)]; [(0.5, 0); (0.5, 0)]]
  else if String.eqb label "Xm" then Some [[(0.5, 0); (-0.5, 0)]; [(-0.5, 0); (0.5, 0)]]
  else if String.eqb label "Yp" then Some [[(0.5, 0); (0, -0.5)]; [(0, 0.5); (0.5, 0)]]
  else if String.eqb label "Ym" then Some [[(0.5, 0); (0, 0.5)]; [(0, -0.5); (0.5, 0)]]
  else if String.eqb label "Zp" then Some [[(1, 0); (0, 0)]; [(0, 0); (0, 0)]]
  else if String.eqb label "Zm" then Some [[(0, 0); (0, 0)]; [(0, 0); (1, 0)]]
  else None.

Definition pauli_measurement_matrix (label : string) (outcome : pyval)
    : option matrix :=
  let zero := py_in outcome [PyString "0"; PyInt 0] in
  let one := py_in outcome [PyString "1"; PyInt 1] in
  if (String.eqb label "X" && zero)%bool then pauli_preparation_matrix "Xp"
  else if (String.eqb label "X" && one)%bool then pauli_preparation_matrix "Xm"
  else if (String.eqb label "Y" && zero)%bool then pauli_preparation_matrix "Yp"
  else if (String.eqb label "Y" && one)%bool then pauli_preparation_matrix "Ym"
  else if (String.eqb label "Z" && zero)%bool then pauli_preparation_matrix "Zp"
  else if (String.eqb label "Z" && one)%bool then pauli_preparation_matrix "Zm"
  else None.

(* ===================================================================== *)
(** ** The Pauli circuits of [paulibasis.py] *)
(* ===================================================================== *)

(** A qubit or a classical bit as the circuit functions receive it: the
    tuple of its register and its index. *)
Definition bit := (string * Z)%type.

(** A [QuantumCircuit] as the two functions use it: the registers it is
    created on and the instructions appended to it. *)
Module QuantumCircuit.

Inductive instruction :=
| Hgate (qubit : bit)
| Xgate (qubit : bit)
| Sgate (qubit : bit)
| Sdggate (qubit : bit)
| Measure (qubit clbit : bit).

Record t := mk {
  qregs : list string;
  cregs : list string;
  data : list instruction
}.

Definition append (i : instruction) (circ : t) : t :=
  mk (qregs circ) (cregs circ) (data circ ++ [i]).

Definition h (qubit : bit) : t -> t := append (Hgate qubit).
Definition x (qubit : bit) : t -> t := append (Xgate qubit).
Definition s (qubit : bit) : t -> t := append (Sgate qubit).
Definition sdg (qubit : bit) : t -> t := append (Sdggate qubit).
Definition measure (qubit clbit : bit) : t -> t := append (Measure qubit clbit).

End QuantumCircuit.

(** The three [if op == ...] statements run one after the other. *)
Definition pauli_measurement_circuit (op : string) (qubit clbit : bit)
    : QuantumCircuit.t :=
  let circ := QuantumCircuit.mk [fst qubit] [fst clbit] [] in
  let circ :=
    if String.eqb op "X"
    then QuantumCircuit.measure qubit clbit (QuantumCircuit.h qubit circ)
    else circ in
  let circ :=
    if String.eqb op "Y"
    then QuantumCircuit.measure qubit clbit
           (QuantumCircuit.h qubit (QuantumCircuit.sdg qubit circ))
    else circ in
  let circ :=
    if String.eqb op "Z" then QuantumCircuit.measure qubit clbit circ else circ in
  circ.

Definition pauli_preparation_circuit (op : string) (qubit : bit)
    : QuantumCircuit.t :=
  let circ := QuantumCircuit.mk [fst qubit] [] [] in
  let circ := if String.eqb op "Xp" then QuantumCircuit.h qubit circ else circ in
  let circ :=
    if String.eqb op "Xm"
    then QuantumCircuit.h qubit (QuantumCircuit.x qubit circ) else circ in
  let circ :=
    if String.eqb op "Yp"
    then QuantumCircuit.s qubit (QuantumCircuit.h qubit circ) else circ in
  let circ :=
    if String.eqb op "Ym"
    then QuantumCircuit.s qubit (QuantumCircuit.h qubit (QuantumCircuit.x qubit circ))
    else circ in
  let circ := if String.eqb op "Zm" then QuantumCircuit.x qubit circ else circ in
  circ.

(* ===================================================================== *)
(** * Notions used in the statements *)
(* ===================================================================== *)

(** What the properties below speak about: the label sets of the Pauli
    tables, the verdict and the statistics as the specification words them,
    the tables [calc_data] writes, the predicates on batches and circuits,
    and the fixtures of the worked scenario. *)

(** ** The labels of the Pauli tables *)

Definition preparation_labels : list string := ["Xp"; "Xm"; "Yp"; "Ym"; "Zp"; "Zm"].

Definition measurement_labels : list string := ["X"; "Y"; "Z"].

Definition measurement_outcomes : list pyval :=
  [PyString "0"; PyInt 0; PyString "1"; PyInt 1].

(** ** The verdict of the specification *)

(** The confidence as the specification writes it. *)
Definition confidence (erf : R -> R) (p sigma : R) : R :=
  0.5 * (1 + erf ((p - 2 / 3) / ((sigma + 1e-10) * sqrt 2))).

(** The verdict as the specification words it. *)
Definition verdict (erf : R -> R) (p sigma : R) : bool * R :=
  if Rgtb p (2 / 3)
  then (Rgtb (confidence erf p sigma) 0.975, confidence erf p sigma)
  else (false, 0).

(** ** The tables of the count aggregation *)

(** The fitter [s] with its two count tables replaced. *)
Definition with_counts (s : QVFitter) (shots hoc : gmap string Z) : QVFitter :=
  set_heavy_output_counts hoc (set_circ_shots shots s).

(** The merged counts of one circuit instance over all stored results. *)
Definition merged_counts (result_list : list Result) (name : string) : gmap string Z :=
  build_counts_dict_from_list (count_list_of result_list name).

(** The circuit names [calc_data] visits, in its order: trials outermost. *)
Definition visited_names (ntrials : Z) (depths : list Z) : list string :=
  flat_map (fun trialidx => map (fun depth => circ_name depth trialidx) depths)
           (range ntrials).

(** The effect of the loop body of [calc_data] on the two tables, name by
    name, up to the first name without a heavy set. *)
Fixpoint calc_data_writes (result_list : list Result)
    (heavy : gmap string (list string)) (names : list string)
    (shots hoc : gmap string Z) : gmap string Z * gmap string Z * outcome unit :=
  match names with
  | [] => (shots, hoc, Ok tt)
  | n :: names' =>
      let merged := merged_counts result_list n in
      let shots1 := <[n := sum_values merged]> shots in
      match heavy !! n with
      | None => (shots1, hoc, Raise (KeyError n))
      | Some strings =>
          calc_data_writes result_list heavy names' shots1
            (<[n := _subset_probability strings merged]> hoc)
      end
  end.

(** The total shots and the heavy-output count of a circuit name. *)
Definition shots_of (rl : list Result) (n : string) : Z :=
  sum_values (merged_counts rl n).

Definition hoc_of (rl : list Result) (n : string) (strings : list string) : Z :=
  _subset_probability strings (merged_counts rl n).

(** The tables are settled for [names]: every entry the loop would write
    is already there. *)
Fixpoint settled (rl : list Result) (heavy : gmap string (list string))
    (names : list string) (shots hoc : gmap string Z) : Prop :=
  match names with
  | [] => True
  | n :: names' =>
      shots !! n = Some (shots_of rl n) /\
      match heavy !! n with
      | None => True
      | Some strings =>
          hoc !! n = Some (hoc_of rl n strings) /\ settled rl heavy names' shots hoc
      end
  end.

(** The count of one bitstring in one batch for one instance, if any. *)
Definition batch_count (name x : string) (r : Result) : option Z :=
  get_counts r name ≫= (fun c => c !! x).

(** A result holding counts, and one holding statevectors, for the listed
    circuit names. *)
Definition counts_result (exps : list (string * gmap string Z)) : Result :=
  {| results := map (fun e => {| header_name := fst e |}) exps;
     get_statevector := fun _ => None;
     get_counts := fun n => PyDict.getitem n exps |}.

Definition statevector_result (exps : list (string * list complex)) : Result :=
  {| results := map (fun e => {| header_name := fst e |}) exps;
     get_statevector := fun n => PyDict.getitem n exps;
     get_counts := fun _ => None |}.

(** ** The statistics of one depth *)

(** The per-trial tables of the fitter at one depth. *)
Definition counts_at (s : QVFitter) (depth : Z) (t : nat) : Z :=
  default 0%Z (_heavy_output_counts s !! circ_name depth (Z.of_nat t)).

Definition shots_at (s : QVFitter) (depth : Z) (t : nat) : Z :=
  default 0%Z (_circ_shots s !! circ_name depth (Z.of_nat t)).

Definition ideal_at (s : QVFitter) (depth : Z) (t : nat) : R :=
  default 0 (_heavy_output_prob_ideal s !! circ_name depth (Z.of_nat t)).

(** All three tables have an entry for the instance. *)
Definition tabulated (s : QVFitter) (depth : Z) (t : nat) : Prop :=
  is_Some (_heavy_output_counts s !! circ_name depth (Z.of_nat t)) /\
  is_Some (_circ_shots s !! circ_name depth (Z.of_nat t)) /\
  is_Some (_heavy_output_prob_ideal s !! circ_name depth (Z.of_nat t)).

(** The four values [calc_statistics] stores for one depth. *)
Definition p_hat (s : QVFitter) (depth : Z) : R :=
  IZR (Zsum (map (counts_at s depth) (seq 0 (Z.to_nat (_ntrials s))))) /
  IZR (Zsum (map (shots_at s depth) (seq 0 (Z.to_nat (_ntrials s))))).

Definition p_hat_err (s : QVFitter) (depth : Z) : R :=
  sqrt (p_hat s depth * (1 - p_hat s depth) / IZR (_ntrials s)).

Definition p_ideal (s : QVFitter) (depth : Z) : R :=
  Rsum (map (ideal_at s depth) (seq 0 (Z.to_nat (_ntrials s)))) / IZR (_ntrials s).

Definition p_ideal_err (s : QVFitter) (depth : Z) : R :=
  sqrt (p_ideal s depth * (1 - p_ideal s depth) / IZR (_ntrials s)).

(** ** Frames, exceptions and recomputation *)

(** A computation keeps a property of the fitter, however it ends. *)
Definition preserves {A} (P : QVFitter -> Prop) (m : M A) : Prop :=
  forall s, P s -> P (fst (m s)).

(** Two fitters that differ in the statistics table at most. *)
Definition same_but_ydata (s0 s : QVFitter) : Prop := set_ydata [] s = set_ydata [] s0.

(** [self.calc_data(); self.calc_statistics()] *)
Definition recompute : M unit := calc_data ;; calc_statistics.

(** A computation raises exceptions of the kind [E] only. *)
Definition raises_only {A} (E : exn -> Prop) (m : M A) : Prop :=
  forall s s' e, m s = (s', Raise e) -> E e.

(** An exception of Python itself, not a [QiskitError]. *)
Definition builtin_exn (e : exn) : Prop :=
  match e with QiskitError _ => False | _ => True end.

(** ** Batches of measured counts *)

(** The trial index a circuit name ends with, when it has one. *)
Definition trial_of (name : string) : option Z :=
  last (PyStr.split "_" name) ≫= PyStr.int.

(** The circuit has an ideal heavy-output probability on record. *)
Definition registered (s : QVFitter) (qvcirc : ExperimentResult) : Prop :=
  is_Some (_heavy_output_prob_ideal s !! header_name qvcirc).

(** [if (ntrials_circ+1) > self._ntrials: self._ntrials = ntrials_circ+1] *)
Definition bump_ntrials (t : Z) (s : QVFitter) : QVFitter :=
  if (t + 1 >? _ntrials s)%Z then set_ntrials (t + 1) s else s.

(** Two fitters that differ in the trial count at most. *)
Definition same_but_ntrials (s s' : QVFitter) : Prop :=
  set_ntrials 0 s' = set_ntrials 0 s.

(** The outcome of checking the circuits of one batch. *)
Definition circs_outcome (s : QVFitter) (cs : list ExperimentResult)
    (r : outcome unit) : Prop :=
  match r with
  | Ok _ => forall c, c ∈ cs -> registered s c /\ is_Some (trial_of (header_name c))
  | Raise e =>
      (e = ideal_must_be_loaded /\ exists c, c ∈ cs /\ ~ registered s c) \/
      ((e = ValueError \/ e = IndexError) /\
       exists c, c ∈ cs /\ trial_of (header_name c) = None)
  end.

(** [for result in new_backend_result: ...] of [add_data] *)
Definition add_data_loop (rs : list Result) : M unit :=
  for_ rs (fun result =>
    modify (fun s => set_result_list (_result_list s ++ [result]) s) ;;
    for_ (results result) add_data_circ).

(** The empty fitter for one two-qubit list, and a batch with one circuit. *)
Definition fresh_fitter : QVFitter :=
  mkQVFitter [[0; 1]%Z] [2%Z] 0%Z [] ∅ ∅ ∅ [] ∅.

Definition stray_batch : Result :=
  counts_result [("qv_depth_2_trial_3", {["00" := 10%Z]})].

(** ** Batches of ideal statevectors *)

(** The depth a circuit name carries in its third field. *)
Definition depth_of (name : string) : option Z :=
  (PyStr.split "_" name !! 2%nat) ≫= PyStr.int.

(** The ideal probability of the outcome [b]: [real(q[b] * conj(q[b]))]. *)
Definition probability (qstate : list complex) (b : Z) : R :=
  default 0 ((fun z => real (multiply z (conjugate z))) <$> qstate !! Z.to_nat b).

(** The pairs the dictionary comprehension of [add_statevectors] goes through. *)
Definition pmap_items (depth : Z) (pvector : list complex) : option (list (string * R)) :=
  mapM (fun b => (fun z => (PyStr.format_bin depth b, real z)) <$> pvector !! Z.to_nat b)
       (range (2 ^ depth)).

(** What [add_statevectors] computes for a circuit that is not registered
    yet: its heavy strings and its ideal heavy-output probability. *)
Definition ingest (result : Result) (circname : string) (depth : Z)
    : exn + (list string * R) :=
  match get_statevector result circname with
  | None => inl (no_statevector circname)
  | Some qstate =>
      if (depth <? 0)%Z then inl TypeError
      else
        match pmap_items depth (zip_with multiply qstate (map conjugate qstate)) with
        | None => inl IndexError
        | Some kvs =>
            let pmap := PyDict.comprehension kvs in
            match _heavy_strings pmap (Np.median (PyDict.values pmap)) with
            | None => inl (KeyError circname)
            | Some strings => inr (strings, _subset_probability strings pmap)
            end
        end
  end.

(** The two assignments that register a circuit. *)
Definition register (circname : string) (strings : list string) (p : R)
    (s : QVFitter) : QVFitter :=
  set_heavy_output_prob_ideal (<[circname := p]> (_heavy_output_prob_ideal s))
    (set_heavy_outputs (<[circname := strings]> (_heavy_outputs s)) s).

(** The circuits of the batches, in the order the loops visit them. *)
Definition circuits (rs : list Result) : list (Result * ExperimentResult) :=
  flat_map (fun r => map (pair r) (results r)) rs.

(** Their names. *)
Definition circuit_names (l : list (Result * ExperimentResult)) : list string :=
  map (fun rc => header_name (snd rc)) l.

(** The circuit can be ingested: its name carries a depth and [ingest]
    finds its statevector long enough. *)
Definition ingestible (r : Result) (c : ExperimentResult) : Prop :=
  exists depth strings p,
    depth_of (header_name c) = Some depth /\
    ingest r (header_name c) depth = inr (strings, p).

(** The number a string of binary digits stands for. *)
Fixpoint bin_value (acc : Z) (s : string) : Z :=
  match s with
  | EmptyString => acc
  | String c s' => bin_value (2 * acc + (if Ascii.eqb c "1" then 1 else 0))%Z s'
  end.

(** The ideal probabilities of the outcomes [0 .. 2^depth - 1]. *)
Definition ideal_probabilities (depth : Z) (qstate : list complex) : list R :=
  map (probability qstate) (range (2 ^ depth)).

(** The outcomes whose ideal probability exceeds the median. *)
Definition heavy_outcomes (depth : Z) (qstate : list complex) : list Z :=
  List.filter
    (fun b => Rgtb (probability qstate b) (Np.median (ideal_probabilities depth qstate)))
    (range (2 ^ depth)).

(** ** The worked scenario *)

Definition scenario_name : string := "qv_depth_2_trial_0".

(** Amplitudes with the probabilities 0.4, 0.32, 0.18 and 0.1. *)
Definition scenario_qstate : list complex :=
  [(0.6, 0.2); (0.4, 0.4); (0.3, 0.3); (0.3, 0.1)].

(** The two batches of the scenario. *)
Definition ideal_batch : Result :=
  statevector_result [(scenario_name, scenario_qstate)].

Definition counts_batch : Result :=
  counts_result
    [(scenario_name,
      <["00" := 40%Z]> (<["01" := 30%Z]> (<["10" := 20%Z]> {["11" := 10%Z]})))].

(** The fitter once the ideal distribution and the counts are in. *)
Definition scenario_fitter : QVFitter :=
  mkQVFitter [[0; 1]%Z] [2%Z] 1%Z [counts_batch]
    {[scenario_name := 70%Z]} {[scenario_name := 100%Z]}
    {[scenario_name := 0.72]} [] {[scenario_name := ["00"; "01"]]}.

(** ** Matrices of complex numbers *)

Definition Czero : complex := (0, 0).
Definition Cone : complex := (1, 0).
Definition Cadd (a b : complex) : complex := (fst a + fst b, snd a + snd b).
Definition Csum (l : list complex) : complex := fold_right Cadd Czero l.

(** Entry [(i, j)] of a matrix given by its rows. *)
Definition entry (m : matrix) (i j : nat) : complex := nth j (nth i m []) Czero.

Definition mat_add (a b : matrix) : matrix := zip_with (zip_with Cadd) a b.

(** The product of two square matrices of the same size. *)
Definition mat_mul (a b : matrix) : matrix :=
  let n := length a in
  map (fun i => map (fun j =>
         Csum (map (fun k => multiply (entry a i k) (entry b k j)) (seq 0 n)))
       (seq 0 n)) (seq 0 n).

(** The conjugate transpose of a square matrix. *)
Definition dagger (a : matrix) : matrix :=
  let n := length a in
  map (fun i => map (fun j => conjugate (entry a j i)) (seq 0 n)) (seq 0 n).

Definition trace (a : matrix) : complex :=
  Csum (map (fun i => entry a i i) (seq 0 (length a))).

Definition identity2 : matrix := [[Cone; Czero]; [Czero; Cone]].
Definition zero2 : matrix := [[Czero; Czero]; [Czero; Czero]].

(** A rank-one projector, the density matrix of a pure state. *)
Definition projector (m : matrix) : Prop :=
  dagger m = m /\ trace m = Cone /\ mat_mul m m = m.

(** ** The gates of the Pauli circuits *)

(** Qiskit's gates as their standard unitaries on the amplitudes [(a, b)] of
    one qubit: [h] is the Hadamard gate, [x] the bit flip, [s] the phase
    gate [diag(1, i)] and [sdg] its inverse [diag(1, -i)]; a measurement
    leaves the amplitudes it is applied to as they are. *)
Definition amplitudes := (complex * complex)%type.

Definition Cscale (k : R) (a : complex) : complex := (k * fst a, k * snd a).
Definition Cneg (a : complex) : complex := (- fst a, - snd a).
Definition Ctimes_i (a : complex) : complex := (- snd a, fst a).

Definition apply_instruction (i : QuantumCircuit.instruction) (psi : amplitudes)
    : amplitudes :=
  let (a, b) := psi in
  match i with
  | QuantumCircuit.Hgate _ =>
      (Cscale (/ sqrt 2) (Cadd a b), Cscale (/ sqrt 2) (Cadd a (Cneg b)))
  | QuantumCircuit.Xgate _ => (b, a)
  | QuantumCircuit.Sgate _ => (a, Ctimes_i b)
  | QuantumCircuit.Sdggate _ => (a, Cneg (Ctimes_i b))
  | QuantumCircuit.Measure _ _ => (a, b)
  end.

Definition run_circuit (circ : QuantumCircuit.t) (psi : amplitudes) : amplitudes :=
  fold_left (fun psi i => apply_instruction i psi) (QuantumCircuit.data circ) psi.

(** The density matrix of a pure state. *)
Definition density (psi : amplitudes) : matrix :=
  let (a, b) := psi in
  [[multiply a (conjugate a); multiply a (conjugate b)];
   [multiply b (conjugate a); multiply b (conjugate b)]].

(** The probability of reading the bit [k] off the amplitudes. *)
Definition outcome_probability (k : bool) (psi : amplitudes) : R :=
  let amp := if k then snd psi else fst psi in
  real (multiply amp (conjugate amp)).

(** [<psi| m |psi>] for a two-by-two matrix. *)
Definition expectation (m : matrix) (psi : amplitudes) : complex :=
  let v := [fst psi; snd psi] in
  Csum (map (fun i => Csum (map (fun j =>
          multiply (conjugate (nth i v Czero)) (multiply (entry m i j) (nth j v Czero)))
        (seq 0 2))) (seq 0 2)).

(** An instruction acts on the qubit [q] and is no measurement. *)
Definition gate_on (q : bit) (i : QuantumCircuit.instruction) : Prop :=
  match i with
  | QuantumCircuit.Measure _ _ => False
  | QuantumCircuit.Hgate q' | QuantumCircuit.Xgate q'
  | QuantumCircuit.Sgate q' | QuantumCircuit.Sdggate q' => q' = q
  end.

(** ** Strings of digits *)

(** No character of the string is the separator. *)
Fixpoint free_of (sep : ascii) (s : string) : Prop :=
  match s with
  | EmptyString => True
  | String c s' => Ascii.eqb c sep = false /\ free_of sep s'
  end.

(** Every character of the string is a decimal digit. *)
Fixpoint all_digits (s : string) : Prop :=
  match s with
  | EmptyString => True
  | String c s' => is_Some (PyStr.digit_of c) /\ all_digits s'
  end.

(** ** Further fixtures and notions *)

(** A batch whose second circuit has no depth in its name. *)
Definition broken_batch : Result :=
  statevector_result
    [(scenario_name, scenario_qstate); ("qv_depth_x_trial_0", scenario_qstate)].

(** A list of reals in ascending order. *)
Fixpoint ascending (l : list R) : Prop :=
  match l with
  | [] => True
  | x :: l' => Forall (Rle x) l' /\ ascending l'
  end.

(** The statistics table has four rows, each with one entry per depth. *)
Definition ydata_shape (s : QVFitter) : Prop :=
  length (_ydata s) = 4%nat /\
  Forall (fun row => length row = length (_depths s)) (_ydata s).

(** The two ideal tables have the same names. *)
Definition ideal_tables_agree (s : QVFitter) : Prop :=
  forall n, is_Some (_heavy_outputs s !! n) <-> is_Some (_heavy_output_prob_ideal s !! n).

(** What a run of [add_statevectors] can have done to the fitter. *)
Definition only_added (s s' : QVFitter) : Prop :=
  s' = set_heavy_output_prob_ideal (_heavy_output_prob_ideal s')
         (set_heavy_outputs (_heavy_outputs s') s) /\
  (forall n strings, _heavy_outputs s !! n = Some strings ->
                     _heavy_outputs s' !! n = Some strings) /\
  (ideal_tables_agree s ->
   ideal_tables_agree s' /\
   forall n p, _heavy_output_prob_ideal s !! n = Some p ->
               _heavy_output_prob_ideal s' !! n = Some p).

(* ===================================================================== *)
(** * Properties *)
(* ===================================================================== *)

(** ** Reals and lists *)

Lemma Rgtb_true a b : Rgtb a b = true <-> a > b.
Proof. unfold Rgtb. destruct (Rlt_dec b a); split; intros; (lra || congruence). Qed.

Lemma Rgtb_false a b : Rgtb a b = false <-> a <= b.
Proof. unfold Rgtb. destruct (Rlt_dec b a); split; intros; (lra || congruence). Qed.

Lemma update_last_snoc {A} (f : A -> A) (l : list A) (x : A) :
  update_last f (l ++ [x]) = l ++ [f x].
Proof.
  induction l as [|y l IH]; [reflexivity|].
  cbn [app update_last]. rewrite IH.
  destruct (l ++ [x]) eqn:E; [|reflexivity].
  destruct l; discriminate.
Qed.

Lemma lookup_nth_lt {A} (l : list A) (i : nat) (d : A) :
  (i < length l)%nat -> l !! i = Some (nth i l d).
Proof. intros Hi. destruct (nth_lookup_or_length l i d); [assumption | lia]. Qed.

Lemma enumerate_from {A} (k : nat) (l : list A) :
  imap (fun i x => (k + i, x)%nat) l = zip (seq k (length l)) l.
Proof.
  revert k. induction l as [|x l IH]; intros k; [reflexivity|].
  cbn [imap length seq zip zip_with]. rewrite Nat.add_0_r. f_equal.
  rewrite <- (IH (S k)). apply imap_ext. intros i y _. cbn. f_equal. lia.
Qed.

Lemma enumerate_zip {A} (l : list A) : enumerate l = zip (seq 0 (length l)) l.
Proof. apply (enumerate_from 0). Qed.

(* ===================================================================== *)
(** ** The Pauli tables return a matrix for the listed labels only *)
(* ===================================================================== *)

Lemma eqb_cases (a b : string) : (String.eqb a b = true /\ a = b) \/ (String.eqb a b = false /\ a <> b).
Proof. destruct (String.eqb_spec a b); auto. Qed.

Lemma preparation_matrix_is_Some (label : string) :
  is_Some (pauli_preparation_matrix label) <-> label ∈ preparation_labels.
Proof.
  unfold pauli_preparation_matrix, preparation_labels.
  repeat match goal with
  | |- context [String.eqb label ?s] =>
      destruct (eqb_cases label s) as [[-> ->]|[-> ?]];
      [split; [intros _; set_solver | intros _; eexists; reflexivity]|]
  end.
  split; [intros [? ?]; discriminate | intros Hin].
  repeat (apply elem_of_cons in Hin as [?|Hin]; [congruence|]).
  by apply elem_of_nil in Hin.
Qed.

Lemma py_in_spec (x : pyval) (l : list pyval) : py_in x l = true <-> x ∈ l.
Proof.
  unfold py_in. induction l as [|y l IH]; cbn.
  - split; [discriminate | intros H; by apply elem_of_nil in H].
  - rewrite orb_true_iff, IH, elem_of_cons. apply or_iff_compat_r.
    destruct x, y; cbn; try (split; [discriminate|congruence]).
    + rewrite Z.eqb_eq. split; congruence.
    + rewrite String.eqb_eq. split; congruence.
Qed.

Lemma measurement_label_eqb (label : string) :
  label ∈ measurement_labels <->
  String.eqb label "X" = true \/ String.eqb label "Y" = true \/ String.eqb label "Z" = true.
Proof.
  unfold measurement_labels. rewrite !elem_of_cons, elem_of_nil, !String.eqb_eq. tauto.
Qed.

Lemma measurement_outcome_in (outcome : pyval) :
  outcome ∈ measurement_outcomes <->
  py_in outcome [PyString "0"; PyInt 0] = true \/ py_in outcome [PyString "1"; PyInt 1] = true.
Proof.
  unfold measurement_outcomes. rewrite !py_in_spec, !elem_of_cons, !elem_of_nil. tauto.
Qed.

Lemma eqb_X_Y_Z (label : string) :
  (String.eqb label "X" = true -> String.eqb label "Y" = false /\ String.eqb label "Z" = false) /\
  (String.eqb label "Y" = true -> String.eqb label "Z" = false).
Proof.
  split; intros E; apply String.eqb_eq in E; subst; auto.
Qed.

(** C8. [pauli_preparation_matrix] returns a matrix exactly for the six
    labels 'Xp', 'Xm', 'Yp', 'Ym', 'Zp', 'Zm', and [pauli_measurement_matrix]
    exactly for a label among 'X', 'Y', 'Z' together with an outcome among
    0, 1, '0', '1'; for every other label or outcome they return no value
    (Python's [None]), never a default matrix. *)
Theorem pauli_matrix_only_for_known_labels (label : string) (outcome : pyval) :
  (pauli_preparation_matrix label = None <-> label ∉ preparation_labels) /\
  (pauli_measurement_matrix label outcome = None <->
     ~ (label ∈ measurement_labels /\ outcome ∈ measurement_outcomes)).
Proof.
  split.
  - rewrite <- preparation_matrix_is_Some, eq_None_not_Some. reflexivity.
  - rewrite measurement_label_eqb, measurement_outcome_in.
    unfold pauli_measurement_matrix.
    destruct (eqb_X_Y_Z label) as [HX HY].
    destruct (py_in outcome [PyString "0"; PyInt 0]),
             (py_in outcome [PyString "1"; PyInt 1]),
             (String.eqb label "X"); cbn [andb];
      try (split; [discriminate | intros Hn; exfalso; apply Hn; auto]);
      destruct (String.eqb label "Y"); cbn [andb];
      try (split; [discriminate | intros Hn; exfalso; apply Hn; auto]);
      destruct (String.eqb label "Z"); cbn [andb];
      try (split; [discriminate | intros Hn; exfalso; apply Hn; auto]);
      (split; [intros _ [Hl Ho] | reflexivity]);
      intuition congruence.
Qed.

(** The table agrees with the docstring on 'Zp', and a measurement outcome
    is the projector of the corresponding eigenstate. *)
Example pauli_table_examples :
  pauli_preparation_matrix "Zp" = Some [[(1, 0); (0, 0)]; [(0, 0); (0, 0)]] /\
  pauli_measurement_matrix "X" (PyInt 0) = pauli_preparation_matrix "Xp" /\
  pauli_measurement_matrix "Y" (PyString "1") = pauli_preparation_matrix "Ym" /\
  pauli_preparation_matrix "zp" = None /\
  pauli_measurement_matrix "X" (PyInt 2) = None.
Proof. repeat split. Qed.

(* ===================================================================== *)
(** ** The success verdict *)
(* ===================================================================== *)

Ltac unfold_monad :=
  unfold orelse in *; unfold bind, gets, modify, ret, raise in *.

Lemma bind_Ok {A B} (m : M A) (k : A -> M B) (s s' : QVFitter) (a : A) :
  m s = (s', Ok a) -> bind m k s = k a s'.
Proof. intros H. unfold bind. rewrite H. reflexivity. Qed.

Lemma bind_Raise {A B} (m : M A) (k : A -> M B) (s s' : QVFitter) (e : exn) :
  m s = (s', Raise e) -> bind m k s = (s', Raise e).
Proof. intros H. unfold bind. rewrite H. reflexivity. Qed.

Lemma ydata_get_Some (s : QVFitter) (r c : nat) (y : list (list R))
    (row : list R) (v : R) :
  _ydata s = y -> y !! r = Some row -> row !! c = Some v ->
  ydata_get r c s = (s, Ok v).
Proof.
  intros Hy Hr Hc. unfold ydata_get. unfold_monad.
  rewrite Hy, Hr. cbn. rewrite Hc. reflexivity.
Qed.

Section SuccessVerdict.
Variable erf : R -> R.

Lemma confidence_as_computed (p sigma : R) :
  0.5 * (1 + erf ((p - 2 / 3) / (1e-10 + sigma) / sqrt 2)) = confidence erf p sigma.
Proof.
  unfold confidence. do 3 f_equal.
  unfold Rdiv. rewrite Rinv_mult, (Rplus_comm sigma). ring.
Qed.

Lemma qv_success_depth_verdict (s : QVFitter) (i : nat) (acc : list (bool * R))
    (row0 row1 : list R) (rest : list (list R)) (p sigma : R) :
  _ydata s = row0 :: row1 :: rest ->
  row0 !! i = Some p -> row1 !! i = Some sigma ->
  qv_success_depth erf i acc s = (s, Ok (acc ++ [verdict erf p sigma])).
Proof.
  intros Hy H0 H1. unfold qv_success_depth, verdict.
  rewrite (bind_Ok _ _ _ _ _ (ydata_get_Some s 0 i _ row0 p Hy eq_refl H0)).
  destruct (Rgtb p (2 / 3)); [|reflexivity].
  rewrite (bind_Ok _ _ _ _ _ (ydata_get_Some s 1 i _ row1 sigma Hy eq_refl H1)).
  rewrite confidence_as_computed, !update_last_snoc.
  destruct (Rgtb (confidence erf p sigma) 0.975); reflexivity.
Qed.

Lemma qv_success_loop (s : QVFitter) (row0 row1 : list R) (rest : list (list R))
    (depths : list Z) (k : nat) (acc : list (bool * R)) :
  _ydata s = row0 :: row1 :: rest ->
  (k + length depths <= length row0)%nat ->
  (k + length depths <= length row1)%nat ->
  for_with (zip (seq k (length depths)) depths) acc
    (fun '(depth_ind, _) success_list => qv_success_depth erf depth_ind success_list) s
  = (s, Ok (acc ++ map (fun i => verdict erf (nth i row0 0) (nth i row1 0))
                     (seq k (length depths)))).
Proof.
  intros Hy. revert k acc. induction depths as [|d depths IH]; intros k acc L0 L1.
  - cbn. rewrite app_nil_r. reflexivity.
  - cbn [length seq zip zip_with for_with map] in *. unfold bind at 1.
    rewrite (qv_success_depth_verdict s k acc row0 row1 rest
               (nth k row0 0) (nth k row1 0) Hy).
    + rewrite IH by lia. rewrite <- app_assoc. reflexivity.
    + apply lookup_nth_lt. lia.
    + apply lookup_nth_lt. lia.
Qed.

Lemma verdict_spec (p sigma : R) :
  (fst (verdict erf p sigma) = true <-> p > 2 / 3 /\ confidence erf p sigma > 0.975) /\
  (p > 2 / 3 -> snd (verdict erf p sigma) = confidence erf p sigma) /\
  (p <= 2 / 3 -> verdict erf p sigma = (false, 0)).
Proof.
  unfold verdict. destruct (Rgtb p (2 / 3)) eqn:E.
  - apply Rgtb_true in E. cbn. rewrite Rgtb_true. repeat split; try tauto. lra.
  - apply Rgtb_false in E. cbn.
    split; [split; [discriminate | intros [Hp _]; lra] | split; [intros; lra | reflexivity]].
Qed.

(** C1. Once the statistics table holds its first two rows for every
    depth, [qv_success] returns one pair per depth, and for the depth at
    index [i], with [p] the stored heavy-output probability and [sigma] its
    stored standard error: success is true exactly when [p > 2/3] and the
    confidence [0.5 * (1 + erf ((p - 2/3) / ((sigma + 1e-10) * sqrt 2)))]
    exceeds 0.975; the reported confidence is that value when [p > 2/3];
    and the pair is [(false, 0)] when [p <= 2/3]. *)
Theorem qv_success_is_verdict (s : QVFitter) (row0 row1 : list R)
    (rest : list (list R)) :
  _ydata s = row0 :: row1 :: rest ->
  (length (_depths s) <= length row0)%nat ->
  (length (_depths s) <= length row1)%nat ->
  exists l : list (bool * R),
    qv_success erf s = (s, Ok l) /\
    length l = length (_depths s) /\
    forall (i : nat) (p sigma : R),
      (i < length (_depths s))%nat ->
      row0 !! i = Some p -> row1 !! i = Some sigma ->
      exists (success : bool) (cfd : R),
        l !! i = Some (success, cfd) /\
        (success = true <-> p > 2 / 3 /\ confidence erf p sigma > 0.975) /\
        (p > 2 / 3 -> cfd = confidence erf p sigma) /\
        (p <= 2 / 3 -> (success, cfd) = (false, 0)).
Proof.
  intros Hy L0 L1.
  exists (map (fun i => verdict erf (nth i row0 0) (nth i row1 0))
              (seq 0 (length (_depths s)))).
  split; [|split].
  - unfold qv_success. unfold bind at 1, gets at 1.
    rewrite enumerate_zip.
    rewrite (qv_success_loop s row0 row1 rest (_depths s) 0 [] Hy) by lia.
    reflexivity.
  - rewrite length_map, length_seq. reflexivity.
  - intros i p sigma Hi H0 H1.
    exists (fst (verdict erf p sigma)), (snd (verdict erf p sigma)).
    split.
    + rewrite list_lookup_fmap, lookup_seq_lt by lia. cbn.
      rewrite (nth_lookup_Some _ _ 0 _ H0), (nth_lookup_Some _ _ 0 _ H1).
      destruct (verdict erf p sigma); reflexivity.
    + destruct (verdict_spec p sigma) as (Hs & Hc & Hf).
      repeat split; try apply Hs; auto.
      intros Hle. rewrite <- (Hf Hle). destruct (verdict erf p sigma); reflexivity.
Qed.
End SuccessVerdict.

(* ===================================================================== *)
(** ** Count aggregation: what [calc_data] writes *)
(* ===================================================================== *)

Lemma with_counts_id (s : QVFitter) :
  with_counts s (_circ_shots s) (_heavy_output_counts s) = s.
Proof. destruct s; reflexivity. Qed.

Lemma calc_data_circ_step (s : QVFitter) (shots hoc : gmap string Z)
    (depth trialidx : Z) (cc : gmap string (gmap string Z)) :
  let n := circ_name depth trialidx in
  let merged := merged_counts (_result_list s) n in
  calc_data_circ depth trialidx cc (with_counts s shots hoc) =
  match _heavy_outputs s !! n with
  | None => (with_counts s (<[n := sum_values merged]> shots) hoc, Raise (KeyError n))
  | Some strings =>
      (with_counts s (<[n := sum_values merged]> shots)
                     (<[n := _subset_probability strings merged]> hoc),
       Ok (<[n := merged]> cc))
  end.
Proof.
  intros n merged. unfold calc_data_circ. unfold_monad. cbn.
  fold n. fold (merged_counts (_result_list s) n). fold merged.
  rewrite lookup_insert_eq. cbn.
  destruct (_heavy_outputs s !! n) as [strings|]; reflexivity.
Qed.

Lemma calc_data_writes_app (rl : list Result) (heavy : gmap string (list string))
    (l1 l2 : list string) (shots hoc : gmap string Z) :
  calc_data_writes rl heavy (l1 ++ l2) shots hoc =
  match calc_data_writes rl heavy l1 shots hoc with
  | (shots', hoc', Ok _) => calc_data_writes rl heavy l2 shots' hoc'
  | r => r
  end.
Proof.
  revert shots hoc. induction l1 as [|n l1 IH]; intros shots hoc; [reflexivity|].
  cbn. destruct (heavy !! n); [apply IH | reflexivity].
Qed.

(** The loop over the depths of one trial. *)
Lemma calc_data_depths_loop (s : QVFitter) (trialidx : Z) (depths : list Z)
    (f : nat -> nat) (shots hoc : gmap string Z) (cc : gmap string (gmap string Z)) :
  exists cc',
    for_with (imap (fun i d => (f i, d)) depths) cc
      (fun '(_, depth) circ_counts => calc_data_circ depth trialidx circ_counts)
      (with_counts s shots hoc)
    = match calc_data_writes (_result_list s) (_heavy_outputs s)
              (map (fun depth => circ_name depth trialidx) depths) shots hoc with
      | (shots', hoc', Ok _) => (with_counts s shots' hoc', Ok cc')
      | (shots', hoc', Raise e) => (with_counts s shots' hoc', Raise e)
      end.
Proof.
  revert f shots hoc cc. induction depths as [|d depths IH]; intros f shots hoc cc.
  - exists cc. reflexivity.
  - cbn [imap map calc_data_writes for_with]. unfold bind at 1.
    rewrite calc_data_circ_step.
    destruct (_heavy_outputs s !! circ_name d trialidx) as [strings|].
    + apply (IH (f ∘ S)).
    + exists cc. reflexivity.
Qed.

(** The loop over the trials. *)
Lemma calc_data_trials_loop (s : QVFitter) (trials : list Z)
    (shots hoc : gmap string Z) (cc : gmap string (gmap string Z)) :
  exists cc',
    for_with trials cc
      (fun trialidx circ_counts =>
         depths <- gets _depths ;;
         for_with (enumerate depths) circ_counts
           (fun '(_, depth) circ_counts => calc_data_circ depth trialidx circ_counts))
      (with_counts s shots hoc)
    = match calc_data_writes (_result_list s) (_heavy_outputs s)
              (flat_map (fun trialidx =>
                           map (fun depth => circ_name depth trialidx) (_depths s))
                        trials) shots hoc with
      | (shots', hoc', Ok _) => (with_counts s shots' hoc', Ok cc')
      | (shots', hoc', Raise e) => (with_counts s shots' hoc', Raise e)
      end.
Proof.
  revert shots hoc cc. induction trials as [|t trials IH]; intros shots hoc cc.
  - exists cc. reflexivity.
  - cbn [flat_map for_with]. rewrite calc_data_writes_app.
    unfold bind at 1. unfold bind at 1, gets at 1. cbn [_depths with_counts
      set_heavy_output_counts set_circ_shots].
    destruct (calc_data_depths_loop s t (_depths s) (fun i => i) shots hoc cc) as [cc1 E].
    unfold enumerate. change (@pair nat Z) with (fun (i : nat) (d : Z) => (i, d)).
    rewrite E.
    destruct (calc_data_writes (_result_list s) (_heavy_outputs s)
                (map (fun depth => circ_name depth t) (_depths s)) shots hoc)
      as [[shots1 hoc1] [[]|e]].
    + apply IH.
    + exists cc. reflexivity.
Qed.

(** [calc_data] changes the two count tables only, as [calc_data_writes]
    says. *)
Lemma calc_data_spec (s : QVFitter) :
  calc_data s =
  match calc_data_writes (_result_list s) (_heavy_outputs s)
          (visited_names (_ntrials s) (_depths s))
          (_circ_shots s) (_heavy_output_counts s) with
  | (shots', hoc', r) => (with_counts s shots' hoc', r)
  end.
Proof.
  unfold calc_data, visited_names. unfold bind at 1, gets at 1.
  unfold bind at 1.
  destruct (calc_data_trials_loop s (range (_ntrials s))
              (_circ_shots s) (_heavy_output_counts s) ∅) as [cc E].
  rewrite with_counts_id in E. rewrite E.
  destruct (calc_data_writes _ _ _ _ _) as [[shots1 hoc1] [[]|e]]; reflexivity.
Qed.

Section Writes.
Variable rl : list Result.
Variable heavy : gmap string (list string).

(** A value once written for a name is never replaced by another one. *)
Lemma calc_data_writes_keeps (names : list string) (shots hoc shots' hoc' : gmap string Z)
    (r : outcome unit) (k : string) :
  calc_data_writes rl heavy names shots hoc = (shots', hoc', r) ->
  (shots !! k = Some (shots_of rl k) -> shots' !! k = Some (shots_of rl k)) /\
  (forall strings, heavy !! k = Some strings ->
     hoc !! k = Some (hoc_of rl k strings) -> hoc' !! k = Some (hoc_of rl k strings)).
Proof.
  revert shots hoc. induction names as [|n names IH]; intros shots hoc E.
  - cbn in E. injection E as <- <- <-. auto.
  - cbn in E. destruct (heavy !! n) as [strings|] eqn:Hn.
    + apply IH in E as [E1 E2]. split.
      * intros Hk. apply E1. destruct (decide (n = k)) as [->|Hne].
        -- apply lookup_insert_eq.
        -- rewrite lookup_insert_ne by assumption. assumption.
      * intros strings' Hs Hk. apply (E2 strings' Hs).
        destruct (decide (n = k)) as [->|Hne].
        -- rewrite lookup_insert_eq. rewrite Hn in Hs. injection Hs as ->. reflexivity.
        -- rewrite lookup_insert_ne by assumption. assumption.
    + injection E as <- <- <-. split; [|auto].
      intros Hk. destruct (decide (n = k)) as [->|Hne].
      * apply lookup_insert_eq.
      * rewrite lookup_insert_ne by assumption. assumption.
Qed.

(** Names that are not visited keep their entries. *)
Lemma calc_data_writes_others (names : list string) (shots hoc shots' hoc' : gmap string Z)
    (r : outcome unit) (k : string) :
  calc_data_writes rl heavy names shots hoc = (shots', hoc', r) ->
  k ∉ names -> shots' !! k = shots !! k /\ hoc' !! k = hoc !! k.
Proof.
  revert shots hoc. induction names as [|n names IH]; intros shots hoc E Hk.
  - cbn in E. injection E as <- <- <-. auto.
  - apply not_elem_of_cons in Hk as [Hne Hk].
    cbn in E. destruct (heavy !! n) as [strings|].
    + apply IH in E as [E1 E2]; [|assumption].
      rewrite E1, E2, !lookup_insert_ne by congruence. auto.
    + injection E as <- <- <-. rewrite lookup_insert_ne by congruence. auto.
Qed.

(** The loop ends normally exactly when every visited name has a heavy
    set; otherwise it raises the [KeyError] of a visited name without one. *)
Lemma calc_data_writes_outcome (names : list string) (shots hoc : gmap string Z) :
  match calc_data_writes rl heavy names shots hoc with
  | (_, _, Ok _) => forall n, n ∈ names -> is_Some (heavy !! n)
  | (_, _, Raise e) => exists n, e = KeyError n /\ n ∈ names /\ heavy !! n = None
  end.
Proof.
  revert shots hoc. induction names as [|n names IH]; intros shots hoc.
  - cbn. intros n Hn. by apply elem_of_nil in Hn.
  - cbn. destruct (heavy !! n) as [strings|] eqn:Hn.
    + specialize (IH (<[n := sum_values (merged_counts rl n)]> shots)
                     (<[n := _subset_probability strings (merged_counts rl n)]> hoc)).
      destruct (calc_data_writes _ _ _ _ _) as [[shots' hoc'] [[]|e]].
      * intros k Hk. apply elem_of_cons in Hk as [->|Hk]; [rewrite Hn; eauto | auto].
      * destruct IH as (k & -> & Hk & Hnone). exists k. split; [reflexivity|].
        split; [by apply list_elem_of_further | assumption].
    + exists n. split; [reflexivity|]. split; [apply list_elem_of_here | assumption].
Qed.

Lemma calc_data_writes_Ok (names : list string) (shots hoc : gmap string Z) :
  (forall n, n ∈ names -> is_Some (heavy !! n)) ->
  exists shots' hoc', calc_data_writes rl heavy names shots hoc = (shots', hoc', Ok tt).
Proof.
  intros Hall. pose proof (calc_data_writes_outcome names shots hoc) as Ho.
  destruct (calc_data_writes _ _ _ _ _) as [[shots' hoc'] [[]|e]]; [eauto|].
  destruct Ho as (n & _ & Hn & Hnone). apply Hall in Hn as [? Hn]. congruence.
Qed.

(** After a normal end every visited name holds its total shots and its
    heavy-output count. *)
Lemma calc_data_writes_lookup (names : list string) (shots hoc shots' hoc' : gmap string Z)
    (n : string) :
  calc_data_writes rl heavy names shots hoc = (shots', hoc', Ok tt) ->
  n ∈ names ->
  shots' !! n = Some (shots_of rl n) /\
  exists strings, heavy !! n = Some strings /\ hoc' !! n = Some (hoc_of rl n strings).
Proof.
  revert shots hoc. induction names as [|m names IH]; intros shots hoc E Hn.
  - by apply elem_of_nil in Hn.
  - cbn in E. destruct (heavy !! m) as [strings|] eqn:Hm; [|discriminate].
    destruct (decide (n = m)) as [->|Hne].
    + destruct (calc_data_writes_keeps _ _ _ _ _ _ m E) as [K1 K2]. split.
      * apply K1, lookup_insert_eq.
      * exists strings. split; [assumption|]. apply (K2 strings Hm), lookup_insert_eq.
    + apply elem_of_cons in Hn as [?|Hn]; [congruence|]. eapply IH; eassumption.
Qed.

Lemma calc_data_writes_settles (names : list string) (shots hoc shots' hoc' : gmap string Z)
    (r : outcome unit) :
  calc_data_writes rl heavy names shots hoc = (shots', hoc', r) ->
  settled rl heavy names shots' hoc'.
Proof.
  revert shots hoc. induction names as [|n names IH]; intros shots hoc E; [exact I|].
  cbn in *. destruct (heavy !! n) as [strings|] eqn:Hn.
  - destruct (calc_data_writes_keeps _ _ _ _ _ _ n E) as [K1 K2].
    split; [apply K1, lookup_insert_eq|].
    split; [apply (K2 strings Hn), lookup_insert_eq | eapply IH; eassumption].
  - injection E as <- <- <-. split; [apply lookup_insert_eq | exact I].
Qed.

Lemma calc_data_writes_on_settled (names : list string) (shots hoc : gmap string Z) :
  settled rl heavy names shots hoc ->
  forall shots0 hoc0 shots1 hoc1 r,
    calc_data_writes rl heavy names shots0 hoc0 = (shots1, hoc1, r) ->
    calc_data_writes rl heavy names shots hoc = (shots, hoc, r).
Proof.
  induction names as [|n names IH]; intros Hs shots0 hoc0 shots1 hoc1 r E.
  - cbn in *. injection E as <- <- <-. reflexivity.
  - cbn in *. destruct Hs as [Hsh Hs]. rewrite (insert_id _ _ _ Hsh).
    destruct (heavy !! n) as [strings|].
    + destruct Hs as [Hh Hs]. rewrite (insert_id _ _ _ Hh). eapply IH; eassumption.
    + injection E as <- <- <-. reflexivity.
Qed.

(** Running the loop again on its own result changes nothing. *)
Lemma calc_data_writes_idempotent (names : list string) (shots hoc shots' hoc' : gmap string Z)
    (r : outcome unit) :
  calc_data_writes rl heavy names shots hoc = (shots', hoc', r) ->
  calc_data_writes rl heavy names shots' hoc' = (shots', hoc', r).
Proof.
  intros E. eapply calc_data_writes_on_settled; [|exact E].
  eapply calc_data_writes_settles. exact E.
Qed.
End Writes.

Lemma elem_of_visited_names (ntrials : Z) (depths : list Z) (n : string) :
  n ∈ visited_names ntrials depths <->
  exists depth trialidx,
    n = circ_name depth trialidx /\ depth ∈ depths /\ (0 <= trialidx < ntrials)%Z.
Proof.
  unfold visited_names, range. rewrite list_elem_of_In, in_flat_map. split.
  - intros (t & Ht & Hn). apply list_elem_of_In, elem_of_seqZ in Ht.
    apply in_map_iff in Hn as (d & <- & Hd). apply list_elem_of_In in Hd.
    exists d, t. split; [reflexivity|]. split; [assumption | lia].
  - intros (d & t & -> & Hd & Ht). exists t. split.
    + apply list_elem_of_In, elem_of_seqZ. lia.
    + apply in_map_iff. exists d. split; [reflexivity | by apply list_elem_of_In].
Qed.

(* ===================================================================== *)
(** ** Merging the counts of the batches *)
(* ===================================================================== *)

Lemma py_sum_Z_from (l : list Z) (a : Z) : fold_left Z.add l a = (a + Zsum l)%Z.
Proof.
  revert a. induction l as [|x l IH]; intros a; cbn; [lia|].
  rewrite IH. unfold Zsum. lia.
Qed.

Lemma py_sum_Z (l : list Z) : py_sum l = Zsum l.
Proof. unfold py_sum. cbn. apply py_sum_Z_from. Qed.

Lemma count_list_of_from (rl : list Result) (name : string) (acc : list (gmap string Z)) :
  fold_left (fun count_list result =>
               match get_counts result name with
               | Some c => count_list ++ [c]
               | None => count_list
               end) rl acc
  = acc ++ omap (fun r => get_counts r name) rl.
Proof.
  revert acc. induction rl as [|r rl IH]; intros acc; cbn.
  - by rewrite app_nil_r.
  - rewrite IH. destruct (get_counts r name); [|reflexivity].
    by rewrite <- app_assoc.
Qed.

(** The count list holds the counts of the batches that have some for the
    instance, in the order of the batches; the other batches are skipped. *)
Lemma count_list_of_omap (rl : list Result) (name : string) :
  count_list_of rl name = omap (fun r => get_counts r name) rl.
Proof. apply (count_list_of_from rl name []). Qed.

Lemma build_counts_lookup_from (cl : list (gmap string Z)) (acc : gmap string Z) (x : string) :
  fold_left (union_with (fun a b => Some (a + b)%Z)) cl acc !! x =
  match acc !! x, omap (fun c : gmap string Z => c !! x) cl with
  | None, [] => None
  | None, vs => Some (Zsum vs)
  | Some a, vs => Some (a + Zsum vs)%Z
  end.
Proof.
  revert acc. induction cl as [|c cl IH]; intros acc.
  - cbn. destruct (acc !! x); [f_equal; lia | reflexivity].
  - cbn [fold_left]. rewrite IH, lookup_union_with. clear IH.
    assert (Ho : omap (fun c : gmap string Z => c !! x) (c :: cl) =
                 match c !! x with
                 | Some y => y :: omap (fun c : gmap string Z => c !! x) cl
                 | None => omap (fun c : gmap string Z => c !! x) cl
                 end) by reflexivity.
    rewrite Ho. clear Ho.
    destruct (acc !! x) as [a|], (c !! x) as [b|];
      cbn [union_with option_union_with]; unfold Zsum; cbn [fold_right];
      try reflexivity; f_equal; lia.
Qed.

(** A bitstring is in the merged counts when some batch has it, with the sum
    of its counts over those batches. *)
Lemma merged_counts_lookup (rl : list Result) (name x : string) :
  merged_counts rl name !! x =
  match omap (batch_count name x) rl with
  | [] => None
  | vs => Some (Zsum vs)
  end.
Proof.
  unfold merged_counts, build_counts_dict_from_list.
  rewrite build_counts_lookup_from, lookup_empty, count_list_of_omap.
  replace (omap (fun c : gmap string Z => c !! x) (omap (fun r => get_counts r name) rl))
    with (omap (batch_count name x) rl); [reflexivity|].
  induction rl as [|r rl IH]; [reflexivity|].
  cbn. unfold batch_count at 1. destruct (get_counts r name) as [c|]; cbn; [|exact IH].
  destruct (c !! x); [f_equal|]; exact IH.
Qed.

Lemma merged_counts_no_batch (rl : list Result) (name : string) :
  (forall r, r ∈ rl -> get_counts r name = None) -> merged_counts rl name = ∅.
Proof.
  intros Hnone. unfold merged_counts. rewrite count_list_of_omap.
  replace (omap (fun r => get_counts r name) rl) with (@nil (gmap string Z)); [reflexivity|].
  induction rl as [|r rl IH]; [reflexivity|].
  cbn. rewrite (Hnone r) by apply list_elem_of_here.
  apply IH. intros r' Hr'. apply Hnone. by apply list_elem_of_further.
Qed.

Lemma subset_probability_empty (strings : list string) :
  _subset_probability strings (∅ : gmap string Z) = 0%Z.
Proof.
  unfold _subset_probability. rewrite py_sum_Z.
  induction strings as [|x strings IH]; [reflexivity|].
  cbn in *. rewrite lookup_empty. cbn. exact IH.
Qed.

Lemma calc_data_Ok (s : QVFitter) :
  (forall depth trialidx, depth ∈ _depths s -> (0 <= trialidx < _ntrials s)%Z ->
     is_Some (_heavy_outputs s !! circ_name depth trialidx)) ->
  exists shots' hoc',
    calc_data_writes (_result_list s) (_heavy_outputs s)
      (visited_names (_ntrials s) (_depths s)) (_circ_shots s) (_heavy_output_counts s)
    = (shots', hoc', Ok tt) /\
    calc_data s = (with_counts s shots' hoc', Ok tt).
Proof.
  intros Hreg.
  destruct (calc_data_writes_Ok (_result_list s) (_heavy_outputs s)
              (visited_names (_ntrials s) (_depths s))
              (_circ_shots s) (_heavy_output_counts s)) as (shots' & hoc' & E).
  - intros n Hn. apply elem_of_visited_names in Hn as (d & t & -> & Hd & Ht). auto.
  - exists shots', hoc'. split; [exact E|]. rewrite calc_data_spec, E. reflexivity.
Qed.

(** C4. When every visited circuit instance has a heavy set, [calc_data]
    ends normally and, for each depth of the depth list and each trial index
    below the trial count, has merged the counts of that instance over all
    stored batches: a bitstring of the merged counts carries the sum of its
    counts over the batches that have it, a batch without counts for the
    instance adds nothing, the stored shots are the sum of the merged counts
    and the stored heavy-output count is the sum of the merged counts of the
    heavy strings.  In particular the batches {"00":3} and {"00":2,"01":1}
    merge to {"00":5,"01":1}, also with a batch in between that has no counts
    for the instance. *)
Theorem calc_data_merges_batches :
  (forall (s : QVFitter) (depth trialidx : Z),
     (forall d t, d ∈ _depths s -> (0 <= t < _ntrials s)%Z ->
        is_Some (_heavy_outputs s !! circ_name d t)) ->
     depth ∈ _depths s -> (0 <= trialidx < _ntrials s)%Z ->
     exists (s' : QVFitter) (merged : gmap string Z) (strings : list string),
       calc_data s = (s', Ok tt) /\
       (forall x, merged !! x =
                  match omap (batch_count (circ_name depth trialidx) x) (_result_list s) with
                  | [] => None
                  | vs => Some (Zsum vs)
                  end) /\
       _heavy_outputs s !! circ_name depth trialidx = Some strings /\
       _circ_shots s' !! circ_name depth trialidx = Some (sum_values merged) /\
       _heavy_output_counts s' !! circ_name depth trialidx
         = Some (Zsum (map (fun x => default 0%Z (merged !! x)) strings))) /\
  merged_counts
    [counts_result [("qv_depth_2_trial_0", {["00" := 3%Z]})];
     counts_result [("qv_depth_2_trial_1", {["11" := 7%Z]})];
     counts_result [("qv_depth_2_trial_0", <["00" := 2%Z]> {["01" := 1%Z]})]]
    "qv_depth_2_trial_0"
  = <["00" := 5%Z]> {["01" := 1%Z]}.
Proof.
  split; [|reflexivity].
  intros s depth trialidx Hreg Hd Ht.
  destruct (calc_data_Ok s Hreg) as (shots' & hoc' & E & Ec).
  destruct (calc_data_writes_lookup _ _ _ _ _ _ _ (circ_name depth trialidx) E)
    as (Hs & strings & Hh & Hc).
  { apply elem_of_visited_names. eauto. }
  unfold shots_of in Hs. unfold hoc_of in Hc.
  exists (with_counts s shots' hoc'),
         (merged_counts (_result_list s) (circ_name depth trialidx)), strings.
  split; [exact Ec|]. split; [intros x; apply merged_counts_lookup|].
  split; [exact Hh|]. split; [exact Hs|].
  cbn. rewrite Hc. unfold _subset_probability. rewrite py_sum_Z. reflexivity.
Qed.

(* ===================================================================== *)
(** ** Which heavy sets [calc_data] looks up *)
(* ===================================================================== *)

(** C10. [calc_data] looks up the heavy set of every pair of a depth of the
    depth list and a trial index below the trial count, whether or not a
    batch has counts for it: it ends normally exactly when each such pair
    has a heavy set, otherwise it raises the [KeyError] of such a pair
    without one; and after a normal end a pair for which no batch has
    counts holds zero shots and a zero heavy-output count. *)
Theorem calc_data_needs_every_heavy_set (s : QVFitter) :
  ((exists s', calc_data s = (s', Ok tt)) <->
   (forall depth trialidx, depth ∈ _depths s -> (0 <= trialidx < _ntrials s)%Z ->
      is_Some (_heavy_outputs s !! circ_name depth trialidx))) /\
  (forall s' e, calc_data s = (s', Raise e) ->
     exists depth trialidx,
       depth ∈ _depths s /\ (0 <= trialidx < _ntrials s)%Z /\
       e = KeyError (circ_name depth trialidx) /\
       _heavy_outputs s !! circ_name depth trialidx = None) /\
  (forall s' depth trialidx,
     calc_data s = (s', Ok tt) ->
     depth ∈ _depths s -> (0 <= trialidx < _ntrials s)%Z ->
     (forall r, r ∈ _result_list s -> get_counts r (circ_name depth trialidx) = None) ->
     _circ_shots s' !! circ_name depth trialidx = Some 0%Z /\
     _heavy_output_counts s' !! circ_name depth trialidx = Some 0%Z).
Proof.
  pose proof (calc_data_writes_outcome (_result_list s) (_heavy_outputs s)
                (visited_names (_ntrials s) (_depths s))
                (_circ_shots s) (_heavy_output_counts s)) as Ho.
  pose proof (calc_data_spec s) as Hs.
  destruct (calc_data_writes (_result_list s) (_heavy_outputs s)
              (visited_names (_ntrials s) (_depths s))
              (_circ_shots s) (_heavy_output_counts s))
    as [[shots' hoc'] [[]|e]] eqn:E.
  - split; [|split].
    + split; [|eauto]. intros _ depth trialidx Hd Ht.
      apply Ho, elem_of_visited_names. eauto.
    + intros s' e He. rewrite Hs in He. discriminate.
    + intros s' depth trialidx Hc Hd Ht Hnone.
      rewrite Hs in Hc. injection Hc as <-.
      destruct (calc_data_writes_lookup _ _ _ _ _ _ _ (circ_name depth trialidx) E)
        as (Hsh & strings & _ & Hh).
      { apply elem_of_visited_names. eauto. }
      unfold shots_of in Hsh. unfold hoc_of in Hh.
      rewrite (merged_counts_no_batch _ _ Hnone) in Hsh, Hh.
      rewrite subset_probability_empty in Hh. cbn. auto.
  - destruct Ho as (n & -> & Hn & Hnone).
    apply elem_of_visited_names in Hn as (d & t & -> & Hd & Ht).
    split; [|split].
    + split.
      * intros [s' Hc]. rewrite Hs in Hc. discriminate.
      * intros Hall. destruct (Hall d t Hd Ht) as [x Hx]. congruence.
    + intros s' e He. rewrite Hs in He. injection He as <- <-. eauto 10.
    + intros s' depth trialidx Hc. rewrite Hs in Hc. discriminate.
Qed.

(* ===================================================================== *)
(** ** Statistical aggregation: what [calc_statistics] computes *)
(* ===================================================================== *)

Lemma range_seq (n : Z) : range n = map Z.of_nat (seq 0 (Z.to_nat n)).
Proof.
  unfold range, seqZ. apply map_ext. intros i. lia.
Qed.

Lemma Rsum_IZR (l : list Z) : Rsum (map IZR l) = IZR (Zsum l).
Proof.
  induction l as [|x l IH]; [reflexivity|].
  change (IZR x + Rsum (map IZR l) = IZR (x + Zsum l)).
  rewrite IH, plus_IZR. reflexivity.
Qed.

Lemma calc_statistics_trial_step (s : QVFitter) (depth : Z) (t : nat)
    (ev : list R) (es : Z) (iv : list R) :
  tabulated s depth t -> (t < length ev)%nat -> (t < length iv)%nat ->
  calc_statistics_trial depth (Z.of_nat t) (ev, es, iv) s =
  (s, Ok (<[t := IZR (counts_at s depth t)]> ev,
          (es + shots_at s depth t)%Z,
          <[t := ideal_at s depth t]> iv)).
Proof.
  intros ([c Hc] & [n Hn] & [p Hp]) Hev Hiv.
  unfold calc_statistics_trial, array_set, counts_at, shots_at, ideal_at.
  unfold_monad. rewrite Hc. cbn.
  destruct (decide (0 <= Z.of_nat t < Z.of_nat (length ev))%Z); [|lia].
  rewrite Hn, Hp. cbn.
  destruct (decide (0 <= Z.of_nat t < Z.of_nat (length iv))%Z); [|lia].
  rewrite Nat2Z.id. reflexivity.
Qed.

(** The loop over the trials fills both arrays from index [k] on and adds
    up the shots. *)
Lemma calc_statistics_trials_loop (s : QVFitter) (depth : Z) (m k : nat)
    (ev : list R) (es : Z) (iv : list R) :
  (forall t, (k <= t < k + m)%nat -> tabulated s depth t) ->
  (k + m <= length ev)%nat -> (k + m <= length iv)%nat ->
  for_with (map Z.of_nat (seq k m)) (ev, es, iv)
    (fun trialidx loc => calc_statistics_trial depth trialidx loc) s =
  (s, Ok (take k ev ++ map (fun t => IZR (counts_at s depth t)) (seq k m) ++ drop (k + m) ev,
          (es + Zsum (map (shots_at s depth) (seq k m)))%Z,
          take k iv ++ map (ideal_at s depth) (seq k m) ++ drop (k + m) iv)).
Proof.
  revert k ev es iv. induction m as [|m IH]; intros k ev es iv Htab Hev Hiv.
  - cbn [seq map for_with app Zsum fold_right]. unfold ret.
    rewrite Nat.add_0_r, !take_drop, Z.add_0_r. reflexivity.
  - cbn [seq map for_with].
    rewrite (bind_Ok _ _ _ _ _ (calc_statistics_trial_step s depth k ev es iv
                                  (Htab k ltac:(lia)) ltac:(lia) ltac:(lia))).
    rewrite IH; [|intros t Ht; apply Htab; lia|rewrite length_insert; lia..].
    rewrite !take_S_r with (x := IZR (counts_at s depth k))
      by (apply list_lookup_insert_eq; lia).
    rewrite (take_S_r (<[k := ideal_at s depth k]> iv) k (ideal_at s depth k))
      by (apply list_lookup_insert_eq; lia).
    rewrite !take_insert_ge, !drop_insert_lt by lia.
    rewrite <- !app_assoc. cbn [app Zsum fold_right].
    replace (k + S m)%nat with (S k + m)%nat by lia.
    unfold Zsum. rewrite <- Z.add_assoc. reflexivity.
Qed.

Lemma ydata_set_Some (s : QVFitter) (r c : nat) (y : list (list R))
    (row : list R) (v : R) :
  _ydata s = y -> y !! r = Some row -> (c < length row)%nat ->
  ydata_set r c v s = (set_ydata (<[r := <[c := v]> row]> y) s, Ok tt).
Proof.
  intros Hy Hr Hc. unfold ydata_set. unfold_monad.
  rewrite Hy, Hr. cbn [orelse]. rewrite decide_True by assumption. reflexivity.
Qed.

Lemma bind_gets {A B} (f : QVFitter -> A) (k : A -> M B) (s : QVFitter) :
  bind (gets f) k s = k (f s) s.
Proof. reflexivity. Qed.

Lemma ydata_set_at (s : QVFitter) (y : list (list R)) (r c : nat) (v : R) (row : list R) :
  y !! r = Some row -> (c < length row)%nat ->
  ydata_set r c v (set_ydata y s) = (set_ydata (<[r := <[c := v]> row]> y) s, Ok tt).
Proof. intros Hr Hc. apply (ydata_set_Some (set_ydata y s) r c y row v eq_refl Hr Hc). Qed.

Lemma ydata_get_at (s : QVFitter) (y : list (list R)) (r c : nat) (v : R) (row : list R) :
  y !! r = Some row -> row !! c = Some v ->
  ydata_get r c (set_ydata y s) = (set_ydata y s, Ok v).
Proof. intros Hr Hc. apply (ydata_get_Some (set_ydata y s) r c y row v eq_refl Hr Hc). Qed.

Lemma calc_statistics_depth_step (s : QVFitter) (i : nat) (depth : Z)
    (ev iv r0 r1 r2 r3 : list R) :
  (0 <= _ntrials s)%Z ->
  (forall t, (t < Z.to_nat (_ntrials s))%nat -> tabulated s depth t) ->
  length ev = Z.to_nat (_ntrials s) -> length iv = Z.to_nat (_ntrials s) ->
  (i < length r0)%nat -> (i < length r1)%nat -> (i < length r2)%nat -> (i < length r3)%nat ->
  calc_statistics_depth i depth (ev, iv) (set_ydata [r0; r1; r2; r3] s) =
  (set_ydata [<[i := p_hat s depth]> r0; <[i := p_hat_err s depth]> r1;
              <[i := p_ideal s depth]> r2; <[i := p_ideal_err s depth]> r3] s,
   Ok (map (fun t => IZR (counts_at s depth t)) (seq 0 (Z.to_nat (_ntrials s))),
       map (ideal_at s depth) (seq 0 (Z.to_nat (_ntrials s))))).
Proof.
  intros HN Htab Hev Hiv H0 H1 H2 H3.
  unfold calc_statistics_depth. rewrite bind_gets.
  change (_ntrials (set_ydata [r0; r1; r2; r3] s)) with (_ntrials s).
  rewrite range_seq.
  rewrite (bind_Ok _ _ _ _ _
             (calc_statistics_trials_loop (set_ydata [r0; r1; r2; r3] s) depth
                (Z.to_nat (_ntrials s)) 0 ev 0%Z iv
                (fun t Ht => Htab t ltac:(lia)) ltac:(lia) ltac:(lia))).
  cbn [take app Nat.add]. rewrite !drop_ge, !app_nil_r by lia.
  cbv beta iota.
  do 4 (repeat first
    [ rewrite bind_gets; change (_ntrials (set_ydata _ s)) with (_ntrials s)
    | erewrite bind_Ok;
      [|first [ apply ydata_set_at; [reflexivity | assumption]
              | eapply ydata_get_at;
                [reflexivity | apply list_lookup_insert_eq; assumption] ]];
      cbn [list_insert insert] ]).
  change (counts_at (set_ydata [r0; r1; r2; r3] s)) with (counts_at s).
  change (shots_at (set_ydata [r0; r1; r2; r3] s)) with (shots_at s).
  change (ideal_at (set_ydata [r0; r1; r2; r3] s)) with (ideal_at s).
  rewrite !take_0, !app_nil_l, Z.add_0_l.
  replace (Rsum (map (fun t => IZR (counts_at s depth t)) (seq 0 (Z.to_nat (_ntrials s)))))
    with (IZR (Zsum (map (counts_at s depth) (seq 0 (Z.to_nat (_ntrials s))))))
    by (rewrite <- Rsum_IZR, map_map; reflexivity).
  replace (Np.mean (map (ideal_at s depth) (seq 0 (Z.to_nat (_ntrials s)))))
    with (p_ideal s depth)
    by (unfold Np.mean, p_ideal; rewrite length_map, length_seq, INR_IZR_INZ, Z2Nat.id by lia;
        reflexivity).
  reflexivity.
Qed.

Lemma np_zeros_Ok (s : QVFitter) (n : Z) :
  (0 <= n)%Z -> np_zeros n s = (s, Ok (replicate (Z.to_nat n) 0)).
Proof.
  intros Hn. unfold np_zeros. destruct (Z.ltb_spec n 0); [lia | reflexivity].
Qed.

(** The loop over the depths fills column [k + j] of the four rows with the
    four values of the [j]-th remaining depth and leaves the columns before
    [k] alone. *)
Lemma calc_statistics_depths_loop (s : QVFitter) (ds : list Z) :
  (0 <= _ntrials s)%Z ->
  (forall d t, d ∈ ds -> (t < Z.to_nat (_ntrials s))%nat -> tabulated s d t) ->
  forall (k : nat) (ev iv r0 r1 r2 r3 : list R),
  length ev = Z.to_nat (_ntrials s) -> length iv = Z.to_nat (_ntrials s) ->
  (k + length ds <= length r0)%nat -> (k + length ds <= length r1)%nat ->
  (k + length ds <= length r2)%nat -> (k + length ds <= length r3)%nat ->
  exists ev' iv' r0' r1' r2' r3',
    for_with (zip (seq k (length ds)) ds) (ev, iv)
      (fun '(depthidx, depth) arrays => calc_statistics_depth depthidx depth arrays)
      (set_ydata [r0; r1; r2; r3] s)
    = (set_ydata [r0'; r1'; r2'; r3'] s, Ok (ev', iv')) /\
    (length r0' = length r0 /\ length r1' = length r1 /\
     length r2' = length r2 /\ length r3' = length r3) /\
    (forall j, (j < k)%nat ->
       r0' !! j = r0 !! j /\ r1' !! j = r1 !! j /\
       r2' !! j = r2 !! j /\ r3' !! j = r3 !! j) /\
    (forall j d, ds !! j = Some d ->
       r0' !! (k + j)%nat = Some (p_hat s d) /\
       r1' !! (k + j)%nat = Some (p_hat_err s d) /\
       r2' !! (k + j)%nat = Some (p_ideal s d) /\
       r3' !! (k + j)%nat = Some (p_ideal_err s d)).
Proof.
  intros HN. induction ds as [|d ds IH]; intros Htab k ev iv r0 r1 r2 r3 Hev Hiv L0 L1 L2 L3.
  - exists ev, iv, r0, r1, r2, r3. cbn. repeat split; intros; discriminate.
  - cbn [length seq zip zip_with for_with] in *.
    erewrite bind_Ok;
      [|apply calc_statistics_depth_step; try assumption; try lia;
        intros t Ht; apply Htab; [apply list_elem_of_here | assumption]].
    destruct (IH (fun d' t Hd' => Htab d' t (list_elem_of_further _ _ _ Hd'))
                 (S k)
                 (map (fun t => IZR (counts_at s d t)) (seq 0 (Z.to_nat (_ntrials s))))
                 (map (ideal_at s d) (seq 0 (Z.to_nat (_ntrials s))))
                 (<[k := p_hat s d]> r0) (<[k := p_hat_err s d]> r1)
                 (<[k := p_ideal s d]> r2) (<[k := p_ideal_err s d]> r3))
      as (ev' & iv' & r0' & r1' & r2' & r3' & E & Hlen & Hold & Hnew);
      rewrite ?length_map, ?length_seq, ?length_insert; try lia.
    exists ev', iv', r0', r1', r2', r3'. split; [exact E|].
    rewrite !length_insert in Hlen. split; [exact Hlen|]. split.
    + intros j Hj. destruct (Hold j ltac:(lia)) as (-> & -> & -> & ->).
      rewrite !list_lookup_insert_ne by lia. auto.
    + intros [|j] d' Hd'.
      * cbn in Hd'. injection Hd' as <-. rewrite Nat.add_0_r.
        destruct (Hold k ltac:(lia)) as (-> & -> & -> & ->).
        rewrite !list_lookup_insert_eq by lia. auto.
      * replace (k + S j)%nat with (S k + j)%nat by lia. apply Hnew. exact Hd'.
Qed.

(** C3. With a trial count [N >= 0] and the three per-instance tables filled
    for every depth of the depth list and every trial below [N],
    [calc_statistics] ends normally and stores, for the depth [d] at index
    [i]: in row 0 the sum over the N trials of the heavy-output counts
    divided by the sum over the N trials of the shots; in row 1
    [sqrt (p * (1 - p) / N)] for that quotient [p]; in row 2 the sum over the
    N trials of the ideal heavy-output probabilities divided by N; in row 3
    [sqrt (q * (1 - q) / N)] for that mean [q]. *)
Theorem calc_statistics_values (s : QVFitter) :
  (0 <= _ntrials s)%Z ->
  (forall d t, d ∈ _depths s -> (t < Z.to_nat (_ntrials s))%nat -> tabulated s d t) ->
  exists r0 r1 r2 r3 : list R,
    calc_statistics s = (set_ydata [r0; r1; r2; r3] s, Ok tt) /\
    forall (i : nat) (d : Z), _depths s !! i = Some d ->
      let N := Z.to_nat (_ntrials s) in
      let p := IZR (Zsum (map (counts_at s d) (seq 0 N))) /
               IZR (Zsum (map (shots_at s d) (seq 0 N))) in
      let q := Rsum (map (ideal_at s d) (seq 0 N)) / IZR (_ntrials s) in
      r0 !! i = Some p /\
      r1 !! i = Some (sqrt (p * (1 - p) / IZR (_ntrials s))) /\
      r2 !! i = Some q /\
      r3 !! i = Some (sqrt (q * (1 - q) / IZR (_ntrials s))).
Proof.
  intros HN Htab.
  set (zeros := replicate (length (_depths s)) 0).
  destruct (calc_statistics_depths_loop s (_depths s) HN Htab 0
              (replicate (Z.to_nat (_ntrials s)) 0) (replicate (Z.to_nat (_ntrials s)) 0)
              zeros zeros zeros zeros)
    as (ev' & iv' & r0 & r1 & r2 & r3 & E & _ & _ & Hnew);
    try (unfold zeros; rewrite length_replicate; lia).
  exists r0, r1, r2, r3. split.
  - unfold calc_statistics. rewrite bind_gets. unfold bind at 1, modify at 1.
    rewrite bind_gets.
    change (_ntrials (set_ydata _ s)) with (_ntrials s).
    rewrite (bind_Ok _ _ _ _ _ (np_zeros_Ok _ _ HN)).
    rewrite bind_gets. change (_ntrials (set_ydata _ s)) with (_ntrials s).
    rewrite (bind_Ok _ _ _ _ _ (np_zeros_Ok _ _ HN)).
    rewrite bind_gets. change (_depths (set_ydata _ s)) with (_depths s).
    rewrite enumerate_zip.
    change (set_ydata (replicate 4 (replicate (length (_depths s)) 0)) s)
      with (set_ydata [zeros; zeros; zeros; zeros] s).
    erewrite bind_Ok; [|exact E]. reflexivity.
  - intros i d Hd. apply (Hnew i d Hd).
Qed.

(* ===================================================================== *)
(** ** Recomputation is idempotent *)
(* ===================================================================== *)

Lemma preserves_ret {A} (P : QVFitter -> Prop) (a : A) : preserves P (ret a).
Proof. intros s Hs. exact Hs. Qed.

Lemma preserves_raise {A} (P : QVFitter -> Prop) (e : exn) : preserves P (@raise A e).
Proof. intros s Hs. exact Hs. Qed.

Lemma preserves_gets {A} (P : QVFitter -> Prop) (f : QVFitter -> A) : preserves P (gets f).
Proof. intros s Hs. exact Hs. Qed.

Lemma preserves_orelse {A} (P : QVFitter -> Prop) (o : option A) (e : exn) :
  preserves P (orelse o e).
Proof. destruct o; [apply preserves_ret | apply preserves_raise]. Qed.

Lemma preserves_modify (P : QVFitter -> Prop) (f : QVFitter -> QVFitter) :
  (forall s, P s -> P (f s)) -> preserves P (modify f).
Proof. intros Hf s Hs. apply Hf, Hs. Qed.

Lemma preserves_bind {A B} (P : QVFitter -> Prop) (m : M A) (k : A -> M B) :
  preserves P m -> (forall a, preserves P (k a)) -> preserves P (bind m k).
Proof.
  intros Hm Hk s Hs. unfold bind. specialize (Hm s Hs).
  destruct (m s) as [s' [a|e]]; [apply Hk, Hm | exact Hm].
Qed.

Lemma preserves_for_with {A L} (P : QVFitter -> Prop) (l : list A) (v : L)
    (body : A -> L -> M L) :
  (forall x v, preserves P (body x v)) -> preserves P (for_with l v body).
Proof.
  intros Hb. revert v. induction l as [|x l IH]; intros v.
  - apply preserves_ret.
  - cbn. apply preserves_bind; [apply Hb | intros v'; apply IH].
Qed.

Lemma preserves_for {A} (P : QVFitter -> Prop) (l : list A) (body : A -> M unit) :
  (forall x, preserves P (body x)) -> preserves P (for_ l body).
Proof.
  intros Hb. induction l as [|x l IH].
  - apply preserves_ret.
  - cbn. apply preserves_bind; [apply Hb | intros _; apply IH].
Qed.

Lemma preserves_if {A} (P : QVFitter -> Prop) (b : bool) (m1 m2 : M A) :
  preserves P m1 -> preserves P m2 -> preserves P (if b then m1 else m2).
Proof. destruct b; auto. Qed.

Lemma preserves_decide {A} (P : QVFitter -> Prop) (Q : Prop) `{Decision Q} (m1 m2 : M A) :
  preserves P m1 -> preserves P m2 -> preserves P (if decide Q then m1 else m2).
Proof. destruct (decide Q); auto. Qed.

Ltac preserves_tac :=
  repeat first
    [ apply preserves_ret | apply preserves_raise | apply preserves_gets
    | apply preserves_orelse
    | apply preserves_bind; [|intros ?]
    | apply preserves_for_with; intros ? ?
    | apply preserves_for; intros ?
    | apply preserves_if | apply preserves_decide
    | match goal with
      | |- preserves _ ?m =>
          match m with
          | context [match ?p with pair _ _ => _ end] => is_var p; destruct p; cbv beta iota
          end
      end ].

Lemma same_but_ydata_eq (s0 s : QVFitter) :
  same_but_ydata s0 s -> s = set_ydata (_ydata s) s0.
Proof.
  unfold same_but_ydata. destruct s, s0. cbn. intros E. injection E as -> -> -> -> -> -> -> ->.
  reflexivity.
Qed.

Lemma calc_statistics_writes_ydata_only (s0 : QVFitter) :
  preserves (same_but_ydata s0) calc_statistics.
Proof.
  unfold calc_statistics, calc_statistics_depth, calc_statistics_trial,
    np_zeros, ydata_set, ydata_get, array_set.
  preserves_tac; try (apply preserves_modify; intros s Hs; exact Hs).
Qed.

Lemma calc_statistics_ignores_ydata (s : QVFitter) (y : list (list R)) :
  calc_statistics (set_ydata y s) = calc_statistics s.
Proof. reflexivity. Qed.

(** C7. Running the aggregation and the statistics a second time, on the
    fitter the first run left, leaves the same fitter (the heavy-output
    counts, the per-instance shots and the four rows of statistics included)
    and ends the same way. *)
Theorem recompute_idempotent (s : QVFitter) :
  recompute (fst (recompute s)) = recompute s.
Proof.
  unfold recompute. unfold bind at 2 3. rewrite (calc_data_spec s).
  destruct (calc_data_writes (_result_list s) (_heavy_outputs s)
              (visited_names (_ntrials s) (_depths s))
              (_circ_shots s) (_heavy_output_counts s))
    as [[shots hoc] r] eqn:E.
  apply calc_data_writes_idempotent in E.
  destruct r as [[]|e].
  - pose proof (calc_statistics_writes_ydata_only (with_counts s shots hoc)
                  (with_counts s shots hoc) eq_refl) as Hy.
    apply same_but_ydata_eq in Hy.
    destruct (calc_statistics (with_counts s shots hoc)) as [s2 r2] eqn:E2.
    cbn [fst] in *. rewrite Hy. unfold bind.
    rewrite calc_data_spec.
    change (calc_data_writes _ _ _ _ _)
      with (calc_data_writes (_result_list s) (_heavy_outputs s)
              (visited_names (_ntrials s) (_depths s)) shots hoc).
    rewrite E.
    change (with_counts (set_ydata (_ydata s2) (with_counts s shots hoc)) shots hoc)
      with (set_ydata (_ydata s2) (with_counts s shots hoc)).
    rewrite calc_statistics_ignores_ydata, E2, <- Hy. reflexivity.
  - cbn [fst]. unfold bind. rewrite calc_data_spec.
    change (calc_data_writes _ _ _ _ _)
      with (calc_data_writes (_result_list s) (_heavy_outputs s)
              (visited_names (_ntrials s) (_depths s)) shots hoc).
    rewrite E. reflexivity.
Qed.

(* ===================================================================== *)
(** ** What a computation can raise *)
(* ===================================================================== *)

Lemma raises_only_ret {A} (E : exn -> Prop) (a : A) : raises_only E (ret a).
Proof. intros s s' e H. discriminate. Qed.

Lemma raises_only_raise {A} (E : exn -> Prop) (e : exn) : E e -> raises_only E (@raise A e).
Proof. intros He s s' e' H. injection H as _ <-. exact He. Qed.

Lemma raises_only_gets {A} (E : exn -> Prop) (f : QVFitter -> A) : raises_only E (gets f).
Proof. intros s s' e H. discriminate. Qed.

Lemma raises_only_modify (E : exn -> Prop) (f : QVFitter -> QVFitter) :
  raises_only E (modify f).
Proof. intros s s' e H. discriminate. Qed.

Lemma raises_only_orelse {A} (E : exn -> Prop) (o : option A) (e : exn) :
  E e -> raises_only E (orelse o e).
Proof. intros He. destruct o; [apply raises_only_ret | by apply raises_only_raise]. Qed.

Lemma raises_only_bind {A B} (E : exn -> Prop) (m : M A) (k : A -> M B) :
  raises_only E m -> (forall a, raises_only E (k a)) -> raises_only E (bind m k).
Proof.
  intros Hm Hk s s' e. unfold bind. destruct (m s) as [s1 [a|e1]] eqn:Em.
  - apply Hk.
  - intros H. injection H as _ <-. eapply Hm, Em.
Qed.

Lemma raises_only_for_with {A L} (E : exn -> Prop) (l : list A) (v : L)
    (body : A -> L -> M L) :
  (forall x v, raises_only E (body x v)) -> raises_only E (for_with l v body).
Proof.
  intros Hb. revert v. induction l as [|x l IH]; intros v.
  - apply raises_only_ret.
  - cbn. apply raises_only_bind; [apply Hb | intros v'; apply IH].
Qed.

Lemma raises_only_if {A} (E : exn -> Prop) (b : bool) (m1 m2 : M A) :
  raises_only E m1 -> raises_only E m2 -> raises_only E (if b then m1 else m2).
Proof. destruct b; auto. Qed.

Lemma raises_only_decide {A} (E : exn -> Prop) (Q : Prop) `{Decision Q} (m1 m2 : M A) :
  raises_only E m1 -> raises_only E m2 -> raises_only E (if decide Q then m1 else m2).
Proof. destruct (decide Q); auto. Qed.

Ltac raises_only_tac :=
  repeat first
    [ apply raises_only_ret | apply raises_only_gets | apply raises_only_modify
    | apply raises_only_raise | apply raises_only_orelse
    | apply raises_only_bind; [|intros ?]
    | apply raises_only_for_with; intros ? ?
    | apply raises_only_if | apply raises_only_decide
    | match goal with
      | |- raises_only _ ?m =>
          match m with
          | context [match ?p with pair _ _ => _ end] => is_var p; destruct p; cbv beta iota
          end
      end ].

Lemma calc_statistics_raises : raises_only builtin_exn calc_statistics.
Proof.
  unfold calc_statistics, calc_statistics_depth, calc_statistics_trial,
    np_zeros, ydata_set, ydata_get, array_set.
  raises_only_tac; exact I.
Qed.

Lemma calc_data_raises : raises_only builtin_exn calc_data.
Proof.
  intros s s' e H. rewrite calc_data_spec in H.
  pose proof (calc_data_writes_outcome (_result_list s) (_heavy_outputs s)
                (visited_names (_ntrials s) (_depths s))
                (_circ_shots s) (_heavy_output_counts s)) as Ho.
  destruct (calc_data_writes _ _ _ _ _) as [[shots hoc] [[]|e']]; [discriminate|].
  injection H as _ <-. destruct Ho as (n & -> & _). exact I.
Qed.

Lemma recompute_raises : raises_only builtin_exn recompute.
Proof.
  apply raises_only_bind; [apply calc_data_raises | intros _; apply calc_statistics_raises].
Qed.

(* ===================================================================== *)
(** ** Ingestion of measured counts *)
(* ===================================================================== *)

Lemma add_data_circ_cases (qvcirc : ExperimentResult) (s : QVFitter) :
  add_data_circ qvcirc s =
  match trial_of (header_name qvcirc) with
  | None => (s, Raise (match last (PyStr.split "_" (header_name qvcirc)) with
                       | Some _ => ValueError
                       | None => IndexError
                       end))
  | Some t =>
      (bump_ntrials t s,
       if decide (registered s qvcirc) then Ok tt else Raise ideal_must_be_loaded)
  end.
Proof.
  unfold add_data_circ, trial_of, registered, bump_ntrials. unfold_monad.
  destruct (last (PyStr.split "_" (header_name qvcirc))) as [field|]; [|reflexivity].
  cbn. destruct (PyStr.int field) as [t|]; [|reflexivity].
  cbn. destruct (t + 1 >? _ntrials s)%Z; cbn;
    destruct (decide (is_Some (_heavy_output_prob_ideal s !! header_name qvcirc)));
    reflexivity.
Qed.

Lemma bump_ntrials_same (t : Z) (s : QVFitter) :
  same_but_ntrials s (bump_ntrials t s) /\ (_ntrials s <= _ntrials (bump_ntrials t s))%Z.
Proof.
  unfold bump_ntrials, same_but_ntrials.
  destruct (Z.gtb_spec (t + 1) (_ntrials s)); cbn; split; (reflexivity || lia).
Qed.

Lemma same_but_ntrials_fields (s s' : QVFitter) :
  same_but_ntrials s s' ->
  _heavy_output_prob_ideal s' = _heavy_output_prob_ideal s /\
  _result_list s' = _result_list s.
Proof.
  unfold same_but_ntrials. destruct s, s'. cbn. intros E.
  injection E as -> -> -> -> -> -> -> ->. auto.
Qed.

Lemma add_data_circs_loop (cs : list ExperimentResult) (s : QVFitter) :
  exists s' r,
    for_ cs add_data_circ s = (s', r) /\
    same_but_ntrials s s' /\ (_ntrials s <= _ntrials s')%Z /\
    circs_outcome s cs r.
Proof.
  revert s. induction cs as [|c cs IH]; intros s.
  - exists s, (Ok tt). split; [reflexivity|]. split; [reflexivity|]. split; [lia|].
    intros c Hc. by apply elem_of_nil in Hc.
  - cbn [for_]. unfold bind. rewrite add_data_circ_cases.
    destruct (trial_of (header_name c)) as [t|] eqn:Et.
    + destruct (bump_ntrials_same t s) as [Hsame Hle].
      destruct (decide (registered s c)) as [Hreg|Hreg].
      * destruct (IH (bump_ntrials t s)) as (s' & r & E & Hsame' & Hle' & Hr).
        exists s', r. split; [exact E|].
        split; [unfold same_but_ntrials in *; congruence|]. split; [lia|].
        assert (Hiff : forall c', registered (bump_ntrials t s) c' <-> registered s c').
        { intros c'. unfold registered.
          destruct (same_but_ntrials_fields _ _ Hsame) as [-> _]. reflexivity. }
        destruct r as [[]|e]; cbn in *.
        -- intros c' Hc'. apply elem_of_cons in Hc' as [->|Hc'].
           ++ split; [exact Hreg | rewrite Et; eauto].
           ++ destruct (Hr c' Hc') as [H1 H2]. split; [by apply Hiff | exact H2].
        -- destruct Hr as [[-> (c' & Hc' & Hn)]|[He (c' & Hc' & Hn)]].
           ++ left. split; [reflexivity|]. exists c'.
              split; [by apply list_elem_of_further | by rewrite <- Hiff].
           ++ right. split; [exact He|]. exists c'.
              split; [by apply list_elem_of_further | exact Hn].
      * exists (bump_ntrials t s), (Raise ideal_must_be_loaded).
        split; [reflexivity|]. split; [exact Hsame|]. split; [exact Hle|].
        left. split; [reflexivity|]. exists c. split; [apply list_elem_of_here | exact Hreg].
    + exists s, (Raise (match last (PyStr.split "_" (header_name c)) with
                        | Some _ => ValueError
                        | None => IndexError
                        end)).
      split; [reflexivity|]. split; [reflexivity|]. split; [lia|].
      right. split; [destruct (last _); auto|].
      exists c. split; [apply list_elem_of_here | exact Et].
Qed.

Lemma circs_outcome_ext (s1 s2 : QVFitter) (cs : list ExperimentResult) (r : outcome unit) :
  _heavy_output_prob_ideal s1 = _heavy_output_prob_ideal s2 ->
  circs_outcome s1 cs r -> circs_outcome s2 cs r.
Proof.
  intros E. unfold circs_outcome, registered. rewrite E. auto.
Qed.

(** The loop over the batches either takes them all, every circuit being
    registered, or stops in the first batch with a circuit it rejects, that
    batch being stored already. *)
Lemma add_data_results_loop (rs : list Result) (s : QVFitter) :
  exists s' r,
    add_data_loop rs s = (s', r) /\
    _heavy_output_prob_ideal s' = _heavy_output_prob_ideal s /\
    (_ntrials s <= _ntrials s')%Z /\
    match r with
    | Ok _ =>
        _result_list s' = _result_list s ++ rs /\
        forall r0 c, r0 ∈ rs -> c ∈ results r0 ->
          registered s c /\ is_Some (trial_of (header_name c))
    | Raise e =>
        exists pre r0 post,
          rs = pre ++ r0 :: post /\
          _result_list s' = _result_list s ++ pre ++ [r0] /\
          circs_outcome s (results r0) (Raise e)
    end.
Proof.
  unfold add_data_loop. revert s. induction rs as [|r0 rs IH]; intros s.
  - exists s, (Ok tt). split; [reflexivity|]. split; [reflexivity|]. split; [lia|].
    split; [by rewrite app_nil_r|]. intros r0 c Hr0. by apply elem_of_nil in Hr0.
  - cbn [for_]. unfold bind at 1. unfold bind at 1, modify at 1.
    set (s1 := set_result_list (_result_list s ++ [r0]) s).
    destruct (add_data_circs_loop (results r0) s1) as (s2 & r2 & E2 & Hsame & Hle & Hout).
    rewrite E2. destruct (same_but_ntrials_fields _ _ Hsame) as [Hideal Hrl].
    change (_heavy_output_prob_ideal s1) with (_heavy_output_prob_ideal s) in Hideal.
    change (_result_list s1) with (_result_list s ++ [r0]) in Hrl.
    change (_ntrials s1) with (_ntrials s) in Hle.
    apply (circs_outcome_ext s1 s) in Hout; [|reflexivity].
    destruct r2 as [[]|e].
    + destruct (IH s2) as (s' & r & E & Hideal' & Hle' & Hr).
      exists s', r. split; [exact E|]. split; [congruence|]. split; [lia|].
      destruct r as [[]|e].
      * destruct Hr as [Hl Hall]. split; [rewrite Hl, Hrl, <- app_assoc; reflexivity|].
        intros r1 c Hr1 Hc. apply elem_of_cons in Hr1 as [->|Hr1].
        -- apply Hout, Hc.
        -- destruct (Hall r1 c Hr1 Hc) as [H1 H2]. split; [|exact H2].
           unfold registered in *. by rewrite <- Hideal.
      * destruct Hr as (pre & r1 & post & -> & Hl & Hc).
        exists (r0 :: pre), r1, post. split; [reflexivity|].
        split; [rewrite Hl, Hrl, <- app_assoc; reflexivity|].
        eapply circs_outcome_ext; [|exact Hc]. exact Hideal.
    + exists s2, (Raise e). split; [reflexivity|]. split; [exact Hideal|]. split; [exact Hle|].
      exists [], r0, rs. split; [reflexivity|]. split; [exact Hrl | exact Hout].
Qed.

Lemma add_data_unfold (arg : ResultArg) (rerun_fit : bool) (s : QVFitter) :
  arg <> ArgNone ->
  add_data arg rerun_fit s =
  bind (add_data_loop (as_list arg))
       (fun _ => if rerun_fit then recompute else ret tt) s.
Proof. destruct arg; [congruence | reflexivity..]. Qed.

(** C5. When the circuits of the batches added all carry a trial index and
    one of them has no ideal distribution on record, [add_data] raises
    [QiskitError 'Ideal distribution must be loaded first'] to its caller. *)
Theorem add_data_unregistered_fails (s : QVFitter) (arg : ResultArg) (rerun_fit : bool) :
  (forall r c, r ∈ as_list arg -> c ∈ results r -> is_Some (trial_of (header_name c))) ->
  (exists r c, r ∈ as_list arg /\ c ∈ results r /\ ~ registered s c) ->
  exists s', add_data arg rerun_fit s = (s', Raise ideal_must_be_loaded).
Proof.
  intros Hwf (r & c & Hr & Hc & Hn).
  assert (Harg : arg <> ArgNone).
  { intros ->. by apply elem_of_nil in Hr. }
  rewrite (add_data_unfold _ _ _ Harg). unfold bind.
  destruct (add_data_results_loop (as_list arg) s) as (s' & o & E & _ & _ & Ho).
  rewrite E. destruct o as [[]|e].
  - destruct Ho as [_ Hall]. destruct (Hall r c Hr Hc) as [Hreg _]. contradiction.
  - destruct Ho as (pre & r0 & post & Hl & _ & [[-> _]|[_ (c' & Hc' & Hnone)]]).
    + eauto.
    + destruct (Hwf r0 c') as [t Ht]; [rewrite Hl; set_solver | exact Hc' | congruence].
Qed.

(** C9. [add_data] is not atomic: whenever it raises
    [QiskitError 'Ideal distribution must be loaded first'], the batch with
    the unregistered circuit, and the batches before it, are already in the
    stored result list, and the trial count has not decreased; and there is
    a run in which the trial count has increased when the error is raised. *)
Theorem add_data_not_atomic :
  (forall (s s' : QVFitter) (arg : ResultArg) (rerun_fit : bool),
     add_data arg rerun_fit s = (s', Raise ideal_must_be_loaded) ->
     exists pre r post,
       as_list arg = pre ++ r :: post /\
       _result_list s' = _result_list s ++ pre ++ [r] /\
       (exists c, c ∈ results r /\ ~ registered s c) /\
       (_ntrials s <= _ntrials s')%Z) /\
  (exists (s s' : QVFitter) (arg : ResultArg),
     add_data arg true s = (s', Raise ideal_must_be_loaded) /\
     _result_list s' = _result_list s ++ as_list arg /\
     (_ntrials s < _ntrials s')%Z).
Proof.
  split.
  - intros s s' arg rerun_fit H.
    assert (Harg : arg <> ArgNone) by (intros ->; discriminate).
    rewrite (add_data_unfold _ _ _ Harg) in H. unfold bind in H.
    destruct (add_data_results_loop (as_list arg) s) as (s1 & o & E & _ & Hle & Ho).
    rewrite E in H. destruct o as [[]|e].
    + exfalso. destruct rerun_fit; [|discriminate].
      apply recompute_raises in H. exact H.
    + injection H as <- ->.
      destruct Ho as (pre & r0 & post & Hl & Hrl & [[_ Hc]|[[He|He] _]]);
        [|discriminate He..].
      exists pre, r0, post. auto.
  - exists fresh_fitter,
      (set_ntrials 4 (set_result_list [stray_batch] fresh_fitter)),
      (ArgOne stray_batch).
    split; [reflexivity|]. split; [reflexivity|]. cbn. lia.
Qed.

(* ===================================================================== *)
(** ** Ingestion of ideal distributions *)
(* ===================================================================== *)

Lemma add_statevectors_circ_cases (result : Result) (qvcirc : ExperimentResult)
    (s : QVFitter) :
  let circname := header_name qvcirc in
  add_statevectors_circ result qvcirc s =
  match PyStr.split "_" circname !! 2%nat with
  | None => (s, Raise IndexError)
  | Some field =>
      match PyStr.int field with
      | None => (s, Raise ValueError)
      | Some depth =>
          if decide (is_Some (_heavy_outputs s !! circname))
          then (s, Raise (already_added circname))
          else match ingest result circname depth with
               | inl e => (s, Raise e)
               | inr (strings, p) => (register circname strings p s, Ok tt)
               end
      end
  end.
Proof.
  intros circname. unfold add_statevectors_circ, ingest, pmap_of, pmap_items.
  fold circname. unfold_monad.
  destruct (PyStr.split "_" circname !! 2%nat) as [field|]; [|reflexivity].
  destruct (PyStr.int field) as [depth|]; [|reflexivity].
  destruct (decide (is_Some (_heavy_outputs s !! circname))); [reflexivity|].
  destruct (get_statevector result circname) as [qstate|]; [|reflexivity].
  destruct (depth <? 0)%Z; [reflexivity|].
  destruct (mapM _ (range (2 ^ depth))) as [kvs|]; [|reflexivity].
  cbn [_median_probabilities map lookup list_lookup].
  destruct (_heavy_strings _ _) as [strings|]; [|reflexivity].
  cbn [_heavy_outputs set_heavy_outputs]. rewrite lookup_insert_eq. reflexivity.
Qed.

Lemma for_app {A} (l1 l2 : list A) (body : A -> M unit) (s : QVFitter) :
  for_ (l1 ++ l2) body s = bind (for_ l1 body) (fun _ => for_ l2 body) s.
Proof.
  revert s. induction l1 as [|x l1 IH]; intros s; [reflexivity|].
  cbn [app for_]. unfold bind. destruct (body x s) as [s1 [[]|e]]; [|reflexivity].
  rewrite IH. reflexivity.
Qed.

Lemma for_map {A B} (g : A -> B) (l : list A) (body : B -> M unit) (s : QVFitter) :
  for_ (map g l) body s = for_ l (fun x => body (g x)) s.
Proof.
  revert s. induction l as [|x l IH]; intros s; [reflexivity|].
  cbn [map for_]. unfold bind. destruct (body (g x) s) as [s1 [[]|e]]; [apply IH | reflexivity].
Qed.

Lemma for_nested (rs : list Result) (body : Result -> ExperimentResult -> M unit)
    (s : QVFitter) :
  for_ rs (fun r => for_ (results r) (body r)) s =
  for_ (circuits rs) (fun rc => body (fst rc) (snd rc)) s.
Proof.
  revert s. induction rs as [|r rs IH]; intros s; [reflexivity|].
  cbn [for_ circuits flat_map]. rewrite for_app. unfold bind. rewrite for_map.
  cbn [fst snd].
  change (for_ (results r) (fun x => body r x) s) with (for_ (results r) (body r) s).
  destruct (for_ (results r) (body r) s) as [s1 [[]|e]]; [apply IH | reflexivity].
Qed.

Lemma add_statevectors_unfold (arg : ResultArg) (s : QVFitter) :
  add_statevectors arg s =
  for_ (circuits (as_list arg)) (fun rc => add_statevectors_circ (fst rc) (snd rc)) s.
Proof. destruct arg; [reflexivity | apply for_nested..]. Qed.

Lemma elem_of_circuits (rs : list Result) (r : Result) (c : ExperimentResult) :
  (r, c) ∈ circuits rs <-> r ∈ rs /\ c ∈ results r.
Proof.
  unfold circuits. rewrite list_elem_of_In, in_flat_map. split.
  - intros (r' & Hr' & Hc). apply in_map_iff in Hc as (c' & [= -> ->] & Hc).
    split; by apply list_elem_of_In.
  - intros [Hr Hc]. exists r. split; [by apply list_elem_of_In|].
    apply in_map_iff. exists c. split; [reflexivity | by apply list_elem_of_In].
Qed.

Lemma register_lookup_ne (n k : string) (strings : list string) (p : R) (s : QVFitter) :
  n <> k ->
  _heavy_outputs (register n strings p s) !! k = _heavy_outputs s !! k /\
  _heavy_output_prob_ideal (register n strings p s) !! k = _heavy_output_prob_ideal s !! k.
Proof. intros Hne. cbn. rewrite !lookup_insert_ne by assumption. auto. Qed.

Lemma register_lookup_eq (n : string) (strings : list string) (p : R) (s : QVFitter) :
  _heavy_outputs (register n strings p s) !! n = Some strings /\
  _heavy_output_prob_ideal (register n strings p s) !! n = Some p.
Proof. cbn. rewrite !lookup_insert_eq. auto. Qed.

(** A normal end of the registration loop: the names are new and pairwise
    distinct, the other entries are untouched, and every circuit holds what
    [ingest] computes for it. *)
Lemma add_statevectors_loop_Ok (l : list (Result * ExperimentResult)) (s s' : QVFitter) :
  for_ l (fun rc => add_statevectors_circ (fst rc) (snd rc)) s = (s', Ok tt) ->
  NoDup (circuit_names l) /\
  (forall n, n ∈ circuit_names l -> _heavy_outputs s !! n = None) /\
  (forall n, n ∉ circuit_names l ->
     _heavy_outputs s' !! n = _heavy_outputs s !! n /\
     _heavy_output_prob_ideal s' !! n = _heavy_output_prob_ideal s !! n) /\
  (forall r c, (r, c) ∈ l ->
     exists depth strings p,
       depth_of (header_name c) = Some depth /\
       ingest r (header_name c) depth = inr (strings, p) /\
       _heavy_outputs s' !! header_name c = Some strings /\
       _heavy_output_prob_ideal s' !! header_name c = Some p).
Proof.
  revert s. induction l as [|[r c] l IH]; intros s E.
  - cbn in E. injection E as <-. split; [constructor|].
    split; [intros n Hn; by apply elem_of_nil in Hn|].
    split; [auto | intros r c Hrc; by apply elem_of_nil in Hrc].
  - cbn [for_ fst snd] in E. unfold bind in E.
    rewrite add_statevectors_circ_cases in E. cbn zeta in E.
    destruct (PyStr.split "_" (header_name c) !! 2%nat) as [field|] eqn:Ef; [|discriminate].
    destruct (PyStr.int field) as [depth|] eqn:Ed; [|discriminate].
    destruct (decide (is_Some (_heavy_outputs s !! header_name c))) as [|Hnew];
      [discriminate|].
    destruct (ingest r (header_name c) depth) as [e|[strings p]] eqn:Ei; [discriminate|].
    apply IH in E as (Hnd & Hfresh & Hother & Hall).
    assert (Hnotin : header_name c ∉ circuit_names l).
    { intros Hin. apply Hfresh in Hin.
      destruct (register_lookup_eq (header_name c) strings p s) as [Hh _]. congruence. }
    split; [cbn; by constructor|]. split; [|split].
    + intros n Hn. cbn in Hn. apply elem_of_cons in Hn as [->|Hn].
      * by apply eq_None_not_Some.
      * destruct (decide (header_name c = n)) as [<-|Hne]; [contradiction|].
        rewrite <- (proj1 (register_lookup_ne _ _ strings p s Hne)). by apply Hfresh.
    + intros n Hn. cbn in Hn. apply not_elem_of_cons in Hn as [Hne Hn].
      destruct (Hother n Hn) as [-> ->]. apply register_lookup_ne. congruence.
    + intros r' c' Hrc. apply elem_of_cons in Hrc as [[= -> ->]|Hrc]; [|by apply Hall].
      destruct (Hother _ Hnotin) as [-> ->].
      exists depth, strings, p. unfold depth_of. rewrite Ef. cbn. rewrite Ed.
      split; [reflexivity|]. split; [exact Ei|]. apply register_lookup_eq.
Qed.

(** A name that is registered already, or comes twice, stops the loop with
    the duplicate-registration error. *)
Lemma add_statevectors_loop_duplicate (l : list (Result * ExperimentResult)) (s : QVFitter) :
  (forall r c, (r, c) ∈ l -> ingestible r c) ->
  (exists n, n ∈ circuit_names l /\ is_Some (_heavy_outputs s !! n)) \/
    ~ NoDup (circuit_names l) ->
  exists s' n,
    for_ l (fun rc => add_statevectors_circ (fst rc) (snd rc)) s
      = (s', Raise (already_added n)) /\
    n ∈ circuit_names l /\
    (is_Some (_heavy_outputs s !! n) \/ ~ NoDup (circuit_names l)).
Proof.
  revert s. induction l as [|[r c] l IH]; intros s Hing Hdup.
  - exfalso. destruct Hdup as [(n & Hn & _)|Hnd].
    + by apply elem_of_nil in Hn.
    + apply Hnd. constructor.
  - cbn [for_ fst snd]. unfold bind. rewrite add_statevectors_circ_cases. cbn zeta.
    destruct (Hing r c (list_elem_of_here _ _)) as (depth & strings & p & Hd & Hi).
    unfold depth_of in Hd.
    destruct (PyStr.split "_" (header_name c) !! 2%nat) as [field|]; [|discriminate].
    cbn in Hd. rewrite Hd.
    destruct (decide (is_Some (_heavy_outputs s !! header_name c))) as [Hreg|Hnew].
    + exists s, (header_name c). split; [reflexivity|].
      split; [apply list_elem_of_here | by left].
    + rewrite Hi.
      destruct (IH (register (header_name c) strings p s)) as (s' & n & E & Hn & Hwhy).
      * intros r' c' Hrc. apply Hing. by apply list_elem_of_further.
      * destruct (decide (header_name c ∈ circuit_names l)) as [Hin|Hnotin].
        -- left. exists (header_name c). split; [exact Hin|].
           rewrite (proj1 (register_lookup_eq _ strings p s)). eauto.
        -- destruct Hdup as [(n & Hn & Hreg)|Hnd].
           ++ left. exists n. cbn in Hn. apply elem_of_cons in Hn as [->|Hn]; [contradiction|].
              split; [exact Hn|].
              destruct (decide (header_name c = n)) as [<-|Hne]; [contradiction|].
              by rewrite (proj1 (register_lookup_ne _ _ strings p s Hne)).
           ++ right. intros Hnd'. apply Hnd. cbn. by constructor.
      * exists s', n. split; [exact E|]. split; [by apply list_elem_of_further|].
        destruct (decide (header_name c ∈ circuit_names l)) as [Hin|Hnotin].
        -- right. cbn. intros Hnd. apply NoDup_cons in Hnd as [Hc _]. contradiction.
        -- destruct Hwhy as [Hreg|Hnd].
           ++ left. destruct (decide (header_name c = n)) as [<-|Hne]; [contradiction|].
              by rewrite <- (proj1 (register_lookup_ne _ _ strings p s Hne)).
           ++ right. cbn. intros Hnd'. apply NoDup_cons in Hnd' as [_ Hnd']. contradiction.
Qed.

(** C6. A call of [add_statevectors] whose circuits can all be ingested, and
    in which some circuit name is registered already or occurs twice, raises
    [QiskitError 'Already added the ideal result for circuit <name>'] for
    such a name; and a call that ends normally has registered new, pairwise
    distinct names only and left every earlier registration as it was: an
    ideal distribution is registered at most once per circuit name. *)
Theorem add_statevectors_duplicate_fails :
  (forall (s : QVFitter) (arg : ResultArg),
     (forall r c, r ∈ as_list arg -> c ∈ results r -> ingestible r c) ->
     (exists r c, r ∈ as_list arg /\ c ∈ results r /\
                  is_Some (_heavy_outputs s !! header_name c)) \/
       ~ NoDup (circuit_names (circuits (as_list arg))) ->
     exists s' n,
       add_statevectors arg s = (s', Raise (already_added n)) /\
       n ∈ circuit_names (circuits (as_list arg)) /\
       (is_Some (_heavy_outputs s !! n) \/
        ~ NoDup (circuit_names (circuits (as_list arg))))) /\
  (forall (s s' : QVFitter) (arg : ResultArg),
     add_statevectors arg s = (s', Ok tt) ->
     NoDup (circuit_names (circuits (as_list arg))) /\
     (forall n, n ∈ circuit_names (circuits (as_list arg)) ->
        _heavy_outputs s !! n = None) /\
     (forall n, is_Some (_heavy_outputs s !! n) ->
        _heavy_outputs s' !! n = _heavy_outputs s !! n /\
        _heavy_output_prob_ideal s' !! n = _heavy_output_prob_ideal s !! n)).
Proof.
  split.
  - intros s arg Hing Hdup. rewrite add_statevectors_unfold.
    apply add_statevectors_loop_duplicate.
    + intros r c Hrc. apply elem_of_circuits in Hrc as [Hr Hc]. by apply Hing.
    + destruct Hdup as [(r & c & Hr & Hc & Hreg)|Hnd]; [left | by right].
      exists (header_name c). split; [|exact Hreg].
      unfold circuit_names. apply list_elem_of_fmap. exists (r, c).
      split; [reflexivity | by apply elem_of_circuits].
  - intros s s' arg E. rewrite add_statevectors_unfold in E.
    apply add_statevectors_loop_Ok in E as (Hnd & Hfresh & Hother & _).
    split; [exact Hnd|]. split; [exact Hfresh|].
    intros n [x Hx]. apply Hother. intros Hin. apply Hfresh in Hin. congruence.
Qed.

(* ===================================================================== *)
(** ** Bitstrings *)
(* ===================================================================== *)

Lemma bin_value_app (acc : Z) (s1 s2 : string) :
  bin_value acc (s1 +:+ s2) = bin_value (bin_value acc s1) s2.
Proof. revert acc. induction s1 as [|c s1 IH]; intros acc; [reflexivity | apply IH]. Qed.

Lemma bin_value_bin_pos (p : positive) : bin_value 0 (PyStr.bin_pos p) = Z.pos p.
Proof.
  induction p as [q IH|q IH|]; cbn [PyStr.bin_pos]; [| |reflexivity];
    rewrite bin_value_app, IH; cbn; lia.
Qed.

Lemma bin_value_zeros (n : nat) : bin_value 0 (PyStr.zeros n) = 0%Z.
Proof. induction n as [|n IH]; [reflexivity | exact IH]. Qed.

Lemma bin_value_zfill (width : Z) (s : string) :
  bin_value 0 (PyStr.zfill width s) = bin_value 0 s.
Proof. unfold PyStr.zfill. rewrite bin_value_app, bin_value_zeros. reflexivity. Qed.

(** The format is read back: distinct outcomes have distinct bitstrings. *)
Lemma bin_value_format_bin (width b : Z) :
  (0 <= b)%Z -> bin_value 0 (PyStr.format_bin width b) = b.
Proof.
  intros Hb. destruct b as [|p|p]; [| |lia]; cbn [PyStr.format_bin];
    rewrite bin_value_zfill; [reflexivity | apply bin_value_bin_pos].
Qed.

Lemma format_bin_inj (width b b' : Z) :
  (0 <= b)%Z -> (0 <= b')%Z ->
  PyStr.format_bin width b = PyStr.format_bin width b' -> b = b'.
Proof.
  intros Hb Hb' E. rewrite <- (bin_value_format_bin width b Hb),
    <- (bin_value_format_bin width b' Hb'), E. reflexivity.
Qed.

(* ===================================================================== *)
(** ** Dictionaries with pairwise distinct keys *)
(* ===================================================================== *)

Lemma getitem_None {V} (k : string) (d : PyDict.t V) :
  k ∉ PyDict.keys d -> PyDict.getitem k d = None.
Proof.
  induction d as [|[k' v'] d IH]; intros Hk; [reflexivity|].
  cbn in *. apply not_elem_of_cons in Hk as [Hne Hk].
  destruct (String.eqb_spec k k'); [contradiction | by apply IH].
Qed.

Lemma getitem_elem {V} (k : string) (v : V) (d : PyDict.t V) :
  NoDup (PyDict.keys d) -> (k, v) ∈ d -> PyDict.getitem k d = Some v.
Proof.
  induction d as [|[k' v'] d IH]; intros Hnd Hin; [by apply elem_of_nil in Hin|].
  cbn in *. apply NoDup_cons in Hnd as [Hk' Hnd].
  apply elem_of_cons in Hin as [[= -> ->]|Hin].
  - by rewrite String.eqb_refl.
  - destruct (String.eqb_spec k k') as [->|_]; [|by apply IH].
    exfalso. apply Hk'. apply list_elem_of_fmap. by exists (k', v).
Qed.

Lemma setitem_fresh {V} (k : string) (v : V) (d : PyDict.t V) :
  k ∉ PyDict.keys d -> PyDict.setitem k v d = d ++ [(k, v)].
Proof.
  induction d as [|[k' v'] d IH]; intros Hk; [reflexivity|].
  cbn in *. apply not_elem_of_cons in Hk as [Hne Hk].
  destruct (String.eqb_spec k k'); [contradiction|]. by rewrite IH.
Qed.

Lemma comprehension_from {V} (kvs acc : PyDict.t V) :
  NoDup (PyDict.keys (acc ++ kvs)) ->
  fold_left (fun d kv => PyDict.setitem (fst kv) (snd kv) d) kvs acc = acc ++ kvs.
Proof.
  revert acc. induction kvs as [|[k v] kvs IH]; intros acc Hnd.
  - by rewrite app_nil_r.
  - cbn [fold_left fst snd]. rewrite setitem_fresh.
    + rewrite IH; rewrite <- app_assoc; [reflexivity | exact Hnd].
    + unfold PyDict.keys in *. rewrite map_app in Hnd.
      apply NoDup_app in Hnd as (_ & Hdisj & _). intros Hin.
      apply (Hdisj k Hin). apply list_elem_of_here.
Qed.

(** A comprehension over distinct keys is the list of its pairs. *)
Lemma comprehension_NoDup {V} (kvs : PyDict.t V) :
  NoDup (PyDict.keys kvs) -> PyDict.comprehension kvs = kvs.
Proof. intros Hnd. apply (comprehension_from kvs []). exact Hnd. Qed.

Lemma heavy_strings_filter (d l : PyDict.t R) (m : R) :
  (forall k v, (k, v) ∈ l -> PyDict.getitem k d = Some v) ->
  filter_opt (fun x => (fun p => Rgtb p m) <$> PyDict.getitem x d) (map fst l) =
  Some (map fst (List.filter (fun kv => Rgtb (snd kv) m) l)).
Proof.
  induction l as [|[k v] l IH]; intros Hd; [reflexivity|].
  cbn [map filter_opt fst List.filter snd].
  rewrite (Hd k v) by apply list_elem_of_here. cbn [fmap option_fmap option_map].
  rewrite IH by (intros k' v' Hin; apply Hd; by apply list_elem_of_further).
  destruct (Rgtb v m); reflexivity.
Qed.

Lemma get_values (d l : PyDict.t R) :
  (forall k v, (k, v) ∈ l -> PyDict.getitem k d = Some v) ->
  map (fun x => PyDict.get x 0 d) (map fst l) = map snd l.
Proof.
  induction l as [|[k v] l IH]; intros Hd; [reflexivity|].
  cbn [map fst snd]. unfold PyDict.get at 1.
  rewrite (Hd k v) by apply list_elem_of_here.
  rewrite IH by (intros k' v' Hin; apply Hd; by apply list_elem_of_further).
  reflexivity.
Qed.

Lemma py_sum_R_from (l : list R) (a : R) : fold_left Rplus l a = a + Rsum l.
Proof.
  revert a. induction l as [|x l IH]; intros a.
  - cbn. lra.
  - cbn [fold_left]. rewrite IH. change (Rsum (x :: l)) with (x + Rsum l). lra.
Qed.

Lemma py_sum_R (l : list R) : py_sum l = Rsum l.
Proof. unfold py_sum. cbn [py_add py_zero PyNum_R]. rewrite py_sum_R_from. lra. Qed.

Lemma filter_map_comm {A B} (g : A -> B) (P : B -> bool) (l : list A) :
  List.filter P (map g l) = map g (List.filter (fun x => P (g x)) l).
Proof.
  induction l as [|x l IH]; [reflexivity|].
  cbn. destruct (P (g x)); cbn; by rewrite IH.
Qed.

(* ===================================================================== *)
(** ** The heavy set and the ideal heavy-output probability *)
(* ===================================================================== *)

Lemma pvector_lookup (qstate : list complex) (i : nat) :
  zip_with multiply qstate (map conjugate qstate) !! i =
  (fun z => multiply z (conjugate z)) <$> qstate !! i.
Proof.
  rewrite lookup_zip_with, list_lookup_fmap. destruct (qstate !! i); reflexivity.
Qed.

Lemma pmap_items_spec (depth : Z) (qstate : list complex) (kvs : list (string * R)) :
  pmap_items depth (zip_with multiply qstate (map conjugate qstate)) = Some kvs ->
  kvs = map (fun b => (PyStr.format_bin depth b, probability qstate b)) (range (2 ^ depth)).
Proof.
  unfold pmap_items. intros E. apply mapM_Some in E.
  induction E as [|b kv bs kvs Hb _ IH]; [reflexivity|].
  cbn [map]. rewrite <- IH. f_equal.
  rewrite pvector_lookup in Hb. unfold probability.
  destruct (qstate !! Z.to_nat b) as [z|]; [|discriminate].
  cbn in *. congruence.
Qed.

Lemma range_nonneg (n b : Z) : b ∈ range n -> (0 <= b < n)%Z.
Proof. unfold range. rewrite elem_of_seqZ. lia. Qed.

Lemma bitstrings_NoDup (depth : Z) (bs : list Z) :
  NoDup bs -> (forall b, b ∈ bs -> (0 <= b)%Z) -> NoDup (map (PyStr.format_bin depth) bs).
Proof.
  intros Hnd Hpos. induction Hnd as [|b bs Hb Hnd IH]; [constructor|].
  cbn. constructor.
  - intros Hin. apply list_elem_of_fmap in Hin as (b' & E & Hb').
    apply format_bin_inj in E.
    + congruence.
    + apply Hpos, list_elem_of_here.
    + by apply Hpos, list_elem_of_further.
  - apply IH. intros b' Hb'. by apply Hpos, list_elem_of_further.
Qed.

(** What [ingest] returns: the bitstrings of the heavy outcomes and the sum
    of their probabilities. *)
Lemma ingest_spec (r : Result) (name : string) (depth : Z) (strings : list string) (p : R) :
  ingest r name depth = inr (strings, p) ->
  exists qstate,
    get_statevector r name = Some qstate /\ (0 <= depth)%Z /\
    strings = map (PyStr.format_bin depth) (heavy_outcomes depth qstate) /\
    p = Rsum (map (probability qstate) (heavy_outcomes depth qstate)).
Proof.
  unfold ingest. intros E.
  destruct (get_statevector r name) as [qstate|]; [|discriminate].
  destruct (Z.ltb_spec depth 0); [discriminate|].
  destruct (pmap_items _ _) as [kvs|] eqn:Ek; [|discriminate].
  apply pmap_items_spec in Ek.
  set (item := fun b => (PyStr.format_bin depth b, probability qstate b)) in *.
  assert (Hkeys : NoDup (PyDict.keys kvs)).
  { rewrite Ek. unfold PyDict.keys. rewrite map_map. cbn [item fst].
    apply bitstrings_NoDup; [apply NoDup_seqZ | intros b Hb; apply range_nonneg in Hb; lia]. }
  rewrite (comprehension_NoDup _ Hkeys) in E.
  assert (Hget : forall k v, (k, v) ∈ kvs -> PyDict.getitem k kvs = Some v).
  { intros k v. by apply getitem_elem. }
  unfold _heavy_strings, PyDict.keys in E. rewrite (heavy_strings_filter kvs kvs _ Hget) in E.
  injection E as <- <-. exists qstate. split; [reflexivity|]. split; [assumption|].
  assert (Hval : PyDict.values kvs = ideal_probabilities depth qstate).
  { rewrite Ek. unfold PyDict.values, ideal_probabilities. by rewrite map_map. }
  rewrite Hval.
  assert (Hf : List.filter (fun kv : string * R =>
                              Rgtb (snd kv) (Np.median (ideal_probabilities depth qstate))) kvs
               = map item (heavy_outcomes depth qstate)).
  { rewrite Ek. apply filter_map_comm. }
  split.
  - rewrite Hf, map_map. reflexivity.
  - unfold _subset_probability. rewrite py_sum_R.
    cbn [py_get PyMapping_dict py_zero PyNum_R].
    rewrite get_values.
    + rewrite Hf, map_map. reflexivity.
    + intros k v Hin. apply Hget. apply list_elem_of_In in Hin.
      apply filter_In in Hin as [Hin _]. by apply list_elem_of_In.
Qed.

(** C2. After a call of [add_statevectors] that ends normally, every circuit
    of the call has a depth [d >= 0] in its name and a statevector, and the
    fitter holds for its name: as heavy set, without repetition, exactly the
    [d]-character bitstrings of the outcomes [b] in [0 .. 2^d - 1] whose
    probability is strictly greater than the median of the [2^d]
    probabilities; and as ideal heavy-output probability the sum of the
    probabilities of the bitstrings of that heavy set (exactly, hence within
    1e-9). *)
Theorem add_statevectors_heavy_set (s s' : QVFitter) (arg : ResultArg)
    (r : Result) (c : ExperimentResult) :
  add_statevectors arg s = (s', Ok tt) ->
  r ∈ as_list arg -> c ∈ results r ->
  exists (depth : Z) (qstate : list complex) (strings : list string) (p : R),
    depth_of (header_name c) = Some depth /\ (0 <= depth)%Z /\
    get_statevector r (header_name c) = Some qstate /\
    _heavy_outputs s' !! header_name c = Some strings /\
    _heavy_output_prob_ideal s' !! header_name c = Some p /\
    length (ideal_probabilities depth qstate) = Z.to_nat (2 ^ depth) /\
    (forall x, x ∈ strings <->
       exists b, (0 <= b < 2 ^ depth)%Z /\ x = PyStr.format_bin depth b /\
                 probability qstate b > Np.median (ideal_probabilities depth qstate)) /\
    NoDup strings /\
    p = Rsum (map (fun x => probability qstate (bin_value 0 x)) strings) /\
    Rabs (p - Rsum (map (fun x => probability qstate (bin_value 0 x)) strings)) <= 1e-9.
Proof.
  intros E Hr Hc. rewrite add_statevectors_unfold in E.
  apply add_statevectors_loop_Ok in E as (_ & _ & _ & Hall).
  destruct (Hall r c) as (depth & strings & p & Hd & Hi & Hh & Hp).
  { by apply elem_of_circuits. }
  apply ingest_spec in Hi as (qstate & Hq & Hdepth & -> & ->).
  exists depth, qstate, (map (PyStr.format_bin depth) (heavy_outcomes depth qstate)),
    (Rsum (map (probability qstate) (heavy_outcomes depth qstate))).
  assert (Hsum : map (probability qstate) (heavy_outcomes depth qstate) =
                 map (fun x => probability qstate (bin_value 0 x))
                     (map (PyStr.format_bin depth) (heavy_outcomes depth qstate))).
  { rewrite map_map. apply map_ext_in. intros b Hb.
    rewrite bin_value_format_bin; [reflexivity|].
    apply filter_In in Hb as [Hb _]. apply list_elem_of_In, range_nonneg in Hb. lia. }
  repeat (split; [first [assumption | reflexivity]|]).
  split; [|split; [|split; [|split]]].
  - unfold ideal_probabilities, range. rewrite length_map, length_seqZ. reflexivity.
  - intros x. rewrite list_elem_of_fmap. unfold heavy_outcomes. split.
    + intros (b & -> & Hb). apply list_elem_of_In, filter_In in Hb as [Hb Hgt].
      apply list_elem_of_In, range_nonneg in Hb. apply Rgtb_true in Hgt. eauto.
    + intros (b & Hb & -> & Hgt). exists b. split; [reflexivity|].
      apply list_elem_of_In, filter_In. split.
      * apply list_elem_of_In. unfold range. apply elem_of_seqZ. lia.
      * by apply Rgtb_true.
  - apply bitstrings_NoDup.
    + unfold heavy_outcomes. apply NoDup_ListNoDup, List.NoDup_filter, NoDup_ListNoDup, NoDup_seqZ.
    + intros b Hb. apply list_elem_of_In, filter_In in Hb as [Hb _].
      apply list_elem_of_In, range_nonneg in Hb. lia.
  - by rewrite <- Hsum.
  - rewrite <- Hsum, Rminus_diag, Rabs_R0. lra.
Qed.

(* ===================================================================== *)
(** ** A worked scenario: one two-qubit circuit, one trial *)
(* ===================================================================== *)

Lemma qv_success_is_verdict_witness :
  exists l,
    qv_success (fun x => x) (set_ydata [[0.7]; [0.1]; [0.72]; [0.1]] scenario_fitter)
      = (set_ydata [[0.7]; [0.1]; [0.72]; [0.1]] scenario_fitter, Ok l) /\
    length l = 1%nat.
Proof.
  destruct (qv_success_is_verdict (fun x => x)
              (set_ydata [[0.7]; [0.1]; [0.72]; [0.1]] scenario_fitter)
              [0.7] [0.1] [[0.72]; [0.1]] eq_refl)
    as (l & E & Hl & _); [cbn; lia | cbn; lia |].
  exists l. split; [exact E | exact Hl].
Defined.

Lemma add_statevectors_heavy_set_witness :
  exists s' strings,
    add_statevectors (ArgOne ideal_batch) fresh_fitter = (s', Ok tt) /\
    _heavy_outputs s' !! scenario_name = Some strings /\ NoDup strings.
Proof.
  eexists. 
  destruct (add_statevectors_heavy_set fresh_fitter _ (ArgOne ideal_batch) ideal_batch
              {| header_name := scenario_name |} eq_refl)
    as (depth & qstate & strings & p & _ & _ & _ & Hh & _ & _ & _ & Hnd & _).
  - apply list_elem_of_here.
  - apply list_elem_of_here.
  - exists strings. split; [reflexivity|]. split; [exact Hh | exact Hnd].
Defined.

Lemma scenario_tabulated (d : Z) (t : nat) :
  d ∈ _depths scenario_fitter -> (t < Z.to_nat (_ntrials scenario_fitter))%nat ->
  tabulated scenario_fitter d t.
Proof.
  intros Hd Ht. apply list_elem_of_singleton in Hd as ->.
  destruct t as [|t]; [|cbn in Ht; lia].
  repeat split; eexists; reflexivity.
Defined.

Lemma calc_statistics_values_witness :
  exists r0 r1 r2 r3 : list R,
    calc_statistics scenario_fitter
      = (set_ydata [r0; r1; r2; r3] scenario_fitter, Ok tt) /\
    r0 !! 0%nat = Some (IZR 70 / IZR 100) /\
    r2 !! 0%nat = Some ((0.72 + 0) / IZR 1).
Proof.
  destruct (calc_statistics_values scenario_fitter ltac:(cbn; lia) scenario_tabulated)
    as (r0 & r1 & r2 & r3 & E & Hrows).
  destruct (Hrows 0%nat 2%Z eq_refl) as (H0 & _ & H2 & _).
  exists r0, r1, r2, r3. split; [exact E|]. split; [exact H0 | exact H2].
Defined.

Lemma scenario_registered (d t : Z) :
  d ∈ _depths scenario_fitter -> (0 <= t < _ntrials scenario_fitter)%Z ->
  is_Some (_heavy_outputs scenario_fitter !! circ_name d t).
Proof.
  intros Hd Ht. apply list_elem_of_singleton in Hd as ->.
  assert (t = 0%Z) as -> by (cbn in Ht; lia).
  eexists; reflexivity.
Defined.

Lemma calc_data_merges_batches_witness :
  exists s',
    calc_data scenario_fitter = (s', Ok tt) /\
    _circ_shots s' !! scenario_name = Some 100%Z /\
    _heavy_output_counts s' !! scenario_name = Some 70%Z.
Proof.
  destruct (proj1 calc_data_merges_batches scenario_fitter 2%Z 0%Z scenario_registered)
    as (s' & merged & strings & E & _ & _ & _ & _).
  - apply list_elem_of_here.
  - cbn. lia.
  - exists s'. split; [exact E|].
    assert (Es : s' = fst (calc_data scenario_fitter)) by (rewrite E; reflexivity).
    rewrite Es. split; reflexivity.
Defined.

Lemma add_data_unregistered_fails_witness :
  exists s', add_data (ArgOne stray_batch) true fresh_fitter = (s', Raise ideal_must_be_loaded).
Proof.
  apply (add_data_unregistered_fails fresh_fitter (ArgOne stray_batch) true).
  - intros r c Hr Hc. apply list_elem_of_singleton in Hr as ->.
    apply list_elem_of_singleton in Hc as ->. eexists; reflexivity.
  - exists stray_batch, {| header_name := "qv_depth_2_trial_3" |}.
    split; [apply list_elem_of_here|]. split; [apply list_elem_of_here|].
    intros [x Hx]. discriminate.
Defined.

Lemma add_statevectors_duplicate_fails_witness :
  exists s' n,
    add_statevectors (ArgOne ideal_batch) scenario_fitter = (s', Raise (already_added n)).
Proof.
  destruct (proj1 add_statevectors_duplicate_fails scenario_fitter (ArgOne ideal_batch))
    as (s' & n & E & _).
  - intros r c Hr Hc. apply list_elem_of_singleton in Hr as ->.
    apply list_elem_of_singleton in Hc as ->.
    exists 2%Z. eexists. eexists. split; reflexivity.
  - left. exists ideal_batch, {| header_name := scenario_name |}.
    split; [apply list_elem_of_here|]. split; [apply list_elem_of_here|].
    eexists; reflexivity.
  - exists s', n. exact E.
Defined.

Lemma add_data_not_atomic_witness :
  exists pre r post,
    [stray_batch] = pre ++ r :: post /\
    [stray_batch] = pre ++ [r].
Proof.
  destruct (proj1 add_data_not_atomic fresh_fitter
              (set_ntrials 4 (set_result_list [stray_batch] fresh_fitter))
              (ArgOne stray_batch) true eq_refl)
    as (pre & r & post & Hl & Hrl & _).
  exists pre, r, post. split; [exact Hl | exact Hrl].
Defined.

Lemma calc_data_needs_every_heavy_set_witness :
  exists s', calc_data scenario_fitter = (s', Ok tt).
Proof.
  apply (proj1 (calc_data_needs_every_heavy_set scenario_fitter)).
  exact scenario_registered.
Defined.

Lemma scenario_probability (b : Z) (re im : R) :
  scenario_qstate !! Z.to_nat b = Some (re, im) ->
  probability scenario_qstate b = re * re + im * im.
Proof.
  intros E. unfold probability. unfold complex in *. rewrite E.
  unfold multiply, conjugate, real. cbn [fmap option_fmap option_map default fst snd].
  unfold Datatypes.id. lra.
Qed.

Lemma scenario_probabilities :
  ideal_probabilities 2 scenario_qstate = [0.4; 0.32; 0.18; 0.1].
Proof.
  unfold ideal_probabilities. change (range (2 ^ 2)) with [0; 1; 2; 3]%Z.
  cbn [map].
  rewrite (scenario_probability 0 0.6 0.2 eq_refl), (scenario_probability 1 0.4 0.4 eq_refl),
    (scenario_probability 2 0.3 0.3 eq_refl), (scenario_probability 3 0.3 0.1 eq_refl).
  repeat (apply (f_equal2 cons); [lra|]). reflexivity.
Qed.

Lemma scenario_median : Np.median [0.4; 0.32; 0.18; 0.1] = 0.25.
Proof.
  unfold Np.median, Np.sort. cbn [fold_right Np.insert_sorted].
  repeat (destruct (Rle_dec _ _); try lra; cbn [Np.insert_sorted]).
  cbn. lra.
Qed.

Lemma scenario_heavy_outcomes : heavy_outcomes 2 scenario_qstate = [0; 1]%Z.
Proof.
  unfold heavy_outcomes. rewrite scenario_probabilities, scenario_median.
  change (range (2 ^ 2)) with [0; 1; 2; 3]%Z. cbn [List.filter].
  rewrite (scenario_probability 0 0.6 0.2 eq_refl), (scenario_probability 1 0.4 0.4 eq_refl),
    (scenario_probability 2 0.3 0.3 eq_refl), (scenario_probability 3 0.3 0.1 eq_refl).
  rewrite !(proj2 (Rgtb_true _ _)) by lra.
  rewrite !(proj2 (Rgtb_false _ _)) by lra.
  reflexivity.
Qed.

(** The registration of the scenario: median 0.25, heavy set {"00", "01"},
    ideal heavy-output probability 0.72. *)
Example scenario_registration :
  exists s1 p,
    add_statevectors (ArgOne ideal_batch) fresh_fitter = (s1, Ok tt) /\
    _heavy_outputs s1 !! scenario_name = Some ["00"; "01"] /\
    _heavy_output_prob_ideal s1 !! scenario_name = Some p /\ p = 0.72.
Proof.
  destruct (add_statevectors (ArgOne ideal_batch) fresh_fitter) as [s1 o] eqn:E.
  assert (Eo : o = Ok tt) by (apply (f_equal snd) in E; symmetry; exact E).
  subst o. rewrite add_statevectors_unfold in E.
  apply add_statevectors_loop_Ok in E as (_ & _ & _ & Hall).
  destruct (Hall ideal_batch {| header_name := scenario_name |})
    as (depth & strings & p & Hd & Hi & Hh & Hp); [apply list_elem_of_here|].
  change (depth_of _) with (Some 2%Z) in Hd. injection Hd as <-.
  cbn [header_name] in Hi, Hh, Hp. apply ingest_spec in Hi as (q & Hq & _ & -> & ->).
  injection Hq as <-. fold scenario_qstate in *. rewrite scenario_heavy_outcomes in *.
  exists s1, (Rsum (map (probability scenario_qstate) [0; 1]%Z)).
  split; [reflexivity|]. split; [exact Hh|]. split; [exact Hp|].
  cbn [map Rsum fold_right].
  rewrite (scenario_probability 0 0.6 0.2 eq_refl), (scenario_probability 1 0.4 0.4 eq_refl).
  lra.
Qed.

(** Adding the counts and aggregating: 100 shots, 70 of them heavy. *)
Example scenario_aggregation :
  (add_data (ArgOne counts_batch) false ;; calc_data)
    (mkQVFitter [[0; 1]%Z] [2%Z] 0%Z [] ∅ ∅ {[scenario_name := 0.72]} []
                {[scenario_name := ["00"; "01"]]})
  = (scenario_fitter, Ok tt).
Proof. reflexivity. Qed.

(** A name without the prefix has no depth in its third field: the first
    registration already fails, with the [ValueError] of [int('trial')]. *)
Example unprefixed_name_is_rejected :
  add_statevectors (ArgOne (statevector_result [("depth_2_trial_0", scenario_qstate)]))
    fresh_fitter
  = (fresh_fitter, Raise ValueError).
Proof. reflexivity. Qed.

(* ===================================================================== *)
(** * Further properties of the code *)
(* ===================================================================== *)

(* ===================================================================== *)
(** ** The Pauli matrices are projectors *)
(* ===================================================================== *)

Ltac matrix_entries :=
  cbv [projector dagger trace mat_mul mat_add entry length map seq nth
       zip_with Csum fold_right Cadd Czero Cone multiply conjugate fst snd
       identity2 zero2];
  repeat first [ split | apply (f_equal2 cons) | apply (f_equal2 pair) | reflexivity | lra ].

Lemma preparation_matrix_cases (label : string) (m : matrix) :
  pauli_preparation_matrix label = Some m ->
  m = [[(0.5, 0); (0.5, 0)]; [(0.5, 0); (0.5, 0)]] \/
  m = [[(0.5, 0); (-0.5, 0)]; [(-0.5, 0); (0.5, 0)]] \/
  m = [[(0.5, 0); (0, -0.5)]; [(0, 0.5); (0.5, 0)]] \/
  m = [[(0.5, 0); (0, 0.5)]; [(0, -0.5); (0.5, 0)]] \/
  m = [[(1, 0); (0, 0)]; [(0, 0); (0, 0)]] \/
  m = [[(0, 0); (0, 0)]; [(0, 0); (1, 0)]].
Proof.
  unfold pauli_preparation_matrix.
  repeat (destruct (String.eqb label _); [intros [= <-]; tauto|]).
  discriminate.
Qed.

Lemma preparation_matrix_projector (label : string) (m : matrix) :
  pauli_preparation_matrix label = Some m -> projector m.
Proof.
  intros H. apply preparation_matrix_cases in H.
  destruct H as [->|[->|[->|[->|[->| ->]]]]]; matrix_entries.
Qed.

Lemma measurement_matrix_cases (label : string) (outcome : pyval) (m : matrix) :
  pauli_measurement_matrix label outcome = Some m ->
  exists eigenstate, pauli_preparation_matrix eigenstate = Some m.
Proof.
  unfold pauli_measurement_matrix.
  repeat match goal with
  | |- context [if ?b then _ else _] => destruct b; [eauto|]
  end.
  discriminate.
Qed.

(** X1. Every matrix the two tables return is a projector of rank one: it
    is Hermitian, has trace 1 and is its own square. *)
Theorem pauli_matrices_are_projectors :
  (forall label m, pauli_preparation_matrix label = Some m -> projector m) /\
  (forall label outcome m, pauli_measurement_matrix label outcome = Some m -> projector m).
Proof.
  split.
  - apply preparation_matrix_projector.
  - intros label outcome m H. apply measurement_matrix_cases in H as [e He].
    eapply preparation_matrix_projector, He.
Qed.

Lemma pauli_matrices_are_projectors_witness :
  projector [[(0.5, 0); (0, -0.5)]; [(0, 0.5); (0.5, 0)]].
Proof.
  apply (proj2 pauli_matrices_are_projectors "Y" (PyString "0")). reflexivity.
Defined.

(** X2. For each of the operators 'X', 'Y' and 'Z' the matrices of the
    outcomes 0 and 1 add up to the identity and their product is zero. *)
Theorem pauli_measurement_is_complete (label : string) :
  label ∈ measurement_labels ->
  exists m0 m1,
    pauli_measurement_matrix label (PyInt 0) = Some m0 /\
    pauli_measurement_matrix label (PyInt 1) = Some m1 /\
    mat_add m0 m1 = identity2 /\
    mat_mul m0 m1 = zero2 /\ mat_mul m1 m0 = zero2.
Proof.
  unfold measurement_labels. rewrite !elem_of_cons, elem_of_nil.
  intros [->|[->|[->|[]]]]; eexists; eexists;
    (split; [reflexivity|]); (split; [reflexivity|]); matrix_entries.
Qed.

Lemma pauli_measurement_is_complete_witness :
  exists m0 m1,
    pauli_measurement_matrix "Y" (PyInt 0) = Some m0 /\
    pauli_measurement_matrix "Y" (PyInt 1) = Some m1 /\
    mat_add m0 m1 = identity2.
Proof.
  destruct (pauli_measurement_is_complete "Y") as (m0 & m1 & H0 & H1 & Hs & _).
  - apply list_elem_of_further, list_elem_of_here.
  - exists m0, m1. auto.
Defined.

(* ===================================================================== *)
(** ** The Pauli circuits *)
(* ===================================================================== *)

(** X3. [pauli_measurement_circuit] for 'X', 'Y' or 'Z' is a circuit on the
    registers of the two bits that applies gates to the qubit and ends with
    the one measurement of the qubit into the classical bit; for every other
    operator it is the empty circuit: nothing is measured and nothing is
    raised. *)
Theorem pauli_measurement_circuit_shape (op : string) (qubit clbit : bit) :
  let circ := pauli_measurement_circuit op qubit clbit in
  QuantumCircuit.qregs circ = [fst qubit] /\
  QuantumCircuit.cregs circ = [fst clbit] /\
  (op ∈ measurement_labels ->
     exists gates,
       QuantumCircuit.data circ = gates ++ [QuantumCircuit.Measure qubit clbit] /\
       Forall (gate_on qubit) gates) /\
  (op ∉ measurement_labels -> QuantumCircuit.data circ = []).
Proof.
  cbn zeta. unfold pauli_measurement_circuit.
  destruct (eqb_X_Y_Z op) as [HX HY].
  rewrite measurement_label_eqb.
  destruct (String.eqb op "X") eqn:EX.
  - destruct (HX eq_refl) as [-> ->]. repeat split; [|intros Hn; exfalso; apply Hn; auto].
    intros _. exists [QuantumCircuit.Hgate qubit]. split; [reflexivity|].
    repeat constructor.
  - destruct (String.eqb op "Y") eqn:EY.
    + rewrite (HY eq_refl). repeat split; [|intros Hn; exfalso; apply Hn; auto].
      intros _. exists [QuantumCircuit.Sdggate qubit; QuantumCircuit.Hgate qubit].
      split; [reflexivity|]. repeat constructor.
    + destruct (String.eqb op "Z") eqn:EZ.
      * repeat split; [|intros Hn; exfalso; apply Hn; auto].
        intros _. exists []. split; [reflexivity | constructor].
      * repeat split. intros [?|[?|?]]; discriminate.
Qed.

Lemma pauli_measurement_circuit_shape_witness :
  QuantumCircuit.data (pauli_measurement_circuit "H" ("q", 0%Z) ("c", 0%Z)) = [].
Proof.
  apply (pauli_measurement_circuit_shape "H" ("q", 0%Z) ("c", 0%Z)).
  intros H. apply measurement_label_eqb in H as [H|[H|H]]; discriminate.
Defined.

Lemma preparation_label_cases (op : string) :
  op = "Xp" \/ op = "Xm" \/ op = "Yp" \/ op = "Ym" \/ op = "Zm" \/
  (String.eqb op "Xp" = false /\ String.eqb op "Xm" = false /\
   String.eqb op "Yp" = false /\ String.eqb op "Ym" = false /\
   String.eqb op "Zm" = false).
Proof.
  destruct (eqb_cases op "Xp") as [[_ ->]|[-> _]]; [tauto|].
  destruct (eqb_cases op "Xm") as [[_ ->]|[-> _]]; [tauto|].
  destruct (eqb_cases op "Yp") as [[_ ->]|[-> _]]; [tauto|].
  destruct (eqb_cases op "Ym") as [[_ ->]|[-> _]]; [tauto|].
  destruct (eqb_cases op "Zm") as [[_ ->]|[-> _]]; tauto.
Qed.

(** X4. [pauli_preparation_circuit] is a circuit on the register of the
    qubit alone, made of gates on that qubit and never a measurement; for
    every label other than 'Xp', 'Xm', 'Yp', 'Ym' and 'Zm' (so for 'Zp', and
    for an unknown label as well) it is the empty circuit. *)
Theorem pauli_preparation_circuit_shape (op : string) (qubit : bit) :
  let circ := pauli_preparation_circuit op qubit in
  QuantumCircuit.qregs circ = [fst qubit] /\
  QuantumCircuit.cregs circ = [] /\
  Forall (gate_on qubit) (QuantumCircuit.data circ) /\
  (op ∉ ["Xp"; "Xm"; "Yp"; "Ym"; "Zm"] -> QuantumCircuit.data circ = []).
Proof.
  cbn zeta.
  destruct (preparation_label_cases op)
    as [->|[->|[->|[->|[->|(E1 & E2 & E3 & E4 & E5)]]]]];
    try (repeat split; [repeat constructor | intros Hn; exfalso; apply Hn; set_solver]).
  unfold pauli_preparation_circuit. rewrite E1, E2, E3, E4, E5.
  repeat split. constructor.
Qed.

Lemma pauli_preparation_circuit_shape_witness :
  QuantumCircuit.data (pauli_preparation_circuit "Zp" ("q", 0%Z)) = [].
Proof.
  apply (pauli_preparation_circuit_shape "Zp" ("q", 0%Z)).
  intros H. repeat (apply elem_of_cons in H as [H|H]; [discriminate|]).
  by apply elem_of_nil in H.
Defined.

Lemma inv_sqrt2_sqr : / sqrt 2 * / sqrt 2 = 0.5.
Proof.
  assert (H2 : sqrt 2 * sqrt 2 = 2) by (apply sqrt_sqrt; lra).
  assert (Hpos : 0 < sqrt 2) by (apply sqrt_lt_R0; lra).
  rewrite <- Rinv_mult, H2. lra.
Qed.

Lemma norm_scaled (k a b : R) :
  k * a * (k * a) - k * b * - (k * b) = k * k * (a * a + b * b).
Proof. ring. Qed.

Ltac circuit_data :=
  unfold run_circuit;
  match goal with
  | |- context [QuantumCircuit.data ?c] =>
      let d := eval cbv in (QuantumCircuit.data c) in
      change (QuantumCircuit.data c) with d
  end.

Ltac amplitudes_entries :=
  circuit_data;
  cbv [density run_circuit fold_left apply_instruction QuantumCircuit.data
       pauli_preparation_circuit pauli_measurement_circuit
       QuantumCircuit.h QuantumCircuit.x QuantumCircuit.s QuantumCircuit.sdg
       QuantumCircuit.measure QuantumCircuit.append app
       Cscale Cadd Cneg Ctimes_i Cone Czero Csum multiply conjugate real
       outcome_probability expectation entry nth map seq fold_right fst snd];
  pose proof inv_sqrt2_sqr;
  generalize dependent (/ sqrt 2); intros k Hk.

(** X5. Run on the qubit in the state [(1, 0)], the preparation circuit of
    a label of the table prepares the pure state whose density matrix is the
    matrix the table holds for that label. *)
Theorem pauli_preparation_circuit_prepares (label : string) (qubit : bit) (m : matrix) :
  pauli_preparation_matrix label = Some m ->
  density (run_circuit (pauli_preparation_circuit label qubit) (Cone, Czero)) = m.
Proof.
  intros H.
  assert (Hl : label ∈ preparation_labels) by (apply preparation_matrix_is_Some; eauto).
  unfold preparation_labels in Hl. rewrite !elem_of_cons, elem_of_nil in Hl.
  destruct Hl as [->|[->|[->|[->|[->|[->|[]]]]]]]; injection H as <-;
    amplitudes_entries;
    repeat first [ apply (f_equal2 cons) | apply (f_equal2 pair) | reflexivity | nra ].
Qed.

Lemma pauli_preparation_circuit_prepares_witness :
  density (run_circuit (pauli_preparation_circuit "Ym" ("q", 0%Z)) (Cone, Czero))
  = [[(0.5, 0); (0, 0.5)]; [(0, -0.5); (0.5, 0)]].
Proof.
  apply (pauli_preparation_circuit_prepares "Ym" ("q", 0%Z)). reflexivity.
Defined.

(** X6. For 'X', 'Y' and 'Z' and any state of the qubit, the probability of
    reading the outcome off the qubit after the gates of the measurement
    circuit is the expectation of the matrix the table holds for that
    operator and outcome. *)
Theorem pauli_measurement_circuit_born_rule (label : string) (qubit clbit : bit)
    (k : bool) (m : matrix) (psi : amplitudes) :
  pauli_measurement_matrix label (PyInt (if k then 1 else 0)) = Some m ->
  (outcome_probability k (run_circuit (pauli_measurement_circuit label qubit clbit) psi), 0)
  = expectation m psi.
Proof.
  intros H.
  assert (Hl : label ∈ measurement_labels).
  { destruct (decide (label ∈ measurement_labels)) as [|Hn]; [assumption|].
    exfalso. rewrite measurement_label_eqb in Hn. unfold pauli_measurement_matrix in H.
    destruct (String.eqb label "X"), (String.eqb label "Y"), (String.eqb label "Z");
      try (apply Hn; auto; fail); destruct k; discriminate. }
  unfold measurement_labels in Hl. rewrite !elem_of_cons, elem_of_nil in Hl.
  destruct psi as [[ar ai] [br bi]].
  destruct Hl as [->|[->|[->|[]]]]; destruct k; injection H as <-;
    amplitudes_entries; apply (f_equal2 pair);
    rewrite ?norm_scaled, ?Hk; nra.
Qed.

Lemma pauli_measurement_circuit_born_rule_witness :
  (outcome_probability false
     (run_circuit (pauli_measurement_circuit "X" ("q", 0%Z) ("c", 0%Z)) (Cone, Czero)), 0)
  = expectation [[(0.5, 0); (0.5, 0)]; [(0.5, 0); (0.5, 0)]] (Cone, Czero).
Proof.
  apply (pauli_measurement_circuit_born_rule "X" ("q", 0%Z) ("c", 0%Z) false).
  reflexivity.
Defined.

(* ===================================================================== *)
(** ** Circuit names are read back *)
(* ===================================================================== *)

Lemma split_free (sep : ascii) (a : string) :
  free_of sep a -> PyStr.split sep a = [a].
Proof.
  induction a as [|c a IH]; intros Hf; [reflexivity|].
  destruct Hf as [Hc Hf]. cbn [PyStr.split]. rewrite Hc, (IH Hf). reflexivity.
Qed.

Lemma split_app (sep : ascii) (a b : string) :
  free_of sep a ->
  PyStr.split sep (a +:+ String sep b) = a :: PyStr.split sep b.
Proof.
  induction a as [|c a IH]; intros Hf.
  - change ("" +:+ String sep b) with (String sep b). cbn [PyStr.split].
    rewrite Ascii.eqb_refl. reflexivity.
  - destruct Hf as [Hc Hf].
    change (String c a +:+ String sep b) with (String c (a +:+ String sep b)).
    cbn [PyStr.split]. rewrite Hc, (IH Hf). reflexivity.
Qed.

Lemma digit_not_space (c : ascii) :
  is_Some (PyStr.digit_of c) -> PyStr.is_space c = false.
Proof.
  unfold PyStr.digit_of, PyStr.is_space. intros [d Hd].
  destruct (Nat.leb_spec 48 (nat_of_ascii c)); [|discriminate].
  destruct (Nat.leb_spec (nat_of_ascii c) 57); [|discriminate].
  destruct (Nat.eqb_spec (nat_of_ascii c) 32); [lia|].
  destruct (Nat.leb_spec (nat_of_ascii c) 13); [lia|].
  destruct (Nat.leb_spec (nat_of_ascii c) 31); [lia|].
  rewrite !andb_false_r. reflexivity.
Qed.

Lemma digit_not_underscore (c : ascii) :
  is_Some (PyStr.digit_of c) -> Ascii.eqb c "_" = false.
Proof.
  intros [d Hd]. destruct (Ascii.eqb_spec c "_") as [->|]; [discriminate | reflexivity].
Qed.

Lemma all_digits_free (s : string) : all_digits s -> free_of "_" s.
Proof.
  induction s as [|c s IH]; [auto|]. intros [Hc Hs].
  split; [by apply digit_not_underscore | auto].
Qed.

Lemma all_digits_uint (d : Decimal.uint) : all_digits (NilEmpty.string_of_uint d).
Proof. induction d; cbn; (split; [eexists; reflexivity | assumption]) || exact I. Qed.

Lemma rstrip_digits (s : string) : all_digits s -> PyStr.rstrip s = s.
Proof.
  induction s as [|c s IH]; [reflexivity|]. intros [Hc Hs].
  cbn. rewrite (IH Hs), (digit_not_space c Hc). destruct s; reflexivity.
Qed.

Lemma digits_uint_acc (d : Decimal.uint) (acc : positive) :
  PyStr.digits (Z.pos acc) (NilEmpty.string_of_uint d)
  = Some (Z.pos (Pos.of_uint_acc d acc)).
Proof.
  revert acc. induction d; intros acc; [reflexivity|..];
    cbn [NilEmpty.string_of_uint PyStr.digits Pos.of_uint_acc];
    match goal with
    | |- context [PyStr.digit_of ?c] =>
        let v := eval cbv in (PyStr.digit_of c) in change (PyStr.digit_of c) with v
    end; cbv iota;
    match goal with
    | |- PyStr.digits ?z _ = Some (Z.pos (Pos.of_uint_acc _ ?p)) =>
        replace z with (Z.pos p) by lia
    end; apply IHd.
Qed.

Lemma digits_uint (d : Decimal.uint) :
  PyStr.digits 0 (NilEmpty.string_of_uint d) = Some (Z.of_N (Pos.of_uint d)).
Proof.
  induction d; [reflexivity|exact IHd|..];
    cbn [NilEmpty.string_of_uint PyStr.digits Pos.of_uint];
    match goal with
    | |- context [PyStr.digit_of ?c] =>
        let v := eval cbv in (PyStr.digit_of c) in change (PyStr.digit_of c) with v
    end; cbv iota; apply (digits_uint_acc d).
Qed.

Lemma int_of_digits (s : string) (z : Z) :
  all_digits s -> s <> EmptyString -> PyStr.digits 0 s = Some z ->
  PyStr.int s = Some z /\ PyStr.int (String "-" s) = Some (- z)%Z.
Proof.
  intros Hd Hne Hz. unfold PyStr.int. split.
  - destruct s as [|c s]; [congruence|]. destruct Hd as [Hc Hs].
    assert (Hl : PyStr.lstrip (String c s) = String c s)
      by (cbn; rewrite (digit_not_space c Hc); reflexivity).
    rewrite Hl, rstrip_digits by (split; assumption).
    destruct (Ascii.eqb_spec c "+") as [->|Hplus]; [destruct Hc; discriminate|].
    destruct (Ascii.eqb_spec c "-") as [->|Hminus]; [destruct Hc; discriminate|].
    assert (Hu : PyStr.unsigned (String c s) = Some z) by exact Hz.
    rewrite <- Hu.
    destruct c as [[] [] [] [] [] [] [] []]; try reflexivity; congruence.
  - change (PyStr.lstrip (String "-" s)) with (String "-"%char s).
    assert (Hr : PyStr.rstrip (String "-" s) = String "-" s).
    { cbn. rewrite (rstrip_digits s Hd). destruct s; [congruence | reflexivity]. }
    rewrite Hr. destruct s; [congruence|]. cbn [PyStr.unsigned]. rewrite Hz. reflexivity.
Qed.

Lemma string_of_uint_nonempty (d : Decimal.uint) :
  d <> Decimal.Nil -> NilEmpty.string_of_uint d <> EmptyString.
Proof. destruct d; [congruence | discriminate..]. Qed.

(** ['%d' % z] is read back by [int]. *)
Lemma int_fmt_d (z : Z) : PyStr.int (PyStr.fmt_d z) = Some z.
Proof.
  unfold PyStr.fmt_d. destruct z as [|p|p]; [reflexivity|..];
    cbn [Z.to_int NilZero.string_of_int NilZero.string_of_uint];
    pose proof (DecimalPos.Unsigned.to_uint_nonnil p) as Hnn;
    pose proof (digits_uint (Pos.to_uint p)) as Hd;
    rewrite DecimalPos.Unsigned.of_to in Hd; cbn [Z.of_N] in Hd;
    destruct (int_of_digits _ _ (all_digits_uint (Pos.to_uint p))
                (string_of_uint_nonempty _ Hnn) Hd) as [Hpos Hneg];
    destruct (Pos.to_uint p) eqn:E; try congruence; assumption.
Qed.

Lemma fmt_d_free (z : Z) : free_of "_" (PyStr.fmt_d z).
Proof.
  unfold PyStr.fmt_d. destruct z as [|p|p]; [cbn; auto|..];
    cbn [Z.to_int NilZero.string_of_int NilZero.string_of_uint];
    pose proof (all_digits_free _ (all_digits_uint (Pos.to_uint p))) as Hf;
    destruct (Pos.to_uint p); cbn in *; auto.
Qed.

Lemma split_circ_name (depth trialidx : Z) :
  PyStr.split "_" (circ_name depth trialidx)
  = ["qv"; "depth"; PyStr.fmt_d depth; "trial"; PyStr.fmt_d trialidx].
Proof.
  unfold circ_name.
  change ("qv_depth_" +:+ PyStr.fmt_d depth +:+ "_trial_" +:+ PyStr.fmt_d trialidx)
    with ("qv" +:+ String "_" ("depth" +:+ String "_"
            (PyStr.fmt_d depth +:+ String "_" ("trial" +:+ String "_"
               (PyStr.fmt_d trialidx))))).
  rewrite !split_app, split_free;
    first [reflexivity | apply fmt_d_free | cbn; auto 10].
Qed.

Lemma depth_of_circ_name (depth trialidx : Z) :
  depth_of (circ_name depth trialidx) = Some depth.
Proof. unfold depth_of. rewrite split_circ_name. cbn. apply int_fmt_d. Qed.

Lemma trial_of_circ_name (depth trialidx : Z) :
  trial_of (circ_name depth trialidx) = Some trialidx.
Proof. unfold trial_of. rewrite split_circ_name. cbn. apply int_fmt_d. Qed.

(** X7. The name [calc_data] and [calc_statistics] build for a depth and a
    trial index is read back by the two ingestion methods: its third field
    is the depth for [add_statevectors] and its last field the trial index
    for [add_data]; hence two different pairs never share a name. *)
Theorem circ_name_round_trip (depth trialidx depth' trialidx' : Z) :
  (PyStr.split "_" (circ_name depth trialidx) !! 2%nat) ≫= PyStr.int = Some depth /\
  last (PyStr.split "_" (circ_name depth trialidx)) ≫= PyStr.int = Some trialidx /\
  (circ_name depth trialidx = circ_name depth' trialidx' ->
   depth = depth' /\ trialidx = trialidx').
Proof.
  split; [apply depth_of_circ_name|]. split; [apply trial_of_circ_name|].
  intros E. split.
  - pose proof (depth_of_circ_name depth trialidx) as H.
    rewrite E, depth_of_circ_name in H. congruence.
  - pose proof (trial_of_circ_name depth trialidx) as H.
    rewrite E, trial_of_circ_name in H. congruence.
Qed.

Lemma circ_name_round_trip_witness :
  (PyStr.split "_" (circ_name 2 0) !! 2%nat) ≫= PyStr.int = Some 2%Z /\
  last (PyStr.split "_" (circ_name 2 0)) ≫= PyStr.int = Some 0%Z.
Proof.
  destruct (circ_name_round_trip 2 0 2 0) as (H1 & H2 & _). split; assumption.
Defined.

(* ===================================================================== *)
(** ** The bitstrings of the outcomes *)
(* ===================================================================== *)

Lemma length_append (s t : string) :
  String.length (s +:+ t) = (String.length s + String.length t)%nat.
Proof.
  induction s as [|c s IH]; [reflexivity|].
  change (String c s +:+ t) with (String c (s +:+ t)).
  cbn [String.length]. by rewrite IH.
Qed.

Lemma length_bin_pos (p : positive) : String.length (PyStr.bin_pos p) = Pos.size_nat p.
Proof.
  induction p as [q IH|q IH|]; cbn [PyStr.bin_pos Pos.size_nat]; [| |reflexivity];
    rewrite length_append, IH; cbn; lia.
Qed.

Lemma size_nat_bound (p : positive) (n : nat) :
  (Z.pos p < 2 ^ Z.of_nat n)%Z -> (Pos.size_nat p <= n)%nat.
Proof.
  revert n. induction p as [q IH|q IH|]; intros [|n] Hp; cbn [Pos.size_nat];
    try (cbn in Hp; lia);
    try (rewrite Nat2Z.inj_succ, Z.pow_succ_r in Hp by lia;
         apply le_n_S, IH; lia).
Qed.

Lemma length_zeros (n : nat) : String.length (PyStr.zeros n) = n.
Proof. induction n as [|n IH]; [reflexivity|]. cbn. by rewrite IH. Qed.

Lemma length_zfill (width : Z) (s : string) :
  (String.length s <= Z.to_nat width)%nat ->
  String.length (PyStr.zfill width s) = Z.to_nat width.
Proof. intros H. unfold PyStr.zfill. rewrite length_append, length_zeros. lia. Qed.

(** X8. For a depth of at least 1, the format of [add_statevectors] gives
    every outcome below [2^depth] a bitstring of exactly [depth] characters,
    and different outcomes different bitstrings, so that no two outcomes
    share a key of the probability dictionary. *)
Theorem format_bin_fixed_width (depth b b' : Z) :
  (1 <= depth)%Z -> (0 <= b < 2 ^ depth)%Z -> (0 <= b' < 2 ^ depth)%Z ->
  String.length (PyStr.format_bin depth b) = Z.to_nat depth /\
  (PyStr.format_bin depth b = PyStr.format_bin depth b' -> b = b').
Proof.
  intros Hd Hb Hb'. split; [|apply format_bin_inj; lia].
  destruct b as [|p|p]; [| |lia]; cbn [PyStr.format_bin]; apply length_zfill.
  - cbn. lia.
  - rewrite length_bin_pos. apply size_nat_bound. rewrite Z2Nat.id; lia.
Qed.

Lemma format_bin_fixed_width_witness :
  String.length (PyStr.format_bin 3 5) = 3%nat.
Proof.
  apply (format_bin_fixed_width 3 5 5); lia.
Defined.

(* ===================================================================== *)
(** ** The outcomes of a registration *)
(* ===================================================================== *)

Lemma getitem_key {V} (k : string) (d : PyDict.t V) :
  k ∈ PyDict.keys d -> is_Some (PyDict.getitem k d).
Proof.
  induction d as [|[k' v'] d IH]; intros Hk; [by apply elem_of_nil in Hk|].
  cbn in *. destruct (String.eqb_spec k k'); [eauto|].
  apply elem_of_cons in Hk as [?|Hk]; [congruence | auto].
Qed.

Lemma filter_opt_total {A} (f : A -> option bool) (l : list A) :
  (forall x, x ∈ l -> is_Some (f x)) -> is_Some (filter_opt f l).
Proof.
  induction l as [|x l IH]; intros Hf; [eexists; reflexivity|].
  cbn. destruct (Hf x (list_elem_of_here _ _)) as [b ->].
  destruct IH as [r ->]; [intros y Hy; by apply Hf, list_elem_of_further|].
  eexists; reflexivity.
Qed.

(** [_heavy_strings] never raises: it looks up keys of the dictionary only. *)
Lemma heavy_strings_total (d : PyDict.t R) (m : R) : is_Some (_heavy_strings d m).
Proof.
  apply filter_opt_total. intros x Hx.
  destruct (getitem_key x d Hx) as [p ->]. eexists; reflexivity.
Qed.

Lemma pmap_items_is_Some (depth : Z) (qstate : list complex) :
  (0 <= depth)%Z ->
  is_Some (pmap_items depth (zip_with multiply qstate (map conjugate qstate))) <->
  (2 ^ depth <= Z.of_nat (length qstate))%Z.
Proof.
  intros Hd. unfold pmap_items. rewrite mapM_is_Some, Forall_forall.
  assert (Hpow : (0 < 2 ^ depth)%Z) by (apply Z.pow_pos_nonneg; lia).
  split.
  - intros Hall.
    destruct (Z.le_gt_cases (2 ^ depth) (Z.of_nat (length qstate))) as [|Hlt]; [assumption|].
    exfalso. destruct (Hall (Z.of_nat (length qstate))) as [y Hy].
    + unfold range. apply elem_of_seqZ. lia.
    + cbn in Hy. rewrite pvector_lookup, Nat2Z.id in Hy.
      rewrite (proj2 (lookup_ge_None qstate (length qstate)) (le_n _)) in Hy. discriminate.
  - intros Hlen b Hb. apply range_nonneg in Hb. cbn. rewrite pvector_lookup.
    destruct (proj2 (lookup_lt_is_Some qstate (Z.to_nat b)) ltac:(lia)) as [z ->].
    eexists; reflexivity.
Qed.

(** [ingest] succeeds exactly on a depth [d >= 0] and a statevector of at
    least [2^d] amplitudes, and otherwise tells why not. *)
Lemma ingest_outcome (r : Result) (name : string) (depth : Z) :
  match ingest r name depth with
  | inr (strings, p) =>
      exists qstate,
        get_statevector r name = Some qstate /\ (0 <= depth)%Z /\
        (2 ^ depth <= Z.of_nat (length qstate))%Z /\
        strings = map (PyStr.format_bin depth) (heavy_outcomes depth qstate) /\
        p = Rsum (map (probability qstate) (heavy_outcomes depth qstate))
  | inl e =>
      (e = no_statevector name /\ get_statevector r name = None) \/
      (e = TypeError /\ (depth < 0)%Z /\ is_Some (get_statevector r name)) \/
      (e = IndexError /\ (0 <= depth)%Z /\
       exists qstate, get_statevector r name = Some qstate /\
                      (Z.of_nat (length qstate) < 2 ^ depth)%Z)
  end.
Proof.
  destruct (ingest r name depth) as [e|[strings p]] eqn:E.
  - unfold ingest in E.
    destruct (get_statevector r name) as [qstate|]; [|injection E as <-; auto].
    destruct (Z.ltb_spec depth 0); [injection E as <-; eauto 6|].
    destruct (pmap_items _ _) as [kvs|] eqn:Ek.
    + destruct (heavy_strings_total (PyDict.comprehension kvs)
                  (Np.median (PyDict.values (PyDict.comprehension kvs)))) as [x Hx].
      rewrite Hx in E. discriminate.
    + injection E as <-. right. right. split; [reflexivity|]. split; [assumption|].
      exists qstate. split; [reflexivity|].
      destruct (Z.le_gt_cases (2 ^ depth) (Z.of_nat (length qstate))) as [Hle|]; [|lia].
      apply pmap_items_is_Some in Hle as [x Hx]; [congruence | assumption].
  - pose proof (ingest_spec _ _ _ _ _ E) as (qstate & Hq & Hd & Hs & Hp).
    exists qstate. repeat (split; [assumption|]). split; [|auto].
    apply pmap_items_is_Some; [assumption|].
    unfold ingest in E. rewrite Hq in E.
    destruct (Z.ltb_spec depth 0); [discriminate|].
    destruct (pmap_items _ _); [eauto | discriminate].
Qed.



(** A loop that raises has run normally over the elements before the one
    that raised. *)
Lemma for_Raise {A} (body : A -> M unit) (l : list A) (s s' : QVFitter) (e : exn) :
  for_ l body s = (s', Raise e) ->
  exists pre x post s1,
    l = pre ++ x :: post /\ for_ pre body s = (s1, Ok tt) /\ body x s1 = (s', Raise e).
Proof.
  revert s. induction l as [|x l IH]; intros s E; [discriminate|].
  cbn [for_] in E. unfold bind in E.
  destruct (body x s) as [s1 [[]|e1]] eqn:Ex.
  - destruct (IH _ E) as (pre & y & post & s2 & -> & Hpre & Hy).
    exists (x :: pre), y, post, s2. split; [reflexivity|]. split; [|exact Hy].
    cbn [for_]. unfold bind. rewrite Ex. exact Hpre.
  - injection E as <- <-. exists [], x, l, s. auto.
Qed.

Lemma add_statevectors_circ_Raise (r : Result) (c : ExperimentResult) (s s' : QVFitter)
    (e : exn) :
  add_statevectors_circ r c s = (s', Raise e) -> s' = s.
Proof.
  rewrite add_statevectors_circ_cases. cbn zeta.
  destruct (PyStr.split "_" (header_name c) !! 2%nat) as [field|]; [|congruence].
  destruct (PyStr.int field) as [depth|]; [|congruence].
  destruct (decide _); [congruence|].
  destruct (ingest _ _ _) as [?|[? ?]]; [congruence | discriminate].
Qed.

(** X10. [add_statevectors] is not atomic: when it raises, the circuits it
    went through before the one that raised stay registered, each with its
    heavy strings and its ideal heavy-output probability, the entries of all
    other names are as they were before the call, and the circuit that
    raised is rejected again by the fitter as it was left. *)
Theorem add_statevectors_keeps_prefix (arg : ResultArg) (s s' : QVFitter) (e : exn) :
  add_statevectors arg s = (s', Raise e) ->
  exists pre r c post,
    circuits (as_list arg) = pre ++ (r, c) :: post /\
    add_statevectors_circ r c s' = (s', Raise e) /\
    (forall r0 c0, (r0, c0) ∈ pre ->
       _heavy_outputs s !! header_name c0 = None /\
       exists depth strings p,
         depth_of (header_name c0) = Some depth /\
         ingest r0 (header_name c0) depth = inr (strings, p) /\
         _heavy_outputs s' !! header_name c0 = Some strings /\
         _heavy_output_prob_ideal s' !! header_name c0 = Some p) /\
    (forall n, n ∉ circuit_names pre ->
       _heavy_outputs s' !! n = _heavy_outputs s !! n /\
       _heavy_output_prob_ideal s' !! n = _heavy_output_prob_ideal s !! n).
Proof.
  rewrite add_statevectors_unfold. intros E.
  apply for_Raise in E as (pre & [r c] & post & s1 & Hl & Hpre & Hx).
  cbn [fst snd] in Hx. pose proof (add_statevectors_circ_Raise _ _ _ _ _ Hx) as ->.
  apply add_statevectors_loop_Ok in Hpre as (_ & Hnew & Hothers & Hall).
  exists pre, r, c, post. split; [exact Hl|]. split; [exact Hx|].
  split; [|exact Hothers].
  intros r0 c0 Hin. split; [|by apply Hall].
  apply Hnew. unfold circuit_names. apply list_elem_of_fmap.
  exists (r0, c0). auto.
Qed.

Lemma add_statevectors_keeps_prefix_witness :
  exists s' e,
    add_statevectors (ArgOne broken_batch) fresh_fitter = (s', Raise e) /\
    is_Some (_heavy_outputs s' !! scenario_name).
Proof.
  destruct (add_statevectors (ArgOne broken_batch) fresh_fitter) as [s' [[]|e]] eqn:E.
  - exfalso. rewrite add_statevectors_unfold in E.
    apply add_statevectors_loop_Ok in E as (_ & _ & _ & Hall).
    destruct (Hall broken_batch {| header_name := "qv_depth_x_trial_0" |})
      as (depth & _ & _ & Hd & _).
    + apply list_elem_of_further, list_elem_of_here.
    + vm_compute in Hd. discriminate.
  - exists s', e. split; [reflexivity|].
    destruct (add_statevectors_keeps_prefix _ _ _ _ E)
      as (pre & r & c & post & Hl & Hfail & Hpre & Hothers).
    change (circuits (as_list (ArgOne broken_batch)))
      with [(broken_batch, {| header_name := scenario_name |});
            (broken_batch, {| header_name := "qv_depth_x_trial_0" |})] in Hl.
    destruct pre as [|x [|y pre]].
    + exfalso. injection Hl as <- <- _.
      destruct (Hothers scenario_name) as [Hh _]; [apply not_elem_of_nil|].
      rewrite add_statevectors_circ_cases in Hfail. cbn zeta in Hfail.
      change (PyStr.split "_" (header_name {| header_name := scenario_name |}) !! 2%nat)
        with (Some "2") in Hfail.
      change (PyStr.int "2") with (Some 2%Z) in Hfail.
      cbn [header_name] in Hfail.
      destruct (decide _) as [[x Hx]|_]; [rewrite Hh in Hx; discriminate|].
      pose proof (ingest_outcome broken_batch scenario_name 2) as Hi.
      destruct (ingest broken_batch scenario_name 2) as [e'|[? ?]]; [|discriminate].
      destruct Hi as [[_ Hn]|[(_ & Hneg & _)|(_ & _ & q & Hq & Hshort)]].
      * discriminate.
      * lia.
      * injection Hq as <-. cbn in Hshort. lia.
    + injection Hl as <- _.
      destruct (Hpre broken_batch {| header_name := scenario_name |})
        as (_ & depth & strings & p & _ & _ & Hh & _); [apply list_elem_of_here|].
      eauto.
    + exfalso. injection Hl as _ _ Hl. destruct pre; discriminate.
Defined.

(* ===================================================================== *)
(** ** The median and the size of the heavy set *)
(* ===================================================================== *)

Lemma insert_sorted_perm (x : R) (l : list R) : Np.insert_sorted x l ≡ₚ x :: l.
Proof.
  induction l as [|y l IH]; [reflexivity|].
  cbn. destruct (Rle_dec x y); [reflexivity|].
  rewrite IH. apply perm_swap.
Qed.

Lemma sort_perm (l : list R) : Np.sort l ≡ₚ l.
Proof.
  induction l as [|x l IH]; [reflexivity|].
  cbn. rewrite insert_sorted_perm. by rewrite IH.
Qed.

Lemma insert_sorted_ascending (x : R) (l : list R) :
  ascending l -> ascending (Np.insert_sorted x l).
Proof.
  induction l as [|y l IH]; intros Hl; [cbn; auto|].
  destruct Hl as [Hy Hl]. cbn. destruct (Rle_dec x y) as [Hxy|Hxy].
  - cbn. split; [|auto]. constructor; [assumption|].
    eapply Forall_impl; [exact Hy|]. intros z Hz. cbn in Hz. lra.
  - cbn. split; [|auto].
    rewrite insert_sorted_perm. constructor; [lra | assumption].
Qed.

Lemma sort_ascending (l : list R) : ascending (Np.sort l).
Proof.
  induction l as [|x l IH]; [exact I|]. by apply insert_sorted_ascending.
Qed.

Lemma ascending_lookup (l : list R) (i j : nat) (x y : R) :
  ascending l -> (i <= j)%nat -> l !! i = Some x -> l !! j = Some y -> x <= y.
Proof.
  revert i j. induction l as [|z l IH]; intros i j Hl Hij Hi Hj; [discriminate|].
  destruct Hl as [Hz Hl].
  destruct i as [|i], j as [|j]; cbn in Hi, Hj.
  - injection Hi as <-. injection Hj as <-. lra.
  - injection Hi as <-. rewrite Forall_forall in Hz.
    apply Hz. by eapply list_elem_of_lookup_2.
  - lia.
  - eapply (IH i j); [assumption | lia | eassumption..].
Qed.

Lemma filter_length_perm {A} (P : A -> bool) (l l' : list A) :
  l ≡ₚ l' -> length (List.filter P l) = length (List.filter P l').
Proof.
  induction 1 as [|x l l' _ IH|x y l|l l' l'' _ IH1 _ IH2]; cbn.
  - reflexivity.
  - destruct (P x); cbn; lia.
  - destruct (P x), (P y); reflexivity.
  - lia.
Qed.

Lemma filter_none {A} (P : A -> bool) (l : list A) :
  (forall x, x ∈ l -> P x = false) -> List.filter P l = [].
Proof.
  induction l as [|x l IH]; intros H; [reflexivity|].
  cbn. rewrite (H x (list_elem_of_here _ _)). apply IH. intros y Hy.
  by apply H, list_elem_of_further.
Qed.

(** In an ascending list the elements above a bound that the element
    at index [k] respects come after index [k]. *)
Lemma ascending_above (l : list R) (k : nat) (m : R) :
  ascending l -> (k < length l)%nat -> nth k l 0 <= m ->
  (length (List.filter (fun x => Rgtb x m) l) <= length l - S k)%nat.
Proof.
  intros Hl Hk Hm. rewrite <- (take_drop (S k) l) at 1.
  rewrite List.filter_app, length_app, filter_none.
  - cbn. etransitivity; [apply filter_length_le|]. rewrite length_drop. lia.
  - intros x Hx. apply list_elem_of_lookup in Hx as [i Hi].
    apply Rgtb_false. apply lookup_take_Some in Hi as [Hi Hlt].
    etransitivity; [|exact Hm].
    apply (ascending_lookup l i k); [assumption | lia | assumption|].
    by apply lookup_nth_lt.
Qed.

(** At most half of the values exceed their median. *)
Lemma median_above (l : list R) :
  (length (List.filter (fun x => Rgtb x (Np.median l)) l) <= length l / 2)%nat.
Proof.
  rewrite (filter_length_perm _ l (Np.sort l)) by (symmetry; apply sort_perm).
  rewrite <- (Permutation_length (sort_perm l)).
  unfold Np.median. cbv zeta.
  pose proof (sort_ascending l) as Hs.
  set (s := Np.sort l) in *. set (n := length s).
  destruct (Nat.even n) eqn:En.
  - apply Nat.even_spec in En as [h Hh].
    destruct (Nat.eq_dec n 0%nat) as [Hn|Hn].
    + assert (s = []) as -> by (apply length_zero_iff_nil; exact Hn). cbn. lia.
    + assert (Hdiv : (n / 2 = h)%nat)
        by (symmetry; apply (Nat.div_unique n 2 h 0); lia).
      etransitivity; [apply (ascending_above s (n / 2 - 1)); [assumption | lia |]|].
      * assert (nth (n / 2 - 1) s 0 <= nth (n / 2) s 0); [|lra].
        apply (ascending_lookup s (n / 2 - 1) (n / 2)); [assumption | lia | |];
          apply lookup_nth_lt; lia.
      * fold n. lia.
  - assert (Ho : Nat.odd n = true) by (unfold Nat.odd; by rewrite En).
    apply Nat.odd_spec in Ho as [h Hh].
    assert (Hdiv : (n / 2 = h)%nat)
      by (symmetry; apply (Nat.div_unique n 2 h 1); lia).
    etransitivity; [apply (ascending_above s (n / 2)); [assumption | lia | lra]|].
    fold n. lia.
Qed.

Lemma add_statevectors_circ_Ok (r : Result) (c : ExperimentResult) (s s' : QVFitter) :
  add_statevectors_circ r c s = (s', Ok tt) ->
  exists d q,
    depth_of (header_name c) = Some d /\ _heavy_outputs s !! header_name c = None /\
    get_statevector r (header_name c) = Some q /\ (0 <= d)%Z /\
    (2 ^ d <= Z.of_nat (length q))%Z /\
    s' = register (header_name c) (map (PyStr.format_bin d) (heavy_outcomes d q))
           (Rsum (map (probability q) (heavy_outcomes d q))) s.
Proof.
  rewrite add_statevectors_circ_cases. cbn zeta. unfold depth_of.
  destruct (PyStr.split "_" (header_name c) !! 2%nat) as [field|]; [|discriminate].
  cbn. destruct (PyStr.int field) as [d|]; [|discriminate].
  destruct (decide _) as [|Hnew]; [discriminate|].
  pose proof (ingest_outcome r (header_name c) d) as Hi.
  destruct (ingest r (header_name c) d) as [e|[strings p]]; [discriminate|].
  intros [= <-]. destruct Hi as (q & Hq & Hd & Hlen & -> & ->).
  exists d, q. split; [reflexivity|]. split; [by apply eq_None_not_Some|]. auto.
Qed.

Lemma heavy_outcomes_length (d : Z) (q : list complex) :
  (2 * Z.of_nat (length (heavy_outcomes d q)) <= Z.of_nat (Z.to_nat (2 ^ d)))%Z.
Proof.
  pose proof (median_above (ideal_probabilities d q)) as H.
  unfold ideal_probabilities at 2 3 in H.
  rewrite filter_map_comm, !length_map in H. fold (heavy_outcomes d q) in H.
  unfold range in H. rewrite length_seqZ in H.
  pose proof (Nat.Div0.mul_div_le (Z.to_nat (2 ^ d)) 2). lia.
Qed.

(** X11. The heavy set of a registered circuit of depth [d] has at most
    half of the [2^d] bitstrings: the strings whose ideal probability
    exceeds the median. *)
Theorem heavy_set_at_most_half (r : Result) (c : ExperimentResult) (s s' : QVFitter) :
  add_statevectors_circ r c s = (s', Ok tt) ->
  exists d strings,
    depth_of (header_name c) = Some d /\
    _heavy_outputs s' !! header_name c = Some strings /\
    (2 * Z.of_nat (length strings) <= 2 ^ d)%Z.
Proof.
  intros E. apply add_statevectors_circ_Ok in E as (d & q & Hd & _ & _ & Hd0 & _ & ->).
  exists d, (map (PyStr.format_bin d) (heavy_outcomes d q)).
  split; [exact Hd|]. split; [apply register_lookup_eq|].
  rewrite length_map. pose proof (heavy_outcomes_length d q).
  assert (0 < 2 ^ d)%Z by (apply Z.pow_pos_nonneg; lia). lia.
Qed.

Lemma scenario_circ_Ok :
  exists s', add_statevectors_circ ideal_batch {| header_name := scenario_name |}
               fresh_fitter = (s', Ok tt).
Proof.
  pose proof (add_statevectors_circ_cases ideal_batch {| header_name := scenario_name |}
                fresh_fitter) as Hc.
  cbn zeta in Hc.
  change (PyStr.split "_" (header_name {| header_name := scenario_name |}) !! 2%nat)
    with (Some "2") in Hc.
  change (PyStr.int "2") with (Some 2%Z) in Hc. cbn [header_name] in Hc.
  destruct (decide _) as [[x Hx]|_]; [discriminate|].
  pose proof (ingest_outcome ideal_batch scenario_name 2) as Hi.
  destruct (ingest ideal_batch scenario_name 2) as [e'|[strings p]];
    [exfalso | eexists; exact Hc].
  destruct Hi as [[_ Hn]|[(_ & Hneg & _)|(_ & _ & q & Hq & Hshort)]].
  - discriminate.
  - lia.
  - injection Hq as <-. cbn in Hshort. lia.
Defined.

Lemma heavy_set_at_most_half_witness :
  exists s' strings,
    _heavy_outputs s' !! scenario_name = Some strings /\
    (2 * Z.of_nat (length strings) <= 2 ^ 2)%Z.
Proof.
  destruct scenario_circ_Ok as [s' E].
  destruct (heavy_set_at_most_half _ _ _ _ E) as (d & strings & Hd & Hh & Hlen).
  change (depth_of _) with (Some 2%Z) in Hd. injection Hd as <-.
  exists s', strings. split; [exact Hh | exact Hlen].
Defined.

Lemma probability_nonneg (q : list complex) (b : Z) : 0 <= probability q b.
Proof.
  unfold probability. destruct (q !! Z.to_nat b) as [[re im]|]; cbn; [|lra].
  pose proof (Rle_0_sqr re). pose proof (Rle_0_sqr im). unfold Rsqr in *. lra.
Qed.

Lemma Rsum_filter_le {A} (f : A -> R) (P : A -> bool) (l : list A) :
  (forall x, 0 <= f x) ->
  0 <= Rsum (map f (List.filter P l)) <= Rsum (map f l).
Proof.
  intros Hf. unfold Rsum. induction l as [|x l IH]; cbn; [lra|].
  pose proof (Hf x). destruct (P x); cbn; lra.
Qed.

(** X12. The ideal heavy-output probability stored for a registered circuit
    lies between 0 and the sum of the ideal probabilities of the [2^d]
    outcomes, so between 0 and 1 for a normalised statevector. *)
Theorem ideal_probability_bounds (r : Result) (c : ExperimentResult) (s s' : QVFitter) :
  add_statevectors_circ r c s = (s', Ok tt) ->
  exists d q p,
    depth_of (header_name c) = Some d /\
    get_statevector r (header_name c) = Some q /\
    _heavy_output_prob_ideal s' !! header_name c = Some p /\
    0 <= p <= Rsum (ideal_probabilities d q).
Proof.
  intros E. apply add_statevectors_circ_Ok in E as (d & q & Hd & _ & Hq & _ & _ & ->).
  exists d, q, (Rsum (map (probability q) (heavy_outcomes d q))).
  split; [exact Hd|]. split; [exact Hq|]. split; [apply register_lookup_eq|].
  apply Rsum_filter_le, probability_nonneg.
Qed.

Lemma ideal_probability_bounds_witness :
  exists s' p,
    _heavy_output_prob_ideal s' !! scenario_name = Some p /\ 0 <= p <= 1.
Proof.
  destruct scenario_circ_Ok as [s' E].
  destruct (ideal_probability_bounds _ _ _ _ E) as (d & q & p & Hd & Hq & Hp & Hb).
  change (depth_of _) with (Some 2%Z) in Hd. injection Hd as <-.
  injection Hq as <-. fold scenario_qstate in Hb.
  rewrite scenario_probabilities in Hb. cbn [Rsum fold_right] in Hb.
  exists s', p. split; [exact Hp | lra].
Defined.

(* ===================================================================== *)
(** ** Amplitudes beyond [2^depth] *)
(* ===================================================================== *)

Lemma mapM_ext_in {A B} (f g : A -> option B) (l : list A) :
  (forall x, x ∈ l -> f x = g x) -> mapM f l = mapM g l.
Proof.
  induction l as [|x l IH]; intros H; [reflexivity|].
  cbn. rewrite (H x (list_elem_of_here _ _)), IH; [reflexivity|].
  intros y Hy. by apply H, list_elem_of_further.
Qed.

Lemma pmap_items_take (depth : Z) (q : list complex) :
  let q' := take (Z.to_nat (2 ^ depth)) q in
  pmap_items depth (zip_with multiply q' (map conjugate q')) =
  pmap_items depth (zip_with multiply q (map conjugate q)).
Proof.
  cbv zeta. unfold pmap_items. apply mapM_ext_in. intros b Hb.
  apply range_nonneg in Hb. rewrite !pvector_lookup, lookup_take_lt by lia.
  reflexivity.
Qed.

(** X13. [add_statevectors] reads the first [2^depth] amplitudes of a
    statevector only: a statevector that is longer, as one of a wider
    register, is accepted and registered as its first [2^depth] amplitudes
    are; its length is never compared with the depth. *)
Theorem statevector_tail_ignored (r r' : Result) (c : ExperimentResult) (s : QVFitter)
    (d : Z) (q : list complex) :
  depth_of (header_name c) = Some d ->
  get_statevector r (header_name c) = Some q ->
  get_statevector r' (header_name c) = Some (take (Z.to_nat (2 ^ d)) q) ->
  add_statevectors_circ r c s = add_statevectors_circ r' c s.
Proof.
  intros Hd Hq Hq'. rewrite !add_statevectors_circ_cases. cbn zeta.
  unfold depth_of in Hd.
  destruct (PyStr.split "_" (header_name c) !! 2%nat) as [field|]; [|reflexivity].
  cbn in Hd. rewrite Hd. destruct (decide _); [reflexivity|].
  unfold ingest. rewrite Hq, Hq'.
  destruct (d <? 0)%Z; [reflexivity|].
  rewrite (pmap_items_take d q). reflexivity.
Qed.

Lemma statevector_tail_ignored_witness :
  add_statevectors_circ
    (statevector_result [(scenario_name, scenario_qstate ++ [(0.5, 0.5)])])
    {| header_name := scenario_name |} fresh_fitter =
  add_statevectors_circ ideal_batch {| header_name := scenario_name |} fresh_fitter.
Proof.
  apply (statevector_tail_ignored _ _ _ _ 2 (scenario_qstate ++ [(0.5, 0.5)]));
    reflexivity.
Defined.

(* ===================================================================== *)
(** ** The trial count after [add_data] *)
(* ===================================================================== *)

Lemma add_data_circs_Ok (cs : list ExperimentResult) (s s' : QVFitter) :
  for_ cs add_data_circ s = (s', Ok tt) ->
  s' = set_ntrials (_ntrials s') s /\ (_ntrials s <= _ntrials s')%Z /\
  (forall c, c ∈ cs ->
     exists t, trial_of (header_name c) = Some t /\ (t < _ntrials s')%Z) /\
  (_ntrials s' = _ntrials s \/
   exists c, c ∈ cs /\ trial_of (header_name c) = Some (_ntrials s' - 1)%Z).
Proof.
  revert s. induction cs as [|c cs IH]; intros s E.
  - cbn in E. injection E as <-. split; [by destruct s|]. split; [lia|].
    split; [intros c Hc; by apply elem_of_nil in Hc | by left].
  - cbn [for_] in E. unfold bind in E. rewrite add_data_circ_cases in E.
    destruct (trial_of (header_name c)) as [t|] eqn:Et; [|discriminate].
    destruct (decide (registered s c)); [|discriminate].
    apply IH in E as (Hs' & Hle & Hall & Hmax).
    assert (Hb : bump_ntrials t s = set_ntrials (_ntrials (bump_ntrials t s)) s /\
                 (_ntrials s <= _ntrials (bump_ntrials t s))%Z /\
                 (t < _ntrials (bump_ntrials t s))%Z /\
                 (_ntrials (bump_ntrials t s) = _ntrials s \/
                  _ntrials (bump_ntrials t s) = (t + 1)%Z)).
    { unfold bump_ntrials. destruct (Z.gtb_spec (t + 1) (_ntrials s)); cbn.
      - split; [reflexivity|]. lia.
      - split; [by destruct s|]. lia. }
    destruct Hb as (Hb1 & Hb2 & Hb3 & Hb4).
    split; [rewrite Hs', Hb1; reflexivity|]. split; [lia|]. split.
    + intros c' Hc'. apply elem_of_cons in Hc' as [->|Hc'].
      * exists t. split; [exact Et | lia].
      * by apply Hall.
    + destruct Hmax as [Hmax|(c' & Hc' & Ht')].
      * rewrite Hmax. destruct Hb4 as [Hb4|Hb4]; [by left|].
        right. exists c. split; [apply list_elem_of_here|].
        rewrite Et. f_equal. lia.
      * right. exists c'. split; [by apply list_elem_of_further | exact Ht'].
Qed.

Lemma add_data_loop_Ok (rs : list Result) (s s' : QVFitter) :
  add_data_loop rs s = (s', Ok tt) ->
  s' = set_ntrials (_ntrials s') (set_result_list (_result_list s ++ rs) s) /\
  (_ntrials s <= _ntrials s')%Z /\
  (forall r c, r ∈ rs -> c ∈ results r ->
     exists t, trial_of (header_name c) = Some t /\ (t < _ntrials s')%Z) /\
  (_ntrials s' = _ntrials s \/
   exists r c, r ∈ rs /\ c ∈ results r /\
               trial_of (header_name c) = Some (_ntrials s' - 1)%Z).
Proof.
  unfold add_data_loop. revert s. induction rs as [|r rs IH]; intros s E.
  - cbn in E. injection E as <-. rewrite app_nil_r. split; [by destruct s|].
    split; [lia|]. split; [intros r c Hr; by apply elem_of_nil in Hr | by left].
  - cbn [for_] in E. unfold bind at 1 in E. unfold bind at 1, modify at 1 in E.
    set (s1 := set_result_list (_result_list s ++ [r]) s) in *.
    destruct (for_ (results r) add_data_circ s1) as [s2 [[]|e]] eqn:E2; [|discriminate].
    apply add_data_circs_Ok in E2 as (Hs2 & Hle2 & Hall2 & Hmax2).
    apply IH in E as (Hs' & Hle & Hall & Hmax).
    change (_ntrials s1) with (_ntrials s) in *.
    split.
    { rewrite Hs', Hs2. cbn. rewrite <- app_assoc. reflexivity. }
    split; [lia|]. split.
    + intros r0 c Hr0 Hc. apply elem_of_cons in Hr0 as [->|Hr0].
      * destruct (Hall2 c Hc) as (t & Ht & Hlt). exists t. split; [exact Ht | lia].
      * by eapply Hall.
    + destruct Hmax as [Hmax|(r0 & c & Hr0 & Hc & Ht)].
      * rewrite Hmax. destruct Hmax2 as [Hmax2|(c & Hc & Ht)]; [by left|].
        right. exists r, c. split; [apply list_elem_of_here | auto].
      * right. exists r0, c. split; [by apply list_elem_of_further | auto].
Qed.

(** X14. A call of [add_data] without refit that ends normally appends the
    batches to the stored results and changes the trial count only, to the
    larger of the old count and one more than the largest trial index among
    the names of the added circuits: every added circuit has a trial index
    below the new count, and the new count is the old one or one more than
    the trial index of an added circuit. *)
Theorem add_data_trial_count (arg : ResultArg) (s s' : QVFitter) :
  add_data arg false s = (s', Ok tt) ->
  s' = set_ntrials (_ntrials s') (set_result_list (_result_list s ++ as_list arg) s) /\
  (_ntrials s <= _ntrials s')%Z /\
  (forall r c, r ∈ as_list arg -> c ∈ results r ->
     exists t, trial_of (header_name c) = Some t /\ (t < _ntrials s')%Z) /\
  (_ntrials s' = _ntrials s \/
   exists r c, r ∈ as_list arg /\ c ∈ results r /\
               trial_of (header_name c) = Some (_ntrials s' - 1)%Z).
Proof.
  intros E. apply add_data_loop_Ok.
  destruct arg as [|r|l].
  - cbn in E. exact E.
  - rewrite add_data_unfold in E by discriminate. unfold bind in E.
    destruct (add_data_loop (as_list (ArgOne r)) s) as [s1 [[]|e]]; [exact E | discriminate].
  - rewrite add_data_unfold in E by discriminate. unfold bind in E.
    destruct (add_data_loop (as_list (ArgList l)) s) as [s1 [[]|e]]; [exact E | discriminate].
Qed.

Lemma add_data_trial_count_witness :
  let s := set_heavy_output_prob_ideal {["qv_depth_2_trial_3" := 0.5]} fresh_fitter in
  exists s',
    add_data (ArgOne stray_batch) false s = (s', Ok tt) /\
    (_ntrials s <= _ntrials s')%Z /\ _ntrials s' = 4%Z.
Proof.
  intros s.
  assert (E : add_data (ArgOne stray_batch) false s
              = (set_ntrials 4 (set_result_list [stray_batch] s), Ok tt))
    by reflexivity.
  eexists. split; [exact E|]. split; [|reflexivity].
  exact (proj1 (proj2 (add_data_trial_count _ _ _ E))).
Defined.

(* ===================================================================== *)
(** ** What [calc_data] writes *)
(* ===================================================================== *)

(** X15. However it ends, [calc_data] changes nothing but the two count
    tables, and in them only the entries of the circuit instances it
    visits: the names of a depth of the depth list and a trial index below
    the trial count.  Entries of other names, as those of a depth that is no
    longer listed, stay as they are. *)
Theorem calc_data_frame (s s' : QVFitter) (r : outcome unit) :
  calc_data s = (s', r) ->
  s' = with_counts s (_circ_shots s') (_heavy_output_counts s') /\
  forall n,
    (forall depth trialidx, depth ∈ _depths s -> (0 <= trialidx < _ntrials s)%Z ->
       n <> circ_name depth trialidx) ->
    _circ_shots s' !! n = _circ_shots s !! n /\
    _heavy_output_counts s' !! n = _heavy_output_counts s !! n.
Proof.
  rewrite calc_data_spec.
  destruct (calc_data_writes _ _ _ _ _) as [[shots' hoc'] r'] eqn:E.
  intros [= <- <-]. split; [reflexivity|].
  intros n Hn. cbn.
  apply (calc_data_writes_others _ _ _ _ _ _ _ _ n E).
  intros Hin. apply elem_of_visited_names in Hin as (d & t & -> & Hd & Ht).
  by apply (Hn d t).
Qed.

Lemma calc_data_frame_witness :
  _circ_shots (fst (calc_data scenario_fitter)) !! "qv_depth_3_trial_0" = None.
Proof.
  destruct (calc_data scenario_fitter) as [s' r] eqn:E.
  destruct (calc_data_frame _ _ _ E) as [_ H].
  destruct (H "qv_depth_3_trial_0") as [H1 _]; [|exact H1].
  intros d t Hd Ht. apply list_elem_of_singleton in Hd as ->.
  assert (t = 0)%Z as -> by (cbn in Ht; lia).
  discriminate.
Defined.

Lemma Zsum_perm (l l' : list Z) : l ≡ₚ l' -> Zsum l = Zsum l'.
Proof.
  unfold Zsum. induction 1; cbn; lia.
Qed.

Lemma sum_values_delete (m : gmap string Z) (x : string) (v : Z) :
  m !! x = Some v -> sum_values m = (v + sum_values (delete x m))%Z.
Proof.
  intros Hx. unfold sum_values. rewrite !py_sum_Z.
  rewrite <- (Zsum_perm _ _ (fmap_Permutation snd _ _ (map_to_list_delete m x v Hx))).
  reflexivity.
Qed.

Lemma sum_values_nonneg (m : gmap string Z) :
  (forall x v, m !! x = Some v -> (0 <= v)%Z) -> (0 <= sum_values m)%Z.
Proof.
  intros H. unfold sum_values. rewrite py_sum_Z.
  assert (Hall : Forall (fun v => 0 <= v)%Z (map snd (map_to_list m))).
  { apply Forall_fmap, Forall_forall. intros [k v] Hkv. cbn.
    apply elem_of_map_to_list in Hkv. eauto. }
  unfold Zsum. induction Hall; cbn; lia.
Qed.

(** The counts of distinct strings add up to no more than all counts. *)
Lemma subset_within_total (strings : list string) (m : gmap string Z) :
  NoDup strings -> (forall x v, m !! x = Some v -> (0 <= v)%Z) ->
  (0 <= _subset_probability strings m <= sum_values m)%Z.
Proof.
  unfold _subset_probability. rewrite py_sum_Z.
  cbn [py_get PyMapping_gmap py_zero PyNum_Z].
  intros Hnd. revert m. induction Hnd as [|x strings Hx Hnd IH]; intros m Hm.
  - cbn. pose proof (sum_values_nonneg m Hm). lia.
  - cbn [map Zsum fold_right].
    assert (Hrest : map (fun value => default 0%Z (m !! value)) strings =
                    map (fun value => default 0%Z (delete x m !! value)) strings).
    { apply map_ext_in. intros y Hy. apply list_elem_of_In in Hy.
      rewrite lookup_delete_ne; [reflexivity|]. intros ->. contradiction. }
    fold (Zsum (map (fun value => default 0%Z (m !! value)) strings)).
    rewrite Hrest.
    assert (Hm' : forall y v, delete x m !! y = Some v -> (0 <= v)%Z).
    { intros y v Hy. apply lookup_delete_Some in Hy as [_ Hy]. eauto. }
    specialize (IH (delete x m) Hm').
    destruct (m !! x) as [v|] eqn:Ex; cbn [default].
    + rewrite (sum_values_delete m x v Ex). pose proof (Hm x v Ex).
      unfold Datatypes.id. destruct IH as [IH1 IH2].
      split; [apply Z.add_nonneg_nonneg; assumption | apply Z.add_le_mono_l; exact IH2].
    + rewrite delete_id in IH by assumption.
      rewrite delete_id by assumption. rewrite Z.add_0_l. exact IH.
Qed.

Lemma Zsum_nonneg (l : list Z) : Forall (fun v => 0 <= v)%Z l -> (0 <= Zsum l)%Z.
Proof. unfold Zsum. induction 1; cbn; lia. Qed.

Lemma merged_counts_nonneg (rl : list Result) (name : string) :
  (forall r m x v, r ∈ rl -> get_counts r name = Some m -> m !! x = Some v -> (0 <= v)%Z) ->
  forall x v, merged_counts rl name !! x = Some v -> (0 <= v)%Z.
Proof.
  intros H x v. rewrite merged_counts_lookup.
  assert (Hall : Forall (fun v => 0 <= v)%Z (omap (batch_count name x) rl)).
  { apply Forall_forall. intros w Hw. apply list_elem_of_omap in Hw as (r & Hr & Hb).
    unfold batch_count in Hb. destruct (get_counts r name) as [m|] eqn:Em; [|discriminate].
    cbn in Hb. eauto. }
  destruct (omap (batch_count name x) rl) as [|w vs]; [discriminate|].
  intros [= <-]. exact (Zsum_nonneg (w :: vs) Hall).
Qed.

(** X16. After [calc_data], the heavy-output count of a visited circuit
    instance is between 0 and its number of shots, when no batch has a
    negative count for the instance and its heavy strings are distinct, as
    the heavy strings that [add_statevectors] stores are. *)
Theorem heavy_count_within_shots (s s' : QVFitter) (depth trialidx : Z) :
  let name := circ_name depth trialidx in
  calc_data s = (s', Ok tt) ->
  depth ∈ _depths s -> (0 <= trialidx < _ntrials s)%Z ->
  (forall strings, _heavy_outputs s !! name = Some strings -> NoDup strings) ->
  (forall r m x v, r ∈ _result_list s -> get_counts r name = Some m ->
                   m !! x = Some v -> (0 <= v)%Z) ->
  exists c n : Z,
    _heavy_output_counts s' !! name = Some c /\ _circ_shots s' !! name = Some n /\
    (0 <= c <= n)%Z.
Proof.
  intros name E Hd Ht Hnd Hpos. rewrite calc_data_spec in E.
  destruct (calc_data_writes _ _ _ _ _) as [[shots' hoc'] r'] eqn:Ew.
  injection E as <- ->.
  destruct (calc_data_writes_lookup _ _ _ _ _ _ _ name Ew) as (Hs & strings & Hh & Hc).
  { apply elem_of_visited_names. exists depth, trialidx. auto. }
  exists (hoc_of (_result_list s) name strings), (shots_of (_result_list s) name).
  split; [exact Hc|]. split; [exact Hs|].
  unfold hoc_of, shots_of. apply subset_within_total; [by apply Hnd|].
  by apply merged_counts_nonneg.
Qed.

Lemma heavy_count_within_shots_witness :
  exists c n : Z,
    _heavy_output_counts scenario_fitter !! scenario_name = Some c /\
    _circ_shots scenario_fitter !! scenario_name = Some n /\ (0 <= c <= n)%Z.
Proof.
  apply (heavy_count_within_shots scenario_fitter scenario_fitter 2 0).
  - reflexivity.
  - apply list_elem_of_here.
  - cbn. lia.
  - intros strings [= <-]. apply NoDup_cons. split; [|apply NoDup_singleton].
    intros H. apply list_elem_of_singleton in H. discriminate.
  - intros r m x v Hr Hm Hx. apply list_elem_of_singleton in Hr as ->.
    injection Hm as <-.
    repeat (apply lookup_insert_Some in Hx as [[_ <-]|[_ Hx]]; [lia|]).
    apply lookup_singleton_Some in Hx as [_ <-]. lia.
Defined.

(* ===================================================================== *)
(** ** The statistics table *)
(* ===================================================================== *)

Lemma ydata_set_shape (r c : nat) (v : R) : preserves ydata_shape (ydata_set r c v).
Proof.
  intros s [Hlen Hrows]. unfold ydata_set. unfold_monad.
  destruct (_ydata s !! r) as [row|] eqn:Hr; [|split; assumption].
  cbn. destruct (decide (c < length row)%nat); [|split; assumption].
  cbn. unfold ydata_shape. cbn. split; [by rewrite length_insert|].
  apply Forall_insert; [assumption|]. rewrite length_insert.
  rewrite Forall_forall in Hrows. apply Hrows. by eapply list_elem_of_lookup_2.
Qed.

Ltac shape_tac :=
  repeat first
    [ apply ydata_set_shape
    | apply preserves_ret | apply preserves_raise | apply preserves_gets
    | apply preserves_orelse
    | apply preserves_bind; [|intros ?]
    | apply preserves_for_with; intros ? ?
    | apply preserves_if | apply preserves_decide
    | match goal with
      | |- preserves _ ?m =>
          match m with
          | context [match ?p with pair _ _ => _ end] => is_var p; destruct p; cbv beta iota
          end
      end ].

Lemma calc_statistics_shape (s : QVFitter) : ydata_shape (fst (calc_statistics s)).
Proof.
  unfold calc_statistics. rewrite bind_gets. unfold bind at 1, modify at 1.
  lazymatch goal with
  | |- ydata_shape (fst (?m ?s0)) => cut (preserves ydata_shape m)
  end.
  - intros Hp. apply Hp. split; [reflexivity|].
    cbn. repeat constructor; apply length_replicate.
  - unfold calc_statistics_depth, calc_statistics_trial, np_zeros, ydata_get, array_set.
    shape_tac.
Qed.

(** X17. However [calc_statistics] ends, also with an exception, it has
    changed nothing but the statistics table, and the table has four rows
    with one entry per depth of the depth list. *)
Theorem calc_statistics_table_shape (s : QVFitter) :
  let s' := fst (calc_statistics s) in
  s' = set_ydata (_ydata s') s /\
  length (_ydata s') = 4%nat /\
  Forall (fun row => length row = length (_depths s)) (_ydata s').
Proof.
  cbv zeta.
  pose proof (calc_statistics_writes_ydata_only s s eq_refl) as Hsame.
  destruct (calc_statistics_shape s) as [Hlen Hrows].
  split; [by apply same_but_ydata_eq|]. split; [exact Hlen|].
  apply same_but_ydata_eq in Hsame.
  replace (_depths s) with (_depths (fst (calc_statistics s)))
    by (rewrite Hsame; reflexivity).
  exact Hrows.
Qed.

Lemma shape_rows (s : QVFitter) :
  ydata_shape s ->
  exists row0 row1 rest,
    _ydata s = row0 :: row1 :: rest /\
    length row0 = length (_depths s) /\ length row1 = length (_depths s).
Proof.
  intros [Hlen Hrows].
  destruct (_ydata s) as [|row0 [|row1 rest]]; [discriminate..|].
  apply Forall_cons in Hrows as [H0 Hrows]. apply Forall_cons in Hrows as [H1 _].
  eauto 6.
Qed.

Section AfterStatistics.
Variable erf : R -> R.

(** X18. After [calc_statistics], however it ended, [qv_success] returns
    normally, with one pair per depth, and leaves the fitter as it is. *)
Theorem qv_success_after_statistics (s : QVFitter) :
  let s' := fst (calc_statistics s) in
  exists l, qv_success erf s' = (s', Ok l) /\ length l = length (_depths s).
Proof.
  cbv zeta.
  pose proof (calc_statistics_writes_ydata_only s s eq_refl) as Hsame.
  apply same_but_ydata_eq in Hsame.
  destruct (shape_rows _ (calc_statistics_shape s)) as (row0 & row1 & rest & Hy & H0 & H1).
  set (s' := fst (calc_statistics s)) in *.
  assert (Hd : _depths s' = _depths s) by (rewrite Hsame; reflexivity).
  eexists. split.
  - unfold qv_success. rewrite bind_gets, enumerate_zip.
    apply (qv_success_loop erf s' row0 row1 rest (_depths s') 0 [] Hy); cbn; lia.
  - cbn. rewrite length_map, length_seq. by rewrite Hd.
Qed.

Lemma ydata_get_empty (r c : nat) (s : QVFitter) :
  _ydata s = [] -> ydata_get r c s = (s, Raise IndexError).
Proof. intros Hy. unfold ydata_get. unfold_monad. rewrite Hy. reflexivity. Qed.

Lemma qv_success_no_statistics (s : QVFitter) :
  _ydata s = [] -> _depths s <> [] -> qv_success erf s = (s, Raise IndexError).
Proof.
  intros Hy Hd. unfold qv_success. rewrite bind_gets.
  destruct (_depths s) as [|d ds]; [congruence|].
  cbn [enumerate imap for_with]. unfold bind at 1. unfold qv_success_depth.
  unfold bind at 1. rewrite (ydata_get_empty 0 0 s Hy). reflexivity.
Qed.
End AfterStatistics.

(* ===================================================================== *)
(** ** What [add_statevectors] writes *)
(* ===================================================================== *)

Lemma only_added_refl (s : QVFitter) : only_added s s.
Proof. split; [by destruct s|]. split; auto. Qed.

Lemma only_added_trans (s1 s2 s3 : QVFitter) :
  only_added s1 s2 -> only_added s2 s3 -> only_added s1 s3.
Proof.
  intros (F1 & M1 & I1) (F2 & M2 & I2). split; [|split].
  - clear M1 M2 I1 I2. destruct s1, s2, s3.
    unfold set_heavy_output_prob_ideal, set_heavy_outputs in *. cbn in *. congruence.
  - auto.
  - intros H. destruct (I1 H) as [H2 P1]. destruct (I2 H2) as [H3 P2]. auto.
Qed.

Lemma only_added_register (n : string) (strings : list string) (p : R) (s : QVFitter) :
  _heavy_outputs s !! n = None -> only_added s (register n strings p s).
Proof.
  intros Hnew. split; [reflexivity|]. split.
  - intros k v Hk. cbn. rewrite lookup_insert_ne; [exact Hk | congruence].
  - intros Hagree. split.
    + intros k. cbn. destruct (decide (n = k)) as [->|Hne].
      * rewrite !lookup_insert_eq. split; eauto.
      * rewrite !lookup_insert_ne by assumption. apply Hagree.
    + intros k q Hk. cbn. rewrite lookup_insert_ne; [exact Hk|].
      intros ->. assert (Hs : is_Some (_heavy_outputs s !! k)) by (apply Hagree; eauto).
      rewrite Hnew in Hs. by destruct Hs.
Qed.

Lemma add_statevectors_circ_only_adds (r : Result) (c : ExperimentResult) (s : QVFitter) :
  only_added s (fst (add_statevectors_circ r c s)).
Proof.
  rewrite add_statevectors_circ_cases. cbn zeta.
  destruct (PyStr.split "_" (header_name c) !! 2%nat) as [field|];
    [|apply only_added_refl].
  destruct (PyStr.int field) as [depth|]; [|apply only_added_refl].
  destruct (decide _) as [|Hnew]; [apply only_added_refl|].
  destruct (ingest _ _ _) as [?|[strings p]]; [apply only_added_refl|].
  apply only_added_register. by apply eq_None_not_Some.
Qed.

Lemma add_statevectors_loop_only_adds (l : list (Result * ExperimentResult))
    (s : QVFitter) :
  only_added s (fst (for_ l (fun rc => add_statevectors_circ (fst rc) (snd rc)) s)).
Proof.
  revert s. induction l as [|[r c] l IH]; intros s; [apply only_added_refl|].
  cbn [for_ fst snd]. unfold bind.
  pose proof (add_statevectors_circ_only_adds r c s) as H1.
  destruct (add_statevectors_circ r c s) as [s1 [[]|e]]; [|exact H1].
  eapply only_added_trans; [exact H1 | apply IH].
Qed.

(** X19. However [add_statevectors] ends, it has changed nothing but the
    table of heavy strings and the table of ideal probabilities, and it
    has not replaced a heavy set that was there.  When the two tables had
    the same names before the call they have the same names after it, and
    no ideal probability that was there has been replaced. *)
Theorem add_statevectors_only_adds (arg : ResultArg) (s : QVFitter) :
  let s' := fst (add_statevectors arg s) in
  s' = set_heavy_output_prob_ideal (_heavy_output_prob_ideal s')
         (set_heavy_outputs (_heavy_outputs s') s) /\
  (forall n strings, _heavy_outputs s !! n = Some strings ->
                     _heavy_outputs s' !! n = Some strings) /\
  (ideal_tables_agree s ->
   ideal_tables_agree s' /\
   forall n p, _heavy_output_prob_ideal s !! n = Some p ->
               _heavy_output_prob_ideal s' !! n = Some p).
Proof.
  cbv zeta. rewrite add_statevectors_unfold. apply add_statevectors_loop_only_adds.
Qed.

Lemma add_statevectors_only_adds_witness :
  ideal_tables_agree (fst (add_statevectors (ArgOne ideal_batch) fresh_fitter)).
Proof.
  apply (add_statevectors_only_adds (ArgOne ideal_batch) fresh_fitter).
  intros n. cbn. rewrite !lookup_empty. split; intros [x Hx]; discriminate.
Defined.

(* ===================================================================== *)
(** ** The constructor *)
(* ===================================================================== *)

Lemma add_statevectors_fields (arg : ResultArg) (s : QVFitter) :
  only_added s (fst (add_statevectors arg s)).
Proof. rewrite add_statevectors_unfold. apply add_statevectors_loop_only_adds. Qed.

(** No method changes the qubit lists or the depth list. *)
Lemma add_data_keeps_depths (Q : list (list Z)) (D : list Z) (arg : ResultArg)
    (rerun_fit : bool) :
  preserves (fun s => _qubit_lists s = Q /\ _depths s = D) (add_data arg rerun_fit).
Proof.
  destruct arg; cbn [add_data as_list];
    unfold add_data_circ, calc_data, calc_data_circ, calc_statistics,
      calc_statistics_depth, calc_statistics_trial, np_zeros, ydata_set, ydata_get,
      array_set;
    preserves_tac; try (apply preserves_modify; intros s Hs; exact Hs).
Qed.

Lemma recompute_keeps_ntrials (N : Z) : preserves (fun s => _ntrials s = N) recompute.
Proof.
  unfold recompute, calc_data, calc_data_circ, calc_statistics,
    calc_statistics_depth, calc_statistics_trial, np_zeros, ydata_set, ydata_get,
    array_set.
  preserves_tac; try (apply preserves_modify; intros s Hs; exact Hs).
Qed.

Lemma add_data_ntrials (arg : ResultArg) (rerun_fit : bool) (s : QVFitter) :
  (_ntrials s <= _ntrials (fst (add_data arg rerun_fit s)))%Z.
Proof.
  assert (Harg : arg = ArgNone \/ arg <> ArgNone)
    by (destruct arg; [by left | by right..]).
  destruct Harg as [->|Harg]; [cbn; lia|].
  rewrite add_data_unfold by assumption. unfold bind.
  destruct (add_data_results_loop (as_list arg) s) as (s1 & r & E & _ & Hle & _).
  rewrite E. destruct r as [[]|e]; [|exact Hle].
  destruct rerun_fit; [|exact Hle].
  rewrite (recompute_keeps_ntrials (_ntrials s1) s1 eq_refl). exact Hle.
Qed.

Lemma init_fields (backend_result statevector_result : ResultArg)
    (qubit_lists : list (list Z)) :
  let s := fst (QVFitter_init backend_result statevector_result qubit_lists) in
  _qubit_lists s = qubit_lists /\
  _depths s = map (fun l => Z.of_nat (length l)) qubit_lists /\
  (0 <= _ntrials s)%Z.
Proof.
  cbv zeta. unfold QVFitter_init.
  set (s0 := mkQVFitter _ _ _ _ _ _ _ _ _). unfold bind.
  destruct (add_statevectors_fields statevector_result s0) as [F _].
  destruct (add_statevectors statevector_result s0) as [s1 [[]|e]]; cbn [fst] in *.
  - pose proof (add_data_keeps_depths (_qubit_lists s1) (_depths s1) backend_result true
                  s1 (conj eq_refl eq_refl)) as [HQ HD].
    pose proof (add_data_ntrials backend_result true s1) as HN.
    rewrite HQ, HD. rewrite F in *. cbn in *. auto.
  - rewrite F. cbn. split; [reflexivity|]. split; [reflexivity | lia].
Qed.


Section Constructed.
Variable erf : R -> R.

(** X21. A fitter constructed without backend results has no statistics
    table: with at least one qubit list, [qv_success] on it raises
    [IndexError] and leaves it as it is. *)
Theorem qv_success_without_data (statevector_result : ResultArg)
    (qubit_lists : list (list Z)) (s : QVFitter) :
  qubit_lists <> [] ->
  QVFitter_init ArgNone statevector_result qubit_lists = (s, Ok tt) ->
  _ydata s = [] /\ qv_success erf s = (s, Raise IndexError).
Proof.
  intros Hql E.
  destruct (init_fields ArgNone statevector_result qubit_lists) as (_ & HD & _).
  rewrite E in HD. cbn [fst] in HD.
  unfold QVFitter_init in E. set (s0 := mkQVFitter _ _ _ _ _ _ _ _ _) in E.
  unfold bind in E.
  destruct (add_statevectors_fields statevector_result s0) as [F _].
  destruct (add_statevectors statevector_result s0) as [s1 [[]|e]]; [|discriminate].
  cbn in E. injection E as <-. cbn [fst] in F.
  assert (Hy : _ydata s1 = []) by (rewrite F; reflexivity).
  split; [exact Hy|]. apply qv_success_no_statistics; [exact Hy|].
  rewrite HD. destruct qubit_lists; [congruence | discriminate].
Qed.

(** X22. A fitter constructed with backend results, also with an empty
    list of them, has its statistics computed: [qv_success] on it returns
    one pair per qubit list. *)
Theorem qv_success_with_data (backend_result statevector_result : ResultArg)
    (qubit_lists : list (list Z)) (s : QVFitter) :
  backend_result <> ArgNone ->
  QVFitter_init backend_result statevector_result qubit_lists = (s, Ok tt) ->
  exists l, qv_success erf s = (s, Ok l) /\ length l = length qubit_lists.
Proof.
  intros Hb E.
  destruct (init_fields backend_result statevector_result qubit_lists) as (_ & HD & _).
  rewrite E in HD. cbn [fst] in HD.
  unfold QVFitter_init in E. set (s0 := mkQVFitter _ _ _ _ _ _ _ _ _) in E.
  unfold bind at 1 in E.
  destruct (add_statevectors statevector_result s0) as [s1 [[]|e]]; [|discriminate].
  rewrite add_data_unfold in E by assumption. unfold bind in E.
  destruct (add_data_loop (as_list backend_result) s1) as [s2 [[]|e]]; [|discriminate].
  unfold recompute, bind in E.
  destruct (calc_data s2) as [s3 [[]|e]]; [|discriminate].
  pose proof (calc_statistics_shape s3) as Hshape.
  rewrite E in Hshape. cbn [fst] in Hshape.
  destruct (shape_rows _ Hshape) as (row0 & row1 & rest & Hy & H0 & H1).
  eexists. split.
  - unfold qv_success. rewrite bind_gets, enumerate_zip.
    apply (qv_success_loop erf s row0 row1 rest (_depths s) 0 [] Hy); cbn; lia.
  - cbn. rewrite length_map, length_seq, HD, length_map. reflexivity.
Qed.

End Constructed.

Lemma qv_success_without_data_witness :
  qv_success (fun x => x) fresh_fitter = (fresh_fitter, Raise IndexError).
Proof.
  apply (qv_success_without_data (fun x => x) ArgNone [[0; 1]%Z] fresh_fitter);
    [discriminate | reflexivity].
Defined.

Lemma qv_success_with_data_witness :
  exists s l,
    QVFitter_init (ArgList []) ArgNone [[0; 1]%Z] = (s, Ok tt) /\
    qv_success (fun x => x) s = (s, Ok l) /\ length l = 1%nat.
Proof.
  assert (E : exists s, QVFitter_init (ArgList []) ArgNone [[0; 1]%Z] = (s, Ok tt))
    by (eexists; reflexivity).
  destruct E as [s E].
  destruct (qv_success_with_data (fun x => x) (ArgList []) ArgNone [[0; 1]%Z] s) as (l & Hl & Hn);
    [discriminate | exact E |].
  exists s, l. auto.
Defined.

(* ===================================================================== *)
(** ** When [calc_statistics] raises *)
(* ===================================================================== *)

Lemma tabulated_dec (s : QVFitter) (d : Z) (t : nat) :
  tabulated s d t \/ ~ tabulated s d t.
Proof.
  unfold tabulated.
  destruct (_heavy_output_counts s !! circ_name d (Z.of_nat t));
    destruct (_circ_shots s !! circ_name d (Z.of_nat t));
    destruct (_heavy_output_prob_ideal s !! circ_name d (Z.of_nat t));
    first [ left; repeat split; eexists; reflexivity
          | right; intros (H1 & H2 & H3);
            first [by destruct H1 | by destruct H2 | by destruct H3] ].
Qed.

Lemma tabulated_trials_dec (s : QVFitter) (d : Z) (k m : nat) :
  (forall t, (k <= t < k + m)%nat -> tabulated s d t) \/
  (exists t, (k <= t < k + m)%nat /\ ~ tabulated s d t /\
             forall t', (k <= t' < t)%nat -> tabulated s d t').
Proof.
  revert k. induction m as [|m IH]; intros k; [left; intros t Ht; lia|].
  destruct (tabulated_dec s d k) as [Hk|Hk].
  - destruct (IH (S k)) as [Hall|(t & Ht & Hn & Hbefore)].
    + left. intros t Ht. destruct (decide (t = k)) as [->|]; [exact Hk | apply Hall; lia].
    + right. exists t. split; [lia|]. split; [exact Hn|].
      intros t' Ht'. destruct (decide (t' = k)) as [->|]; [exact Hk | apply Hbefore; lia].
  - right. exists k. split; [lia|]. split; [exact Hk | intros t' Ht'; lia].
Qed.

Lemma calc_statistics_trial_missing (s : QVFitter) (depth : Z) (t : nat)
    (ev : list R) (es : Z) (iv : list R) :
  ~ tabulated s depth t -> (t < length ev)%nat ->
  calc_statistics_trial depth (Z.of_nat t) (ev, es, iv) s =
  (s, Raise (KeyError (circ_name depth (Z.of_nat t)))).
Proof.
  intros Hn Hev. unfold tabulated in Hn.
  unfold calc_statistics_trial, array_set. unfold_monad.
  destruct (_heavy_output_counts s !! circ_name depth (Z.of_nat t)); [|reflexivity].
  cbn. destruct (decide (0 <= Z.of_nat t < Z.of_nat (length ev))%Z); [|lia].
  destruct (_circ_shots s !! circ_name depth (Z.of_nat t)); [|reflexivity].
  destruct (_heavy_output_prob_ideal s !! circ_name depth (Z.of_nat t)); [|reflexivity].
  exfalso. apply Hn. repeat split; eexists; reflexivity.
Qed.

Lemma calc_statistics_trials_missing (s : QVFitter) (depth : Z) (m k t : nat)
    (ev : list R) (es : Z) (iv : list R) :
  (k <= t < k + m)%nat -> ~ tabulated s depth t ->
  (forall t', (k <= t' < t)%nat -> tabulated s depth t') ->
  (k + m <= length ev)%nat -> (k + m <= length iv)%nat ->
  for_with (map Z.of_nat (seq k m)) (ev, es, iv)
    (fun trialidx loc => calc_statistics_trial depth trialidx loc) s =
  (s, Raise (KeyError (circ_name depth (Z.of_nat t)))).
Proof.
  revert k ev es iv. induction m as [|m IH]; intros k ev es iv Ht Hn Hbefore Hev Hiv; [lia|].
  cbn [seq map for_with]. destruct (decide (t = k)) as [->|Hne].
  - unfold bind. rewrite calc_statistics_trial_missing by (assumption || lia). reflexivity.
  - rewrite (bind_Ok _ _ _ _ _ (calc_statistics_trial_step s depth k ev es iv
                                  (Hbefore k ltac:(lia)) ltac:(lia) ltac:(lia))).
    apply IH; [lia | assumption | intros t' Ht'; apply Hbefore; lia
              | rewrite length_insert; lia..].
Qed.

Lemma calc_statistics_depth_missing (s : QVFitter) (i : nat) (depth : Z) (t : nat)
    (ev iv : list R) (y : list (list R)) :
  (t < Z.to_nat (_ntrials s))%nat -> ~ tabulated s depth t ->
  (forall t', (t' < t)%nat -> tabulated s depth t') ->
  length ev = Z.to_nat (_ntrials s) -> length iv = Z.to_nat (_ntrials s) ->
  calc_statistics_depth i depth (ev, iv) (set_ydata y s) =
  (set_ydata y s, Raise (KeyError (circ_name depth (Z.of_nat t)))).
Proof.
  intros Ht Hn Hbefore Hev Hiv.
  unfold calc_statistics_depth. rewrite bind_gets.
  change (_ntrials (set_ydata y s)) with (_ntrials s). rewrite range_seq.
  unfold bind at 1.
  rewrite (calc_statistics_trials_missing (set_ydata y s) depth
             (Z.to_nat (_ntrials s)) 0 t ev 0%Z iv);
    [reflexivity | lia | exact Hn | intros t' Ht'; apply Hbefore; lia | lia..].
Qed.

Lemma calc_statistics_depths_outcome (s : QVFitter) (ds : list Z) :
  (0 <= _ntrials s)%Z ->
  forall (k : nat) (ev iv r0 r1 r2 r3 : list R),
  length ev = Z.to_nat (_ntrials s) -> length iv = Z.to_nat (_ntrials s) ->
  (k + length ds <= length r0)%nat -> (k + length ds <= length r1)%nat ->
  (k + length ds <= length r2)%nat -> (k + length ds <= length r3)%nat ->
  exists s' r,
    for_with (zip (seq k (length ds)) ds) (ev, iv)
      (fun '(depthidx, depth) arrays => calc_statistics_depth depthidx depth arrays)
      (set_ydata [r0; r1; r2; r3] s) = (s', r) /\
    match r with
    | Ok _ =>
        forall d t, d ∈ ds -> (t < Z.to_nat (_ntrials s))%nat -> tabulated s d t
    | Raise e =>
        exists d t,
          d ∈ ds /\ (t < Z.to_nat (_ntrials s))%nat /\
          e = KeyError (circ_name d (Z.of_nat t)) /\ ~ tabulated s d t
    end.
Proof.
  intros HN. induction ds as [|d ds IH]; intros k ev iv r0 r1 r2 r3 Hev Hiv H0 H1 H2 H3.
  - eexists _, (Ok _). split; [reflexivity|]. intros d t Hd. by apply elem_of_nil in Hd.
  - cbn [length seq zip zip_with for_with] in *.
    destruct (tabulated_trials_dec s d 0 (Z.to_nat (_ntrials s)))
      as [Hall|(t & Ht & Hn & Hbefore)].
    + rewrite (bind_Ok _ _ _ _ _
                 (calc_statistics_depth_step s k d ev iv r0 r1 r2 r3 HN
                    (fun t Ht => Hall t ltac:(lia)) Hev Hiv
                    ltac:(lia) ltac:(lia) ltac:(lia) ltac:(lia))).
      destruct (IH (S k) (map (fun t => IZR (counts_at s d t)) (seq 0 (Z.to_nat (_ntrials s))))
                  (map (ideal_at s d) (seq 0 (Z.to_nat (_ntrials s))))
                  (<[k := p_hat s d]> r0) (<[k := p_hat_err s d]> r1)
                  (<[k := p_ideal s d]> r2) (<[k := p_ideal_err s d]> r3))
        as (s' & r & E & Hr);
        try (rewrite length_map, length_seq; reflexivity);
        try (rewrite length_insert; lia).
      exists s', r. split; [exact E|]. destruct r as [v|e].
      * intros d' t Hd' Ht. apply elem_of_cons in Hd' as [->|Hd'];
          [apply Hall; lia | by apply Hr].
      * destruct Hr as (d' & t & Hd' & Hr). exists d', t.
        split; [by apply list_elem_of_further | exact Hr].
    + unfold bind at 1.
      rewrite (calc_statistics_depth_missing s k d t ev iv [r0; r1; r2; r3]);
        [|lia | exact Hn | intros t' Ht'; apply Hbefore; lia | assumption..].
      eexists _, (Raise _). split; [reflexivity|]. exists d, t.
      split; [apply list_elem_of_here|]. split; [lia|]. split; [reflexivity | exact Hn].
Qed.

Lemma calc_statistics_negative (s : QVFitter) :
  (_ntrials s < 0)%Z ->
  calc_statistics s =
  (set_ydata (replicate 4 (replicate (length (_depths s)) 0)) s, Raise ValueError).
Proof.
  intros HN. unfold calc_statistics. rewrite bind_gets. unfold bind at 1, modify at 1.
  rewrite bind_gets. change (_ntrials (set_ydata _ s)) with (_ntrials s).
  unfold bind, np_zeros. destruct (Z.ltb_spec (_ntrials s) 0); [reflexivity | lia].
Qed.

(** X23. How [calc_statistics] ends.  It ends normally only with a trial
    count that is not negative and an entry in each of the three
    per-instance tables for every depth of the depth list and every trial
    below the trial count.  When it raises, it is the [ValueError] of a
    negative trial count, or the [KeyError] of a visited instance that one
    of the three tables has no entry for. *)
Theorem calc_statistics_outcome (s s' : QVFitter) (r : outcome unit) :
  calc_statistics s = (s', r) ->
  match r with
  | Ok _ =>
      (0 <= _ntrials s)%Z /\
      forall d t, d ∈ _depths s -> (t < Z.to_nat (_ntrials s))%nat -> tabulated s d t
  | Raise e =>
      (e = ValueError /\ (_ntrials s < 0)%Z) \/
      ((0 <= _ntrials s)%Z /\
       exists d t,
         d ∈ _depths s /\ (t < Z.to_nat (_ntrials s))%nat /\
         e = KeyError (circ_name d (Z.of_nat t)) /\ ~ tabulated s d t)
  end.
Proof.
  destruct (Z.lt_ge_cases (_ntrials s) 0) as [HN|HN].
  - rewrite calc_statistics_negative by assumption. intros [= <- <-]. by left.
  - set (zeros := replicate (length (_depths s)) 0).
    destruct (calc_statistics_depths_outcome s (_depths s) HN 0
                (replicate (Z.to_nat (_ntrials s)) 0) (replicate (Z.to_nat (_ntrials s)) 0)
                zeros zeros zeros zeros)
      as (s1 & r1 & E & Hr);
      try (unfold zeros; rewrite length_replicate; lia).
    unfold calc_statistics. rewrite bind_gets. unfold bind at 1, modify at 1.
    rewrite bind_gets.
    change (_ntrials (set_ydata _ s)) with (_ntrials s).
    rewrite (bind_Ok _ _ _ _ _ (np_zeros_Ok _ _ HN)).
    rewrite bind_gets. change (_ntrials (set_ydata _ s)) with (_ntrials s).
    rewrite (bind_Ok _ _ _ _ _ (np_zeros_Ok _ _ HN)).
    rewrite bind_gets. change (_depths (set_ydata _ s)) with (_depths s).
    rewrite enumerate_zip.
    change (set_ydata (replicate 4 (replicate (length (_depths s)) 0)) s)
      with (set_ydata [zeros; zeros; zeros; zeros] s).
    unfold bind. rewrite E. destruct r1 as [v|e].
    + intros [= <- <-]. split; [exact HN | exact Hr].
    + intros [= <- <-]. right. split; [exact HN | exact Hr].
Qed.

Lemma calc_statistics_outcome_witness :
  exists s' r,
    calc_statistics scenario_fitter = (s', r) /\ tabulated scenario_fitter 2 0.
Proof.
  destruct (calc_statistics scenario_fitter) as [s' r] eqn:E.
  exists s', r. split; [reflexivity|].
  pose proof (calc_statistics_outcome _ _ _ E) as H.
  destruct r as [[]|e].
  - apply H; [apply list_elem_of_here | cbn; lia].
  - repeat split; eexists; reflexivity.
Defined.

(* ===================================================================== *)
(** ** The measured heavy-output probability *)
(* ===================================================================== *)

Lemma calc_statistics_rows (s : QVFitter) :
  (0 <= _ntrials s)%Z ->
  (forall d t, d ∈ _depths s -> (t < Z.to_nat (_ntrials s))%nat -> tabulated s d t) ->
  exists r0 r1 r2 r3 : list R,
    calc_statistics s = (set_ydata [r0; r1; r2; r3] s, Ok tt) /\
    forall (i : nat) (d : Z), _depths s !! i = Some d ->
      r0 !! i = Some (p_hat s d) /\ r1 !! i = Some (p_hat_err s d) /\
      r2 !! i = Some (p_ideal s d) /\ r3 !! i = Some (p_ideal_err s d).
Proof.
  intros HN Htab.
  set (zeros := replicate (length (_depths s)) 0).
  destruct (calc_statistics_depths_loop s (_depths s) HN Htab 0
              (replicate (Z.to_nat (_ntrials s)) 0) (replicate (Z.to_nat (_ntrials s)) 0)
              zeros zeros zeros zeros)
    as (ev' & iv' & r0 & r1 & r2 & r3 & E & _ & _ & Hnew);
    try (unfold zeros; rewrite length_replicate; lia).
  exists r0, r1, r2, r3. split.
  - unfold calc_statistics. rewrite bind_gets. unfold bind at 1, modify at 1.
    rewrite bind_gets.
    change (_ntrials (set_ydata _ s)) with (_ntrials s).
    rewrite (bind_Ok _ _ _ _ _ (np_zeros_Ok _ _ HN)).
    rewrite bind_gets. change (_ntrials (set_ydata _ s)) with (_ntrials s).
    rewrite (bind_Ok _ _ _ _ _ (np_zeros_Ok _ _ HN)).
    rewrite bind_gets. change (_depths (set_ydata _ s)) with (_depths s).
    rewrite enumerate_zip.
    change (set_ydata (replicate 4 (replicate (length (_depths s)) 0)) s)
      with (set_ydata [zeros; zeros; zeros; zeros] s).
    erewrite bind_Ok; [|exact E]. reflexivity.
  - intros i d Hd. apply (Hnew i d Hd).
Qed.

Lemma Zsum_le (f g : nat -> Z) (l : list nat) :
  (forall t, t ∈ l -> (0 <= f t <= g t)%Z) ->
  (0 <= Zsum (map f l) <= Zsum (map g l))%Z.
Proof.
  unfold Zsum. induction l as [|t l IH]; intros H; cbn; [lia|].
  pose proof (H t (list_elem_of_here _ _)).
  assert (forall t', t' ∈ l -> (0 <= f t' <= g t')%Z)
    by (intros t' Ht'; by apply H, list_elem_of_further).
  specialize (IH ltac:(assumption)). lia.
Qed.

(** X24. With at least one shot at a depth, and at every trial a
    heavy-output count between 0 and the shots, the heavy-output
    probability that [calc_statistics] stores for the depth lies between 0
    and 1, so that the standard error beside it is the root of a
    non-negative number. *)
Theorem heavy_probability_in_unit_interval (s : QVFitter) (i : nat) (d : Z) :
  let N := Z.to_nat (_ntrials s) in
  (0 <= _ntrials s)%Z ->
  (forall d' t, d' ∈ _depths s -> (t < N)%nat -> tabulated s d' t) ->
  _depths s !! i = Some d ->
  (forall t, (t < N)%nat -> (0 <= counts_at s d t <= shots_at s d t)%Z) ->
  (0 < Zsum (map (shots_at s d) (seq 0 N)))%Z ->
  exists s' row0 p,
    calc_statistics s = (s', Ok tt) /\
    _ydata s' !! 0%nat = Some row0 /\ row0 !! i = Some p /\
    0 <= p <= 1 /\ 0 <= p * (1 - p).
Proof.
  intros N HN Htab Hd Hc Hshots.
  destruct (calc_statistics_rows s HN Htab) as (r0 & r1 & r2 & r3 & E & Hrows).
  destruct (Hrows i d Hd) as (H0 & _).
  exists (set_ydata [r0; r1; r2; r3] s), r0, (p_hat s d).
  split; [exact E|]. split; [reflexivity|]. split; [exact H0|].
  assert (Hsum : (0 <= Zsum (map (counts_at s d) (seq 0 N))
                    <= Zsum (map (shots_at s d) (seq 0 N)))%Z).
  { apply Zsum_le. intros t Ht. apply elem_of_seq in Ht. apply Hc. lia. }
  unfold p_hat. fold N.
  set (c := Zsum (map (counts_at s d) (seq 0 N))) in *.
  set (n := Zsum (map (shots_at s d) (seq 0 N))) in *.
  assert (Hn : 0 < IZR n) by (apply IZR_lt; lia).
  assert (Hc0 : 0 <= IZR c) by (apply IZR_le; lia).
  assert (Hcn : IZR c <= IZR n) by (apply IZR_le; lia).
  assert (Hp : 0 <= IZR c / IZR n <= 1).
  { split.
    - apply Rmult_le_pos; [assumption | left; by apply Rinv_0_lt_compat].
    - apply (Rmult_le_reg_r (IZR n)); [assumption|]. field_simplify; lra. }
  split; [exact Hp | nra].
Qed.

Lemma heavy_probability_in_unit_interval_witness :
  exists s' row0 p,
    calc_statistics scenario_fitter = (s', Ok tt) /\
    _ydata s' !! 0%nat = Some row0 /\ row0 !! 0%nat = Some p /\ 0 <= p <= 1.
Proof.
  destruct (heavy_probability_in_unit_interval scenario_fitter 0 2)
    as (s' & row0 & p & E & Hy & Hp & Hb & _).
  - cbn. lia.
  - apply scenario_tabulated.
  - reflexivity.
  - intros t Ht. assert (t = 0%nat) as -> by (cbn in Ht; lia).
    assert (counts_at scenario_fitter 2 0 = 70%Z) as -> by reflexivity.
    assert (shots_at scenario_fitter 2 0 = 100%Z) as -> by reflexivity. lia.
  - assert (Zsum (map (shots_at scenario_fitter 2)
                    (seq 0 (Z.to_nat (_ntrials scenario_fitter)))) = 100%Z) as ->
      by reflexivity.
    lia.
  - exists s', row0, p. auto.
Defined.

(* ===================================================================== *)
(** ** The median splits the values *)
(* ===================================================================== *)

(** In an ascending list the elements below a bound that the element at
    index [k] respects come before index [k]. *)
Lemma ascending_below (l : list R) (k : nat) (m : R) :
  ascending l -> (k < length l)%nat -> m <= nth k l 0 ->
  (length (List.filter (fun x => Rgtb m x) l) <= k)%nat.
Proof.
  intros Hl Hk Hm. rewrite <- (take_drop k l) at 1.
  rewrite List.filter_app, length_app, (filter_none _ (drop k l)).
  - cbn. rewrite Nat.add_0_r. etransitivity; [apply filter_length_le|].
    rewrite length_take. lia.
  - intros x Hx. apply list_elem_of_lookup in Hx as [j Hj].
    apply Rgtb_false. rewrite lookup_drop in Hj.
    etransitivity; [exact Hm|].
    apply (ascending_lookup l k (k + j)); [assumption | lia | | assumption].
    by apply lookup_nth_lt.
Qed.

(** At most half of the values are below their median. *)
Lemma median_below (l : list R) :
  (length (List.filter (fun x => Rgtb (Np.median l) x) l) <= length l / 2)%nat.
Proof.
  rewrite (filter_length_perm _ l (Np.sort l)) by (symmetry; apply sort_perm).
  rewrite <- (Permutation_length (sort_perm l)).
  unfold Np.median. cbv zeta.
  pose proof (sort_ascending l) as Hs.
  set (s := Np.sort l) in *. set (n := length s).
  destruct (Nat.eq_dec n 0%nat) as [Hn|Hn].
  { assert (s = []) as -> by (apply length_zero_iff_nil; exact Hn). cbn. lia. }
  destruct (Nat.even n) eqn:En.
  - apply Nat.even_spec in En as [h Hh].
    assert (Hdiv : (n / 2 = h)%nat)
      by (symmetry; apply (Nat.div_unique n 2 h 0); lia).
    apply (ascending_below s (n / 2)); [assumption | lia |].
    assert (nth (n / 2 - 1) s 0 <= nth (n / 2) s 0); [|lra].
    apply (ascending_lookup s (n / 2 - 1) (n / 2)); [assumption | lia | |];
      apply lookup_nth_lt; lia.
  - assert (Ho : Nat.odd n = true) by (unfold Nat.odd; by rewrite En).
    apply Nat.odd_spec in Ho as [h Hh].
    assert (Hdiv : (n / 2 = h)%nat)
      by (symmetry; apply (Nat.div_unique n 2 h 1); lia).
    apply (ascending_below s (n / 2)); [assumption | lia | lra].
Qed.

(** X25. [_median_probabilities] returns one median per distribution, and
    the median of a distribution splits its values: at most half of them
    are above it and at most half of them are below it. *)
Theorem median_probabilities_split (distributions : list (PyDict.t R)) :
  length (_median_probabilities distributions) = length distributions /\
  forall (i : nat) (m : R),
    _median_probabilities distributions !! i = Some m ->
    exists dist,
      distributions !! i = Some dist /\
      let values := PyDict.values dist in
      (2 * length (List.filter (fun p => Rgtb p m) values) <= length values)%nat /\
      (2 * length (List.filter (fun p => Rgtb m p) values) <= length values)%nat.
Proof.
  unfold _median_probabilities. split; [apply length_map|].
  intros i m Hi. change (map ?f ?l) with (f <$> l) in Hi.
  rewrite list_lookup_fmap in Hi.
  destruct (distributions !! i) as [dist|]; [|discriminate].
  injection Hi as <-. exists dist. split; [reflexivity|]. cbv zeta.
  pose proof (median_above (PyDict.values dist)).
  pose proof (median_below (PyDict.values dist)).
  pose proof (Nat.Div0.mul_div_le (length (PyDict.values dist)) 2). lia.
Qed.

Lemma median_probabilities_split_witness :
  exists m, _median_probabilities [[("0", 0.25); ("1", 0.75)]] !! 0%nat = Some m /\
  (2 * length (List.filter (fun p => Rgtb p m) [0.25; 0.75]%R) <= 2)%nat.
Proof.
  destruct (median_probabilities_split [[("0", 0.25); ("1", 0.75)]]) as [_ H].
  eexists. split; [reflexivity|].
  destruct (H 0%nat _ eq_refl) as (dist & Hd & Ha & _).
  injection Hd as <-. exact Ha.
Defined.

(* ===================================================================== *)
(** ** Measuring what was prepared *)
(* ===================================================================== *)

(** X26. Measuring after preparing: for 'X', 'Y' and 'Z', the measurement
    circuit run after the preparation circuit of the eigenstate 'p' reads
    the outcome 0 with probability 1, and after that of the eigenstate 'm'
    the outcome 1 with probability 1. *)
Theorem prepare_then_measure (op : string) (k : bool) (qubit clbit : bit) :
  op ∈ measurement_labels ->
  let prepared :=
    run_circuit (pauli_preparation_circuit (op +:+ (if k then "m" else "p")) qubit)
      (Cone, Czero) in
  let measured := run_circuit (pauli_measurement_circuit op qubit clbit) prepared in
  outcome_probability k measured = 1 /\ outcome_probability (negb k) measured = 0.
Proof.
  intros Hl. unfold measurement_labels in Hl. rewrite !elem_of_cons, elem_of_nil in Hl.
  cbv zeta.
  destruct Hl as [->|[->|[->|[]]]]; destruct k;
    unfold run_circuit;
    repeat match goal with
    | |- context [QuantumCircuit.data ?c] =>
        let d := eval cbv in (QuantumCircuit.data c) in
        change (QuantumCircuit.data c) with d
    end;
    cbv [fold_left apply_instruction negb
         Cscale Cadd Cneg Ctimes_i Cone Czero multiply conjugate real
         outcome_probability fst snd];
    pose proof inv_sqrt2_sqr as Hk;
    generalize dependent (/ sqrt 2); intros h Hk;
    split; nra.
Qed.

Lemma prepare_then_measure_witness :
  outcome_probability true
    (run_circuit (pauli_measurement_circuit "Y" ("q", 0%Z) ("c", 0%Z))
       (run_circuit (pauli_preparation_circuit "Ym" ("q", 0%Z)) (Cone, Czero))) = 1.
Proof.
  apply (prepare_then_measure "Y" true ("q", 0%Z) ("c", 0%Z)).
  apply list_elem_of_further, list_elem_of_here.
Defined.

(* ===================================================================== *)
(** ** Registered circuits are accepted *)
(* ===================================================================== *)

Lemma add_data_loop_accepts (rs : list Result) (s : QVFitter) :
  (forall r c, r ∈ rs -> c ∈ results r ->
     registered s c /\ is_Some (trial_of (header_name c))) ->
  exists s', add_data_loop rs s = (s', Ok tt).
Proof.
  intros Hall.
  destruct (add_data_results_loop rs s) as (s' & r & E & _ & _ & Hr).
  destruct r as [[]|e]; [eauto|]. exfalso.
  destruct Hr as (pre & r0 & post & -> & _ & Hout).
  assert (Hr0 : r0 ∈ pre ++ r0 :: post)
    by (apply elem_of_app; right; apply list_elem_of_here).
  destruct Hout as [[_ (c & Hc & Hn)]|[_ (c & Hc & Hn)]];
    destruct (Hall r0 c Hr0 Hc) as [Hreg [t Ht]]; [contradiction | congruence].
Qed.

Lemma scenario_batch_Ok :
  exists s', add_statevectors (ArgOne ideal_batch) fresh_fitter = (s', Ok tt).
Proof.
  destruct scenario_circ_Ok as [s' E]. exists s'.
  rewrite add_statevectors_unfold.
  change (circuits (as_list (ArgOne ideal_batch)))
    with [(ideal_batch, {| header_name := scenario_name |})].
  cbn [for_ fst snd]. unfold bind. rewrite E. reflexivity.
Defined.

(** X27. The circuits that a call of [add_statevectors] has registered are
    accepted by [add_data]: after a call that ended normally, [add_data]
    without refit ends normally on batches whose circuits all carry a name
    of the registered batches with a trial index at its end. *)
Theorem registered_circuits_accepted (ideal counts : ResultArg) (s s1 : QVFitter) :
  add_statevectors ideal s = (s1, Ok tt) ->
  (forall r c, r ∈ as_list counts -> c ∈ results r ->
     header_name c ∈ circuit_names (circuits (as_list ideal)) /\
     is_Some (trial_of (header_name c))) ->
  exists s2,
    add_data counts false s1 = (s2, Ok tt) /\
    _result_list s2 = _result_list s1 ++ as_list counts.
Proof.
  intros E Hnames. rewrite add_statevectors_unfold in E.
  apply add_statevectors_loop_Ok in E as (_ & _ & _ & Hreg).
  destruct (add_data_loop_accepts (as_list counts) s1) as [s2 E2].
  { intros r c Hr Hc. destruct (Hnames r c Hr Hc) as [Hn Ht]. split; [|exact Ht].
    unfold circuit_names in Hn. apply list_elem_of_fmap in Hn as ([r0 c0] & Hn & Hin).
    cbn in Hn. destruct (Hreg r0 c0 Hin) as (_ & _ & p & _ & _ & _ & Hp).
    unfold registered. rewrite Hn, Hp. eauto. }
  exists s2.
  assert (E3 : add_data counts false s1 = (s2, Ok tt)).
  { destruct counts as [|r|l]; [cbn in *; exact E2 | |];
      rewrite add_data_unfold by discriminate; unfold bind; rewrite E2; reflexivity. }
  split; [exact E3|].
  destruct (add_data_results_loop (as_list counts) s1) as (s' & r & E' & _ & _ & Hr).
  rewrite E2 in E'. injection E' as <- <-. apply Hr.
Qed.

Lemma registered_circuits_accepted_witness :
  exists s1 s2,
    add_statevectors (ArgOne ideal_batch) fresh_fitter = (s1, Ok tt) /\
    add_data (ArgOne counts_batch) false s1 = (s2, Ok tt).
Proof.
  destruct scenario_batch_Ok as [s1 E].
  destruct (registered_circuits_accepted (ArgOne ideal_batch) (ArgOne counts_batch)
              fresh_fitter s1 E) as (s2 & E2 & _).
  - intros r c Hr Hc. apply list_elem_of_singleton in Hr as ->.
    apply list_elem_of_singleton in Hc as ->.
    split; [apply list_elem_of_here | eexists; reflexivity].
  - exists s1, s2. auto.
Defined.

(* ===================================================================== *)
(** ** The whole refit *)
(* ===================================================================== *)

(** X28. [add_data] with refit ends normally on a fitter that has, for
    every depth of its depth list and every trial index below a bound [M],
    a heavy set and an ideal probability on record, when its trial count is
    between 0 and [M] and the circuits added carry the names of such depths
    and trial indices: the batches are stored, the trial count stays at most
    [M], and the statistics table has its four rows. *)
Theorem add_data_refit_succeeds (counts : ResultArg) (s : QVFitter) (M : Z) :
  counts <> ArgNone ->
  (0 <= _ntrials s <= M)%Z ->
  (forall d t, d ∈ _depths s -> (0 <= t < M)%Z ->
     is_Some (_heavy_outputs s !! circ_name d t) /\
     is_Some (_heavy_output_prob_ideal s !! circ_name d t)) ->
  (forall r c, r ∈ as_list counts -> c ∈ results r ->
     exists d t, header_name c = circ_name d t /\ d ∈ _depths s /\ (0 <= t < M)%Z) ->
  exists s' r0 r1 r2 r3,
    add_data counts true s = (s', Ok tt) /\
    _result_list s' = _result_list s ++ as_list counts /\
    (_ntrials s <= _ntrials s' <= M)%Z /\
    _ydata s' = [r0; r1; r2; r3].
Proof.
  intros Hcounts HN Hreg Hnames.
  destruct (add_data_loop_accepts (as_list counts) s) as [s2 E2].
  { intros r c Hr Hc. destruct (Hnames r c Hr Hc) as (d & t & Hn & Hd & Ht).
    unfold registered. rewrite Hn, trial_of_circ_name.
    split; [apply (Hreg d t Hd Ht) | eauto]. }
  pose proof (add_data_loop_Ok _ _ _ E2) as (Hs2 & Hle & _ & Hmax).
  assert (HM : (_ntrials s2 <= M)%Z).
  { destruct Hmax as [->|(r & c & Hr & Hc & Ht)]; [lia|].
    destruct (Hnames r c Hr Hc) as (d & t & Hn & _ & Hlt).
    rewrite Hn, trial_of_circ_name in Ht. injection Ht as Ht. lia. }
  assert (Hd2 : _depths s2 = _depths s) by (rewrite Hs2; reflexivity).
  assert (Hh2 : _heavy_outputs s2 = _heavy_outputs s) by (rewrite Hs2; reflexivity).
  assert (Hi2 : _heavy_output_prob_ideal s2 = _heavy_output_prob_ideal s)
    by (rewrite Hs2; reflexivity).
  destruct (calc_data_Ok s2) as (shots' & hoc' & Ew & E3).
  { intros d t Hd Ht. rewrite Hd2 in Hd. rewrite Hh2. apply Hreg; [assumption | lia]. }
  set (s3 := with_counts s2 shots' hoc') in *.
  destruct (calc_statistics_rows s3) as (r0 & r1 & r2 & r3 & E4 & _).
  { change (_ntrials s3) with (_ntrials s2). lia. }
  { intros d t Hd Ht. change (_depths s3) with (_depths s2) in Hd.
    change (_ntrials s3) with (_ntrials s2) in Ht.
    destruct (calc_data_writes_lookup _ _ _ _ _ _ _ (circ_name d (Z.of_nat t)) Ew)
      as (Hs & strings & _ & Hc).
    { apply elem_of_visited_names. exists d, (Z.of_nat t). split; [reflexivity|].
      split; [assumption | lia]. }
    unfold tabulated. change (_heavy_output_counts s3) with hoc'.
    change (_circ_shots s3) with shots'.
    change (_heavy_output_prob_ideal s3) with (_heavy_output_prob_ideal s2).
    rewrite Hc, Hs, Hi2. split; [eauto|]. split; [eauto|].
    rewrite Hd2 in Hd. apply (Hreg d (Z.of_nat t) Hd). lia. }
  exists (set_ydata [r0; r1; r2; r3] s3), r0, r1, r2, r3. split.
  - rewrite add_data_unfold by assumption. unfold bind at 1. rewrite E2.
    unfold recompute, bind. rewrite E3, E4. reflexivity.
  - cbn. split; [rewrite Hs2; reflexivity|]. split; [lia | reflexivity].
Qed.

Lemma add_data_refit_succeeds_witness :
  exists s',
    add_data (ArgOne counts_batch) true
      (mkQVFitter [[0; 1]%Z] [2%Z] 0%Z [] ∅ ∅ {[scenario_name := 0.72]} []
                  {[scenario_name := ["00"; "01"]]})
    = (s', Ok tt) /\ _result_list s' = [counts_batch].
Proof.
  destruct (add_data_refit_succeeds (ArgOne counts_batch)
              (mkQVFitter [[0; 1]%Z] [2%Z] 0%Z [] ∅ ∅ {[scenario_name := 0.72]} []
                          {[scenario_name := ["00"; "01"]]}) 1)
    as (s' & r0 & r1 & r2 & r3 & E & Hr & _).
  - discriminate.
  - cbn. lia.
  - intros d t Hd Ht. apply list_elem_of_singleton in Hd as ->.
    assert (t = 0%Z) as -> by lia. split; eexists; reflexivity.
  - intros r c Hr Hc. apply list_elem_of_singleton in Hr as ->.
    apply list_elem_of_singleton in Hc as ->.
    exists 2%Z, 0%Z. split; [reflexivity|]. split; [apply list_elem_of_here | lia].
  - exists s'. split; [exact E | exact Hr].
Defined.

(* ===================================================================== *)
(** ** [calc_data] stops in the middle *)
(* ===================================================================== *)

Lemma calc_data_writes_Raise (rl : list Result) (heavy : gmap string (list string))
    (names : list string) (shots hoc shots' hoc' : gmap string Z) (e : exn) :
  calc_data_writes rl heavy names shots hoc = (shots', hoc', Raise e) ->
  exists n,
    e = KeyError n /\ n ∈ names /\ heavy !! n = None /\
    shots' !! n = Some (shots_of rl n) /\ hoc' !! n = hoc !! n.
Proof.
  revert shots hoc. induction names as [|m names IH]; intros shots hoc E; [discriminate|].
  cbn in E. destruct (heavy !! m) as [strings|] eqn:Hm.
  - apply IH in E as (n & -> & Hin & Hn & Hs & Hc). exists n.
    split; [reflexivity|]. split; [by apply list_elem_of_further|].
    split; [exact Hn|]. split; [exact Hs|].
    rewrite Hc, lookup_insert_ne; [reflexivity | congruence].
  - injection E as <- <- <-. exists m. split; [reflexivity|].
    split; [apply list_elem_of_here|]. split; [exact Hm|].
    split; [apply lookup_insert_eq | reflexivity].
Qed.

(** X29. [calc_data] is not atomic: when it raises the [KeyError] of a
    circuit instance without a heavy set, it has already stored the number
    of shots of that instance, and not its heavy-output count. *)
Theorem calc_data_not_atomic (s s' : QVFitter) (e : exn) :
  calc_data s = (s', Raise e) ->
  exists n,
    e = KeyError n /\ _heavy_outputs s !! n = None /\
    _circ_shots s' !! n = Some (sum_values (merged_counts (_result_list s) n)) /\
    _heavy_output_counts s' !! n = _heavy_output_counts s !! n.
Proof.
  rewrite calc_data_spec.
  destruct (calc_data_writes _ _ _ _ _) as [[shots' hoc'] r] eqn:E.
  intros [= <- ->].
  apply calc_data_writes_Raise in E as (n & -> & _ & Hn & Hs & Hc).
  exists n. cbn. auto.
Qed.

Lemma calc_data_not_atomic_witness :
  exists s',
    calc_data (set_ntrials 1 fresh_fitter) = (s', Raise (KeyError scenario_name)) /\
    _circ_shots s' !! scenario_name = Some 0%Z /\
    _heavy_output_counts s' !! scenario_name = None.
Proof.
  assert (E : calc_data (set_ntrials 1 fresh_fitter)
              = (set_circ_shots {[scenario_name := 0%Z]} (set_ntrials 1 fresh_fitter),
                 Raise (KeyError scenario_name))) by reflexivity.
  eexists. split; [exact E|].
  destruct (calc_data_not_atomic _ _ _ E) as (n & Hn & _ & Hs & Hc).
  injection Hn as <-. split; [reflexivity | exact Hc].
Defined.

(* ===================================================================== *)
(** ** The range of the confidence *)
(* ===================================================================== *)

Section ConfidenceRange.
Variable erf : R -> R.
Hypothesis erf_range : forall x, -1 <= erf x <= 1.

Lemma verdict_range (p sigma : R) :
  let v := verdict erf p sigma in
  0 <= snd v <= 1 /\ (fst v = true -> p > 2 / 3 /\ snd v > 0.975).
Proof.
  unfold verdict, confidence. cbv zeta.
  destruct (Rgtb p (2 / 3)) eqn:Ep.
  - pose proof (erf_range ((p - 2 / 3) / ((sigma + 1e-10) * sqrt 2))).
    cbn [fst snd]. split; [lra|]. intros Hc. apply Rgtb_true in Hc, Ep. auto.
  - cbn [fst snd]. split; [lra | discriminate].
Qed.

(** X30. For an error function with values between -1 and 1: every
    confidence that [qv_success] reports, on a fitter whose statistics
    table has its first two rows, lies between 0 and 1, and a depth is
    reported as a success only with a stored heavy-output probability above
    2/3 and a confidence above 0.975. *)
Theorem qv_success_confidence_range (s : QVFitter) (row0 row1 : list R)
    (rest : list (list R)) (l : list (bool * R)) :
  _ydata s = row0 :: row1 :: rest ->
  (length (_depths s) <= length row0)%nat ->
  (length (_depths s) <= length row1)%nat ->
  qv_success erf s = (s, Ok l) ->
  forall (i : nat) (success : bool) (cfd : R),
    l !! i = Some (success, cfd) ->
    0 <= cfd <= 1 /\
    (success = true -> nth i row0 0 > 2 / 3 /\ cfd > 0.975).
Proof.
  intros Hy H0 H1 E i success cfd Hi.
  unfold qv_success in E. rewrite bind_gets, enumerate_zip in E.
  rewrite (qv_success_loop erf s row0 row1 rest (_depths s) 0 [] Hy) in E by (cbn; lia).
  injection E as <-. cbn [app] in Hi.
  change (map ?f ?l) with (f <$> l) in Hi. rewrite list_lookup_fmap in Hi.
  destruct (seq 0 (length (_depths s)) !! i) as [j|] eqn:Hj; [|discriminate].
  apply lookup_seq in Hj as [-> _]. cbn in Hi.
  pose proof (verdict_range (nth i row0 0) (nth i row1 0)) as Hv. cbv zeta in Hv.
  injection Hi as Hi. rewrite Hi in Hv. exact Hv.
Qed.
End ConfidenceRange.

Lemma qv_success_confidence_range_witness :
  let s := set_ydata [[0.7]; [0.1]; [0.72]; [0.1]] scenario_fitter in
  exists success cfd,
    qv_success (fun _ => 1) s = (s, Ok [(success, cfd)]) /\ 0 <= cfd <= 1.
Proof.
  intros s.
  destruct (verdict (fun _ => 1) 0.7 0.1) as [success cfd] eqn:Ev.
  assert (E : qv_success (fun _ => 1) s = (s, Ok [(success, cfd)])).
  { rewrite <- Ev. unfold qv_success. rewrite bind_gets, enumerate_zip.
    apply (qv_success_loop (fun _ => 1) s [0.7] [0.1] [[0.72]; [0.1]] (_depths s) 0 []
             eq_refl); cbn; lia. }
  exists success, cfd. split; [exact E|].
  apply (qv_success_confidence_range (fun _ => 1) ltac:(intros; lra) s
           [0.7] [0.1] [[0.72]; [0.1]] [(success, cfd)] eq_refl
           ltac:(cbn; lia) ltac:(cbn; lia) E 0%nat success cfd eq_refl).
Defined.
